(** * libdicom, Part 5 core (src/dicom-data.c): elements, data sets,
      sequences and the Basic Offset Table.

    The C objects form an ownership tree (a data set owns its elements, a
    sequence-valued element owns its sequence, a sequence owns its items), so
    they are embedded as values that contain their children.  A C function
    that writes through a pointer argument becomes a function that returns
    the updated object next to its C result.  The remaining effects, the
    caller's [DcmError *] slot, the outcome of allocations and the objects
    handed to the destructors, are threaded through a small state monad whose
    [None] stands for a run that does not return (failed [assert], read
    through a null pointer or past an array). *)

From Stdlib Require Import ZArith List String Ascii Bool Lia Permutation Sorted.
Import ListNotations.
Local Open Scope string_scope.
Local Open Scope list_scope.
Local Open Scope Z_scope.

Set Implicit Arguments.

(** ** Machine integers *)

Definition wrap16 (z : Z) : Z := z mod 2 ^ 16.
Definition wrap32 (z : Z) : Z := z mod 2 ^ 32.
Definition wrap64 (z : Z) : Z := z mod 2 ^ 64.

(** Conversion of an unsigned w-bit pattern to the signed type of the same
    width (two's complement, as on every target of the library). *)
Definition to_signed (w : Z) (z : Z) : Z :=
  let u := z mod 2 ^ w in
  if u <? 2 ^ (w - 1) then u else u - 2 ^ w.

Definition uint32 (z : Z) : Prop := 0 <= z < 2 ^ 32.

(** [size_t] and [ssize_t] of an LP64 target. *)
Definition size_t_add (a b : Z) : Z := wrap64 (a + b).
Definition ssize_t_add (a b : Z) : Z := to_signed 64 (a + b).

(** ** Declarations of dicom.h used by the file *)

(** Modelled from the spec: the enumeration [DcmVR] of dicom.h, the closed set
    of two-letter DICOM VR codes plus the [unknown] sentinel [DCM_VR_uk]. *)
Inductive DcmVR : Set :=
  | DCM_VR_AE | DCM_VR_AS | DCM_VR_AT | DCM_VR_CS | DCM_VR_DA | DCM_VR_DS
  | DCM_VR_DT | DCM_VR_FL | DCM_VR_FD | DCM_VR_IS | DCM_VR_LO | DCM_VR_LT
  | DCM_VR_OB | DCM_VR_OD | DCM_VR_OF | DCM_VR_OW | DCM_VR_PN | DCM_VR_SH
  | DCM_VR_SL | DCM_VR_SQ | DCM_VR_SS | DCM_VR_ST | DCM_VR_TM | DCM_VR_UI
  | DCM_VR_UL | DCM_VR_UN | DCM_VR_US | DCM_VR_UT | DCM_VR_UR | DCM_VR_UC
  | DCM_VR_OL | DCM_VR_OV | DCM_VR_SV | DCM_VR_UV | DCM_VR_uk.

Definition DcmVR_eq_dec (a b : DcmVR) : {a = b} + {a <> b}.
Proof. decide equality. Defined.

Definition vr_eqb (a b : DcmVR) : bool :=
  if DcmVR_eq_dec a b then true else false.

(** Modelled from the spec: the enumeration [DcmVRClass] of dicom.h. *)
Inductive DcmVRClass : Set :=
  | DCM_CLASS_ERROR
  | DCM_CLASS_STRING_MULTI
  | DCM_CLASS_STRING_SINGLE
  | DCM_CLASS_NUMERIC
  | DCM_CLASS_BINARY
  | DCM_CLASS_SEQUENCE.

Definition DcmVRClass_eq_dec (a b : DcmVRClass) : {a = b} + {a <> b}.
Proof. decide equality. Defined.

Definition class_eqb (a b : DcmVRClass) : bool :=
  if DcmVRClass_eq_dec a b then true else false.

Inductive DcmErrorCode : Set :=
  | DCM_ERROR_CODE_NOMEM
  | DCM_ERROR_CODE_INVALID.

(** The error object: code, summary and the detail message (its printf
    format; the formatted arguments are not part of the model). *)
Record DcmError : Set := mkError {
  error_code : DcmErrorCode;
  error_summary : string;
  error_message : string
}.

(** The VR dictionary (dicom-dict.c) is consulted through this interface. *)
Class Dictionary : Type := {
  dcm_dict_lookup_vr : Z -> DcmVR;
  dcm_dict_vr_class : DcmVR -> DcmVRClass;
  dcm_dict_vr_size : DcmVR -> Z;
  dcm_dict_vr_capacity : DcmVR -> Z
}.

(** The conversions of the C compiler between [int64_t], [double] and
    [float], on the bit patterns that stand for floating-point scalars. *)
Class FloatConversions : Type := {
  double_to_float : Z -> Z;
  int64_to_float : Z -> Z;
  int64_to_double : Z -> Z
}.

(** ** The objects *)

(** [struct _DcmElement], [struct _DcmSequence] and [struct _DcmDataSet].
    The union [value] is a sum of the members the file writes; a numeric
    scalar is the integer it denotes (a floating-point one is its bit
    pattern, which the file only moves around).  The three "free these on
    destroy" pointers alias [value] when they are set, so each is kept as
    the flag "not NULL".  uthash keeps the elements of a data set in
    insertion order ([hh.next]); utarray keeps the items in append order. *)
Inductive DcmElement : Type :=
  mkElement (tag : Z) (vr : DcmVR) (length vm : Z) (assigned : bool)
            (value : DcmValue)
            (value_pointer value_pointer_array sequence_pointer : bool)
with DcmValue : Type :=
  | value_zero
  | single_num (x : Z)
  | single_str (s : string)
  | single_bytes (b : list Z)
  | single_sq (sq : DcmSequence)
  | multi_num (xs : list Z)
  | multi_str (ss : list string)
with DcmSequence : Type :=
  mkSequence (items : list DcmDataSet) (seq_is_locked : bool)
with DcmDataSet : Type :=
  mkDataSet (elements : list DcmElement) (is_locked : bool).

Definition tag (e : DcmElement) : Z :=
  let 'mkElement t _ _ _ _ _ _ _ _ := e in t.
Definition vr (e : DcmElement) : DcmVR :=
  let 'mkElement _ v _ _ _ _ _ _ _ := e in v.
Definition length (e : DcmElement) : Z :=
  let 'mkElement _ _ l _ _ _ _ _ _ := e in l.
Definition vm (e : DcmElement) : Z :=
  let 'mkElement _ _ _ m _ _ _ _ _ := e in m.
Definition assigned (e : DcmElement) : bool :=
  let 'mkElement _ _ _ _ a _ _ _ _ := e in a.
Definition value (e : DcmElement) : DcmValue :=
  let 'mkElement _ _ _ _ _ v _ _ _ := e in v.
Definition value_pointer (e : DcmElement) : bool :=
  let 'mkElement _ _ _ _ _ _ p _ _ := e in p.
Definition value_pointer_array (e : DcmElement) : bool :=
  let 'mkElement _ _ _ _ _ _ _ p _ := e in p.
Definition sequence_pointer (e : DcmElement) : bool :=
  let 'mkElement _ _ _ _ _ _ _ _ p := e in p.

Definition set_length (e : DcmElement) (l : Z) : DcmElement :=
  let 'mkElement t v _ m a x p q r := e in mkElement t v l m a x p q r.
Definition set_vm (e : DcmElement) (m : Z) : DcmElement :=
  let 'mkElement t v l _ a x p q r := e in mkElement t v l m a x p q r.
Definition set_assigned (e : DcmElement) (a : bool) : DcmElement :=
  let 'mkElement t v l m _ x p q r := e in mkElement t v l m a x p q r.
Definition set_value (e : DcmElement) (x : DcmValue) : DcmElement :=
  let 'mkElement t v l m a _ p q r := e in mkElement t v l m a x p q r.
Definition set_value_pointer (e : DcmElement) (p : bool) : DcmElement :=
  let 'mkElement t v l m a x _ q r := e in mkElement t v l m a x p q r.
Definition set_value_pointer_array (e : DcmElement) (q : bool) : DcmElement :=
  let 'mkElement t v l m a x p _ r := e in mkElement t v l m a x p q r.
Definition set_sequence_pointer (e : DcmElement) (r : bool) : DcmElement :=
  let 'mkElement t v l m a x p q _ := e in mkElement t v l m a x p q r.

Definition items (s : DcmSequence) : list DcmDataSet :=
  let 'mkSequence i _ := s in i.
Definition seq_is_locked (s : DcmSequence) : bool :=
  let 'mkSequence _ l := s in l.
Definition elements (d : DcmDataSet) : list DcmElement :=
  let 'mkDataSet e _ := d in e.
Definition is_locked (d : DcmDataSet) : bool :=
  let 'mkDataSet _ l := d in l.

(** [struct _DcmBOT]. *)
Record DcmBOT : Set := mkBOT {
  num_frames : Z;
  offsets : list Z;
  first_frame_offset : Z
}.

(** ** Effects *)

(** What the destructors were handed, in call order. *)
Inductive Destroyed : Type :=
  | destroyed_element (e : DcmElement)
  | destroyed_dataset (d : DcmDataSet)
  | destroyed_sequence (s : DcmSequence)
  | freed_string_array (ss : list string).

(** [error] is the caller's [*error]; [allocs] lists the outcomes of the
    allocations still to come ([true]: memory was available), an exhausted
    list meaning that memory is available; [destroyed] is the log of the
    destructor calls, in call order. *)
Record World : Type := mkWorld {
  error : option DcmError;
  allocs : list bool;
  destroyed : list Destroyed
}.

Definition M (A : Type) : Type := World -> option (A * World).

Definition ret {A} (a : A) : M A := fun w => Some (a, w).
Definition bind {A B} (m : M A) (k : A -> M B) : M B :=
  fun w => match m w with
           | Some (a, w') => k a w'
           | None => None
           end.
Definition abort {A} : M A := fun _ => None.

Declare Scope dcm_scope.
Delimit Scope dcm_scope with dcm.
Notation "x <- m ;; k" := (bind m (fun x => k))
  (at level 61, m at next level, right associativity) : dcm_scope.
Notation "m ;;; k" := (bind m (fun _ => k))
  (at level 61, right associativity) : dcm_scope.
Local Open Scope dcm_scope.

(** Modelled from the spec: [dcm_error_set] of dicom.c, which populates the
    caller's error object with code, summary and detail. *)
Definition dcm_error_set (c : DcmErrorCode) (summary message : string)
  : M unit :=
  fun w => Some (tt, mkWorld (Some (mkError c summary message))
                             (allocs w) (destroyed w)).

(** Modelled from the spec: the allocation wrappers of dicom.c behind
    [DCM_NEW], [DCM_NEW_ARRAY], [DCM_MALLOC], [dcm_calloc] and [dcm_strdup];
    a failed allocation reports [NOMEM] and yields NULL ([false]). *)
Definition dcm_alloc : M bool :=
  fun w =>
    match allocs w with
    | false :: rest =>
        Some (false,
              mkWorld (Some (mkError DCM_ERROR_CODE_NOMEM
                                     "Out of memory" "Failed to allocate"))
                      rest (destroyed w))
    | true :: rest => Some (true, mkWorld (error w) rest (destroyed w))
    | [] => Some (true, w)
    end.

(** The destructors.  [dcm_element_destroy] destroys the owned sequence when
    [sequence_pointer] is set, [utarray_free] runs
    [destroy_sequence_item_icd] on every item, and [dcm_dataset_destroy]
    destroys every element; the objects are listed in the order in which
    they are released. *)
Fixpoint element_destroy_list (e : DcmElement) : list Destroyed :=
  match e with
  | mkElement _ _ _ _ _ v _ _ r =>
      (if r then
         match v with
         | single_sq s => sequence_destroy_list s
         | _ => []
         end
       else []) ++ [destroyed_element e]
  end
with sequence_destroy_list (s : DcmSequence) : list Destroyed :=
  match s with
  | mkSequence its _ =>
      (fix each (l : list DcmDataSet) : list Destroyed :=
         match l with
         | [] => []
         | d :: l' => dataset_destroy_list d ++ each l'
         end) its ++ [destroyed_sequence s]
  end
with dataset_destroy_list (d : DcmDataSet) : list Destroyed :=
  match d with
  | mkDataSet es _ =>
      (fix each (l : list DcmElement) : list Destroyed :=
         match l with
         | [] => []
         | e :: l' => element_destroy_list e ++ each l'
         end) es ++ [destroyed_dataset d]
  end.

Definition log_all (l : list Destroyed) : M unit :=
  fun w => Some (tt, mkWorld (error w) (allocs w) (destroyed w ++ l)).

Definition dcm_element_destroy (element : DcmElement) : M unit :=
  log_all (element_destroy_list element).

Definition dcm_sequence_destroy (seq : DcmSequence) : M unit :=
  log_all (sequence_destroy_list seq).

Definition dcm_dataset_destroy (dataset : DcmDataSet) : M unit :=
  log_all (dataset_destroy_list dataset).

Definition dcm_free_string_array (values : list string) : M unit :=
  log_all [freed_string_array values].

Definition strlen (s : string) : Z := Z.of_nat (String.length s).

(** ** Elements *)

Section Elements.

Context {dict : Dictionary} {fconv : FloatConversions}.

Definition element_set_length (element : DcmElement) (length_arg : Z)
  : DcmElement :=
  let length_arg := wrap32 length_arg in
  let even_length :=
    if negb (length_arg mod 2 =? 0) then wrap32 (length_arg + 1)
    else length_arg in
  if length element =? 0 then set_length element even_length else element.

(** [DCM_NEW] hands out zeroed memory: the new element has no length, no
    value and is not assigned. *)
Definition dcm_element_create (tag_arg length_arg : Z)
  : M (option DcmElement) :=
  ok <- dcm_alloc ;;
  if negb ok then ret None
  else
    let element :=
      mkElement tag_arg (dcm_dict_lookup_vr tag_arg)
                0 0 false value_zero false false false in
    let element := element_set_length element length_arg in
    if vr_eqb (vr element) DCM_VR_uk then
      dcm_element_destroy element ;;; ret None
    else ret (Some element).

Definition dcm_element_get_group_number (element : DcmElement) : Z :=
  wrap16 (Z.shiftr (tag element) 16).

Definition dcm_element_get_element_number (element : DcmElement) : Z :=
  wrap16 (tag element).

Definition dcm_element_get_tag (element : DcmElement) : Z := tag element.
Definition dcm_element_get_vr (element : DcmElement) : DcmVR := vr element.
Definition dcm_element_get_vm (element : DcmElement) : Z := vm element.
Definition dcm_element_is_multivalued (element : DcmElement) : bool :=
  1 <? vm element.
Definition dcm_element_get_length (element : DcmElement) : Z :=
  length element.

Definition element_check_index (element : DcmElement) (index : Z) : M bool :=
  if vm element <=? index then
    dcm_error_set DCM_ERROR_CODE_INVALID
      "Data Element index out of range"
      "Element tag %08X has VM of %d, index %d is out of range" ;;;
    ret false
  else ret true.

Definition is_string_class (klass : DcmVRClass) : bool :=
  class_eqb klass DCM_CLASS_STRING_MULTI
  || class_eqb klass DCM_CLASS_STRING_SINGLE.

Definition element_check_string (element : DcmElement) : M bool :=
  let klass := dcm_dict_vr_class (vr element) in
  if negb (is_string_class klass) then
    dcm_error_set DCM_ERROR_CODE_INVALID
      "Data Element is not string"
      "Element tag %08X has VR %s with no string value" ;;;
    ret false
  else ret true.

Definition element_check_assigned (element : DcmElement) : M bool :=
  if negb (assigned element) then
    dcm_error_set DCM_ERROR_CODE_INVALID
      "Data Element not assigned a value"
      "Element tag %08X has not been assigned a value" ;;;
    ret false
  else ret true.

Definition element_check_not_assigned (element : DcmElement) : M bool :=
  if assigned element then
    dcm_error_set DCM_ERROR_CODE_INVALID
      "Data Element assigned twice"
      "Element tag %08X has been previously assigned a value" ;;;
    ret false
  else ret true.

(** [a || b || c] over fallible checks: the first failing check ends the
    chain, as the C operators do. *)
Definition and_then (a b : M bool) : M bool :=
  ok <- a ;; if ok then b else ret false.

(** Reading a member of the union: the member last written is the one that
    can be read; any other read is outside the model. *)
Definition read_single_str (element : DcmElement) : M string :=
  match value element with
  | single_str s => ret s
  | _ => abort
  end.

Definition read_multi_str (element : DcmElement) (index : Z) : M string :=
  match value element with
  | multi_str ss =>
      match nth_error ss (Z.to_nat index) with
      | Some s => ret s
      | None => abort
      end
  | _ => abort
  end.

(** The C function returns [false] or stores the string into [*value]:
    the result is [None] or the string. *)
Definition dcm_element_get_value_string (element : DcmElement) (index : Z)
  : M (option string) :=
  ok <- and_then (element_check_assigned element)
          (and_then (element_check_string element)
                    (element_check_index element index)) ;;
  if negb ok then ret None
  else if vm element =? 1 then
    s <- read_single_str element ;; ret (Some s)
  else
    s <- read_multi_str element index ;; ret (Some s).

(** The loop of [element_check_capacity]: [n] iterations from index [i]. *)
Fixpoint check_capacity_loop (element : DcmElement) (capacity : Z)
         (n : nat) (i : Z) : M bool :=
  match n with
  | O => ret true
  | S n' =>
      r <- dcm_element_get_value_string element i ;;
      match r with
      | None => ret false
      | Some value_i =>
          if capacity <? strlen value_i then
            dcm_error_set DCM_ERROR_CODE_INVALID
              "Data Element capacity check failed"
              "Value of Data Element '%08X' exceeds maximum length of Value Representation" ;;;
            ret false
          else check_capacity_loop element capacity n' (i + 1)
      end
  end.

Definition element_check_capacity (element : DcmElement) (capacity : Z)
  : M (bool * DcmElement) :=
  let was_assigned := assigned element in
  let element := set_assigned element true in
  ok <- check_capacity_loop element capacity (Z.to_nat (vm element)) 0 ;;
  ret (ok, set_assigned element was_assigned).

Definition dcm_element_validate (element : DcmElement)
  : M (bool * DcmElement) :=
  let correct_vr := dcm_dict_lookup_vr (tag element) in
  let klass := dcm_dict_vr_class (vr element) in
  ok <- element_check_not_assigned element ;;
  if negb ok then ret (false, element)
  else if negb (vr_eqb (vr element) correct_vr)
          || class_eqb klass DCM_CLASS_ERROR then
    dcm_error_set DCM_ERROR_CODE_INVALID
      "Data Element validation failed"
      "Bad VR for tag %08X, should be %s" ;;;
    ret (false, element)
  else if class_eqb klass DCM_CLASS_NUMERIC
          && negb (length element
                   =? wrap64 (vm element * dcm_dict_vr_size (vr element)))
  then
    dcm_error_set DCM_ERROR_CODE_INVALID
      "Data Element validation failed"
      "Bad length for numeric tag %08X" ;;;
    ret (false, element)
  else
    r <- (if is_string_class klass then
            element_check_capacity element
              (wrap32 (dcm_dict_vr_capacity (vr element)))
          else ret (true, element)) ;;
    let '(ok, element) := r in
    if negb ok then ret (false, element)
    else ret (true, set_assigned element true).

(** Modelled from the spec: [dcm_parse_character_string] of dicom.c, which
    splits a value on the DICOM backslash separator into a list of owned
    strings (and reports their number through [vm]); NULL when the array
    cannot be allocated. *)
Fixpoint split_backslash (s : string) : list string :=
  match s with
  | EmptyString => [EmptyString]
  | String c rest =>
      if Ascii.eqb c "\"%char then EmptyString :: split_backslash rest
      else
        match split_backslash rest with
        | [] => [String c EmptyString]
        | first :: others => String c first :: others
        end
  end.

Definition dcm_parse_character_string (value_arg : string)
  : M (option (list string * Z)) :=
  ok <- dcm_alloc ;;
  if negb ok then ret None
  else
    let values := split_backslash value_arg in
    ret (Some (values, wrap32 (Z.of_nat (List.length values)))).

(** The summing loop of [dcm_element_set_value_string_multi]: [n]
    iterations from index [i], the sum kept in a [size_t]. *)
Fixpoint string_lengths_loop (values : list string) (n : nat) (i : Z)
         (length_acc : Z) : M Z :=
  match n with
  | O => ret length_acc
  | S n' =>
      match nth_error values (Z.to_nat i) with
      | Some v =>
          string_lengths_loop values n' (i + 1)
                              (size_t_add length_acc (strlen v))
      | None => abort
      end
  end.

Definition dcm_element_set_value_string_multi (element : DcmElement)
           (values : list string) (vm_arg : Z) (steal : bool)
  : M (bool * DcmElement) :=
  ok <- and_then (element_check_not_assigned element)
                 (element_check_string element) ;;
  if negb ok then ret (false, element)
  else
    r <- (if vm_arg =? 1 then
            match nth_error values 0 with
            | Some v0 =>
                ret (Some (set_vm (set_value element (single_str v0)) 1))
            | None => abort
            end
          else
            let klass := dcm_dict_vr_class (vr element) in
            if negb (class_eqb klass DCM_CLASS_STRING_MULTI) then
              dcm_error_set DCM_ERROR_CODE_INVALID
                "Data Element is not multi-valued string"
                "Element tag %08X has VR %s with only a string value" ;;;
              ret None
            else
              ret (Some (set_vm (set_value element (multi_str values))
                                vm_arg))) ;;
    match r with
    | None => ret (false, element)
    | Some element =>
        length_sum <- string_lengths_loop values (Z.to_nat vm_arg) 0 0 ;;
        let length_sum :=
          if 1 <? vm_arg then size_t_add length_sum (vm_arg - 1)
          else length_sum in
        let element := element_set_length element length_sum in
        v <- dcm_element_validate element ;;
        let '(ok, element) := v in
        if negb ok then ret (false, element)
        else if steal then ret (true, set_value_pointer_array element true)
        else ret (true, element)
    end.

Definition element_set_value_string (element : DcmElement)
           (value_arg : string) (steal : bool) : M (bool * DcmElement) :=
  ok <- and_then (element_check_not_assigned element)
                 (element_check_string element) ;;
  if negb ok then ret (false, element)
  else
    let klass := dcm_dict_vr_class (vr element) in
    r <- (if class_eqb klass DCM_CLASS_STRING_MULTI then
            p <- dcm_parse_character_string value_arg ;;
            match p with
            | None => ret (false, element)
            | Some (values, vm_parsed) =>
                s <- dcm_element_set_value_string_multi
                       element values vm_parsed true ;;
                let '(ok, element) := s in
                if negb ok then
                  dcm_free_string_array values ;;; ret (false, element)
                else ret (true, element)
            end
          else
            let element := set_vm (set_value element (single_str value_arg))
                                  1 in
            let element := element_set_length element (strlen value_arg) in
            dcm_element_validate element) ;;
    let '(ok, element) := r in
    if negb ok then ret (false, element)
    else if steal then ret (true, set_value_pointer element true)
    else ret (true, element).

Definition dcm_element_set_value_string (element : DcmElement)
           (value_arg : string) : M (bool * DcmElement) :=
  element_set_value_string element value_arg true.

Definition dcm_element_set_value_string_static (element : DcmElement)
           (value_arg : string) : M (bool * DcmElement) :=
  element_set_value_string element value_arg false.

(** Modelled from the spec: the macro [DCM_SWITCH_NUMERIC] of pdicom.h,
    which dispatches on the numeric VR to the C type of its scalar; with
    [POKE] the scalar slot receives the argument converted to that type
    ([{i16,i32,i64,u16,u32,u64} <- i64]), any other VR leaves it alone. *)
Definition int64_to_value (vr_arg : DcmVR) (result : DcmValue)
           (value_arg : Z) : DcmValue :=
  match vr_arg with
  | DCM_VR_FL => single_num (int64_to_float value_arg)
  | DCM_VR_FD => single_num (int64_to_double value_arg)
  | DCM_VR_SS => single_num (to_signed 16 value_arg)
  | DCM_VR_SL => single_num (to_signed 32 value_arg)
  | DCM_VR_SV => single_num (to_signed 64 value_arg)
  | DCM_VR_US => single_num (wrap16 value_arg)
  | DCM_VR_UL => single_num (wrap32 value_arg)
  | DCM_VR_UV => single_num (wrap64 value_arg)
  | _ => result
  end.

(** Modelled from the spec: [DCM_SWITCH_NUMERIC] with [POKE] on a [double]
    argument, reached for the VRs [FL] and [FD] only. *)
Definition double_to_value (vr_arg : DcmVR) (result : DcmValue)
           (value_arg : Z) : DcmValue :=
  match vr_arg with
  | DCM_VR_FL => single_num (double_to_float value_arg)
  | DCM_VR_FD => single_num value_arg
  | _ => result
  end.

Definition is_switch_numeric (vr_arg : DcmVR) : bool :=
  match vr_arg with
  | DCM_VR_FL | DCM_VR_FD | DCM_VR_SS | DCM_VR_SL | DCM_VR_SV
  | DCM_VR_US | DCM_VR_UL | DCM_VR_UV => true
  | _ => false
  end.

(** Modelled from the spec: [DCM_SWITCH_NUMERIC] with [COPY], which moves
    the leading scalar of the buffer into the slot. *)
Definition value_to_value (vr_arg : DcmVR) (result : DcmValue)
           (buffer : list Z) : M DcmValue :=
  if is_switch_numeric vr_arg then
    match buffer with
    | x :: _ => ret (single_num x)
    | [] => abort
    end
  else ret result.

Definition element_check_numeric (element : DcmElement) : M bool :=
  let klass := dcm_dict_vr_class (vr element) in
  if negb (class_eqb klass DCM_CLASS_NUMERIC) then
    dcm_error_set DCM_ERROR_CODE_INVALID
      "Data Element is not numeric"
      "Element tag %08X is not numeric" ;;;
    ret false
  else ret true.

Definition element_check_integer (element : DcmElement) : M bool :=
  if vr_eqb (vr element) DCM_VR_FL || vr_eqb (vr element) DCM_VR_FD then
    dcm_error_set DCM_ERROR_CODE_INVALID
      "Data Element is not integer"
      "Element tag %08X is not integer" ;;;
    ret false
  else ret true.

Definition dcm_element_set_value_integer (element : DcmElement)
           (value_arg : Z) : M (bool * DcmElement) :=
  ok <- and_then (element_check_not_assigned element)
          (and_then (element_check_numeric element)
                    (element_check_integer element)) ;;
  if negb ok then ret (false, element)
  else
    let element :=
      set_value element
                (int64_to_value (vr element) (value element) value_arg) in
    let element := set_vm element 1 in
    let element :=
      element_set_length element (dcm_dict_vr_size (vr element)) in
    dcm_element_validate element.

Definition dcm_element_set_value_numeric_multi (element : DcmElement)
           (value_arg : list Z) (vm_arg : Z) (steal : bool)
  : M (bool * DcmElement) :=
  ok <- and_then (element_check_not_assigned element)
                 (element_check_numeric element) ;;
  if negb ok then ret (false, element)
  else
    x <- (if vm_arg =? 1 then
            value_to_value (vr element) (value element) value_arg
          else ret (multi_num value_arg)) ;;
    let element := set_value element x in
    let element := set_vm element vm_arg in
    let element :=
      element_set_length element
        (wrap64 (vm_arg * dcm_dict_vr_size (vr element))) in
    v <- dcm_element_validate element ;;
    let '(ok, element) := v in
    if negb ok then ret (false, element)
    else if steal then ret (true, set_value_pointer element true)
    else ret (true, element).

Definition element_check_float (element : DcmElement) : M bool :=
  if negb (vr_eqb (vr element) DCM_VR_FL)
     && negb (vr_eqb (vr element) DCM_VR_FD) then
    dcm_error_set DCM_ERROR_CODE_INVALID
      "Data Element is not float"
      "Element tag %08X is not one of the float types" ;;;
    ret false
  else ret true.

Definition dcm_element_set_value_double (element : DcmElement)
           (value_arg : Z) : M (bool * DcmElement) :=
  ok <- and_then (element_check_not_assigned element)
          (and_then (element_check_numeric element)
                    (element_check_float element)) ;;
  if negb ok then ret (false, element)
  else
    let element :=
      set_value element
                (double_to_value (vr element) (value element) value_arg) in
    let element := set_vm element 1 in
    let element :=
      element_set_length element (dcm_dict_vr_size (vr element)) in
    dcm_element_validate element.

Definition element_check_binary (element : DcmElement) : M bool :=
  let klass := dcm_dict_vr_class (vr element) in
  if negb (class_eqb klass DCM_CLASS_BINARY) then
    dcm_error_set DCM_ERROR_CODE_INVALID
      "Data Element is not binary"
      "Element tag %08X does not have a binary value" ;;;
    ret false
  else ret true.

Definition dcm_element_set_value_binary (element : DcmElement)
           (value_arg : list Z) (length_arg : Z) (steal : bool)
  : M (bool * DcmElement) :=
  ok <- and_then (element_check_not_assigned element)
                 (element_check_binary element) ;;
  if negb ok then ret (false, element)
  else
    let element := set_vm element 1 in
    let element := set_value element (single_bytes value_arg) in
    let element := element_set_length element length_arg in
    v <- dcm_element_validate element ;;
    let '(ok, element) := v in
    if negb ok then ret (false, element)
    else if steal then ret (true, set_value_pointer element true)
    else ret (true, element).

Definition element_check_sequence (element : DcmElement) : M bool :=
  let klass := dcm_dict_vr_class (vr element) in
  if negb (class_eqb klass DCM_CLASS_SEQUENCE) then
    dcm_error_set DCM_ERROR_CODE_INVALID
      "Data Element is not seeuence"
      "Element tag %08X does not have a seeuence value" ;;;
    ret false
  else ret true.

End Elements.

(** ** Data sets *)

Definition tag_eqb (a b : Z) : bool := a =? b.

(** uthash: [HASH_FIND_INT] returns the element stored under the key, NULL
    when there is none; [HASH_ADD_INT] links the element after the last one;
    [HASH_DEL] unlinks it; [HASH_COUNT] is the number of elements. *)
Definition HASH_FIND_INT (els : list DcmElement) (key : Z)
  : option DcmElement :=
  find (fun e => tag_eqb (tag e) key) els.

Definition HASH_ADD_INT (els : list DcmElement) (e : DcmElement)
  : list DcmElement := els ++ [e].

Fixpoint HASH_DEL (els : list DcmElement) (key : Z) : list DcmElement :=
  match els with
  | [] => []
  | e :: rest => if tag_eqb (tag e) key then rest else e :: HASH_DEL rest key
  end.


Definition dcm_dataset_lock (dataset : DcmDataSet) : DcmDataSet :=
  mkDataSet (elements dataset) true.

Definition dcm_dataset_is_locked (dataset : DcmDataSet) : bool :=
  is_locked dataset.

Definition dcm_dataset_create : M (option DcmDataSet) :=
  ok <- dcm_alloc ;;
  if negb ok then ret None else ret (Some (mkDataSet [] false)).

Definition dcm_dataset_insert (dataset : DcmDataSet) (element : DcmElement)
  : M (bool * DcmDataSet) :=
  if is_locked dataset then
    dcm_error_set DCM_ERROR_CODE_INVALID
      "Data Set is locked and cannot be modified"
      "Inserting Data Element '%08X' into Data Set failed" ;;;
    dcm_element_destroy element ;;;
    ret (false, dataset)
  else
    match HASH_FIND_INT (elements dataset) (tag element) with
    | Some _ =>
        dcm_error_set DCM_ERROR_CODE_INVALID
          "Element already exists"
          "Inserting Data Element '%08X' into Data Set failed" ;;;
        dcm_element_destroy element ;;;
        ret (false, dataset)
    | None =>
        ret (true, mkDataSet (HASH_ADD_INT (elements dataset) element)
                             (is_locked dataset))
    end.

Definition dcm_dataset_contains (dataset : DcmDataSet) (tag_arg : Z)
  : option DcmElement :=
  HASH_FIND_INT (elements dataset) tag_arg.

Definition dcm_dataset_get (dataset : DcmDataSet) (tag_arg : Z)
  : M (option DcmElement) :=
  match dcm_dataset_contains dataset tag_arg with
  | None =>
      dcm_error_set DCM_ERROR_CODE_INVALID
        "Could not find Data Element"
        "Getting Data Element '%08X' from Data Set failed" ;;;
      ret None
  | Some element => ret (Some element)
  end.

Definition dcm_dataset_remove (dataset : DcmDataSet) (tag_arg : Z)
  : M (bool * DcmDataSet) :=
  if is_locked dataset then
    dcm_error_set DCM_ERROR_CODE_INVALID
      "Data Set is locked and cannot be modified"
      "Removing Data Element '%08X' from Data Set failed" ;;;
    ret (false, dataset)
  else
    matched_element <- dcm_dataset_get dataset tag_arg ;;
    match matched_element with
    | None => ret (false, dataset)
    | Some matched =>
        dcm_element_destroy matched ;;;
        ret (true, mkDataSet (HASH_DEL (elements dataset) tag_arg)
                             (is_locked dataset))
    end.


(** [compare_tags]: the difference is taken in [uint32_t] and returned as
    an [int]. *)
Definition compare_tags (a b : Z) : Z := to_signed 32 (wrap32 (a - b)).

(** libc's [qsort] on the first [n] cells of an array, as a sort by
    insertion that places a cell before the first one the comparison does
    not rank it above. *)
Fixpoint qsort_insert (cmp : Z -> Z -> Z) (x : Z) (l : list Z) : list Z :=
  match l with
  | [] => [x]
  | y :: l' =>
      if cmp x y <=? 0 then x :: y :: l' else y :: qsort_insert cmp x l'
  end.

Fixpoint qsort_all (cmp : Z -> Z -> Z) (l : list Z) : list Z :=
  match l with
  | [] => []
  | x :: l' => qsort_insert cmp x (qsort_all cmp l')
  end.

Definition qsort (base : list Z) (n : Z) (cmp : Z -> Z -> Z) : M (list Z) :=
  if Z.of_nat (List.length base) <? n then abort
  else ret (qsort_all cmp (firstn (Z.to_nat n) base)
            ++ skipn (Z.to_nat n) base).

(** Writing cell [i] of an array; a write past its end does not return. *)
Fixpoint array_store (a : list Z) (i : nat) (x : Z) : option (list Z) :=
  match a, i with
  | [], _ => None
  | _ :: a', O => Some (x :: a')
  | y :: a', S i' =>
      match array_store a' i' x with
      | Some r => Some (y :: r)
      | None => None
      end
  end.

(** The loop of [dcm_dataset_copy_tags], from the element list [els] and
    index [i]. *)
Fixpoint copy_tags_loop (els : list DcmElement) (tags : list Z) (i n : Z)
  : M (list Z) :=
  match els with
  | [] => ret tags
  | element :: next =>
      if i <? n then
        match array_store tags (Z.to_nat i) (tag element) with
        | Some tags' => copy_tags_loop next tags' (i + 1) n
        | None => abort
        end
      else ret tags
  end.

Definition dcm_dataset_copy_tags (dataset : DcmDataSet) (tags : list Z)
           (n : Z) : M (list Z) :=
  tags <- copy_tags_loop (elements dataset) tags 0 n ;;
  qsort tags n compare_tags.

(** ** Sequences *)

(** [struct SequenceItem]: the handle of one data set. *)
Record SequenceItem : Type := mkSequenceItem { dataset : DcmDataSet }.

Definition create_sequence_item (dataset_arg : DcmDataSet)
  : M (option SequenceItem) :=
  ok <- dcm_alloc ;;
  if negb ok then ret None
  else ret (Some (mkSequenceItem (dcm_dataset_lock dataset_arg))).

(** [copy_sequence_item_icd] reads its source handle: a NULL source is a
    read through a null pointer. *)
Definition copy_sequence_item_icd (src_item : option SequenceItem)
  : M SequenceItem :=
  match src_item with
  | None => abort
  | Some src => ret (mkSequenceItem (dcm_dataset_lock (dataset src)))
  end.

(** utarray with [sequence_item_icd]: [utarray_push_back] makes room for one
    more cell and fills it with the copy function of the icd;
    [utarray_len] is the number of cells; [utarray_erase] of one cell runs
    the destructor of the icd on it and closes the gap. *)
Definition utarray_push_back (cells : list DcmDataSet)
           (p : option SequenceItem) : M (list DcmDataSet) :=
  dst <- copy_sequence_item_icd p ;;
  ret (cells ++ [dataset dst]).

Definition utarray_len (cells : list DcmDataSet) : Z :=
  wrap32 (Z.of_nat (List.length cells)).

Fixpoint list_update {A} (l : list A) (i : nat) (x : A) : list A :=
  match l, i with
  | [], _ => []
  | _ :: l', O => x :: l'
  | y :: l', S i' => y :: list_update l' i' x
  end.

Fixpoint list_erase {A} (l : list A) (i : nat) : list A :=
  match l, i with
  | [], _ => []
  | _ :: l', O => l'
  | y :: l', S i' => y :: list_erase l' i'
  end.

(** An allocation that reports nothing by itself ([malloc]). *)
Definition raw_alloc : M bool :=
  fun w =>
    match allocs w with
    | b :: rest => Some (b, mkWorld (error w) rest (destroyed w))
    | [] => Some (true, w)
    end.

Definition dcm_sequence_create : M (option DcmSequence) :=
  ok <- dcm_alloc ;;
  if negb ok then ret None
  else
    got_items <- raw_alloc ;;
    if negb got_items then
      dcm_error_set DCM_ERROR_CODE_NOMEM
        "Out of memory" "Creation of Sequence failed" ;;;
      ret None
    else ret (Some (mkSequence [] false)).

Definition dcm_sequence_append (seq : DcmSequence) (item : DcmDataSet)
  : M (bool * DcmSequence) :=
  if seq_is_locked seq then
    dcm_error_set DCM_ERROR_CODE_INVALID
      "Appending item to Sequence failed"
      "Sequence is locked and cannot be modified." ;;;
    dcm_dataset_destroy item ;;;
    ret (false, seq)
  else
    item_handle <- create_sequence_item item ;;
    cells <- utarray_push_back (items seq) item_handle ;;
    ret (true, mkSequence cells (seq_is_locked seq)).

(** The C function returns the item or NULL; the item is a cell of the
    sequence, so the sequence is returned as the call leaves it. *)
Definition dcm_sequence_get (seq : DcmSequence) (index : Z)
  : M (option DcmDataSet * DcmSequence) :=
  let length_ := utarray_len (items seq) in
  if length_ <=? index then
    dcm_error_set DCM_ERROR_CODE_INVALID
      "Getting item of Sequence failed"
      "Index %i exceeds length of sequence %i" ;;;
    ret (None, seq)
  else
    match nth_error (items seq) (Z.to_nat index) with
    | None =>
        dcm_error_set DCM_ERROR_CODE_INVALID
          "Getting item of Sequence failed"
          "Getting item #%i of Sequence failed" ;;;
        ret (None, seq)
    | Some item =>
        let item := dcm_dataset_lock item in
        ret (Some item,
             mkSequence (list_update (items seq) (Z.to_nat index) item)
                        (seq_is_locked seq))
    end.

Definition dcm_sequence_remove (seq : DcmSequence) (index : Z)
  : M DcmSequence :=
  if seq_is_locked seq then
    dcm_error_set DCM_ERROR_CODE_INVALID
      "Removing item from Sequence failed"
      "Sequence is locked and cannot be modified." ;;;
    ret seq
  else
    let length_ := utarray_len (items seq) in
    if length_ <=? index then
      dcm_error_set DCM_ERROR_CODE_INVALID
        "Removing item from Sequence failed"
        "Index %i exceeds length of sequence %i" ;;;
      ret seq
    else
      match nth_error (items seq) (Z.to_nat index) with
      | Some item =>
          dcm_dataset_destroy item ;;;
          ret (mkSequence (list_erase (items seq) (Z.to_nat index))
                          (seq_is_locked seq))
      | None => abort
      end.

Definition dcm_sequence_count (seq : DcmSequence) : Z :=
  utarray_len (items seq).

Definition dcm_sequence_lock (seq : DcmSequence) : DcmSequence :=
  mkSequence (items seq) true.

Definition dcm_sequence_is_locked (seq : DcmSequence) : bool :=
  seq_is_locked seq.

(** ** Sequence-valued elements and cloning *)

Section SequenceElements.

Context {dict : Dictionary} {fconv : FloatConversions}.

(** The C function returns [false] or stores the sequence into [*value];
    the sequence is the one the element holds, so the element is returned
    as the call leaves it. *)
Definition dcm_element_get_value_sequence (element : DcmElement)
  : M (option DcmSequence * DcmElement) :=
  ok <- and_then (element_check_assigned element)
                 (element_check_sequence element) ;;
  if negb ok then ret (None, element)
  else
    match value element with
    | single_sq sq =>
        let sq := dcm_sequence_lock sq in
        ret (Some sq, set_value element (single_sq sq))
    | _ => abort
    end.

(** The inner loop of [dcm_element_set_value_sequence] over the elements of
    an item, the sum kept in a [uint32_t]. *)
Fixpoint item_length_loop (els : list DcmElement) (length_acc : Z) : Z :=
  match els with
  | [] => length_acc
  | element :: next =>
      item_length_loop next (wrap32 (length_acc + length element))
  end.

(** Its outer loop: [n] iterations from index [i]. *)
Fixpoint sequence_length_loop (value_arg : DcmSequence) (n : nat) (i : Z)
         (length_acc : Z) : M (option Z * DcmSequence) :=
  match n with
  | O => ret (Some length_acc, value_arg)
  | S n' =>
      g <- dcm_sequence_get value_arg i ;;
      let '(item, value_arg) := g in
      match item with
      | None => ret (None, value_arg)
      | Some item =>
          sequence_length_loop value_arg n' (i + 1)
                               (item_length_loop (elements item) length_acc)
      end
  end.

(** A NULL sequence is read through ([dcm_sequence_count]). *)
Definition dcm_element_set_value_sequence (element : DcmElement)
           (value_arg : option DcmSequence)
  : M (bool * DcmElement * option DcmSequence) :=
  ok <- and_then (element_check_not_assigned element)
                 (element_check_sequence element) ;;
  if negb ok then ret (false, element, value_arg)
  else
    match value_arg with
    | None => abort
    | Some value_seq =>
        let seq_count := dcm_sequence_count value_seq in
        r <- sequence_length_loop value_seq (Z.to_nat seq_count) 0 0 ;;
        let '(length_sum, value_seq) := r in
        match length_sum with
        | None => ret (false, element, Some value_seq)
        | Some length_sum =>
            let element := element_set_length element length_sum in
            let element := set_value element (single_sq value_seq) in
            let element := set_vm element 1 in
            v <- dcm_element_validate element ;;
            let '(ok, element) := v in
            if negb ok then ret (false, element, Some value_seq)
            else ret (true, set_sequence_pointer element true,
                      Some value_seq)
        end
    end.

Definition dcm_sequence_destroy_ptr (seq : option DcmSequence) : M unit :=
  match seq with
  | Some s => dcm_sequence_destroy s
  | None => ret tt
  end.

(** *** Cloning

    [dcm_element_clone] and [dcm_dataset_clone] call each other down the
    tree.  Each body is written over the function it calls; the two are
    tied together below. *)

Section CloneBodies.

Variable element_clone : DcmElement -> M (option DcmElement * DcmElement).

(** The loop of [dcm_dataset_clone] over the elements of the source; the
    source elements are returned as the calls leave them. *)
Fixpoint dataset_clone_loop (els : list DcmElement)
         (cloned_dataset : DcmDataSet)
  : M (option DcmDataSet * list DcmElement) :=
  match els with
  | [] => ret (Some cloned_dataset, [])
  | element :: next =>
      r <- element_clone element ;;
      let '(cloned_element, element) := r in
      match cloned_element with
      | None =>
          dcm_dataset_destroy cloned_dataset ;;; ret (None, element :: next)
      | Some cloned_element =>
          i <- dcm_dataset_insert cloned_dataset cloned_element ;;
          let '(ok, cloned_dataset) := i in
          if negb ok then
            dcm_dataset_destroy cloned_dataset ;;;
            ret (None, element :: next)
          else
            r <- dataset_clone_loop next cloned_dataset ;;
            let '(result, next) := r in
            ret (result, element :: next)
      end
  end.

Definition dataset_clone_body (dataset_arg : DcmDataSet)
  : M (option DcmDataSet * DcmDataSet) :=
  c <- dcm_dataset_create ;;
  match c with
  | None => ret (None, dataset_arg)
  | Some cloned_dataset =>
      r <- dataset_clone_loop (elements dataset_arg) cloned_dataset ;;
      let '(result, els) := r in
      ret (result, mkDataSet els (is_locked dataset_arg))
  end.

End CloneBodies.

Section ElementCloneBody.

Variable dataset_clone : DcmDataSet -> M (option DcmDataSet * DcmDataSet).

(** The loop of the [DCM_CLASS_SEQUENCE] case: [n] iterations from index
    [i].  [seq] is the result of [dcm_sequence_create], which the function
    does not test; [dcm_sequence_append] asserts it.  The result is [false]
    where the C loop returns NULL (the caller then destroys the clone). *)
Fixpoint clone_items_loop (n : nat) (i : Z) (from_seq : DcmSequence)
         (seq : option DcmSequence)
  : M (bool * DcmSequence * option DcmSequence) :=
  match n with
  | O => ret (true, from_seq, seq)
  | S n' =>
      g <- dcm_sequence_get from_seq i ;;
      let '(item, from_seq) := g in
      match item with
      | None =>
          dcm_sequence_destroy_ptr seq ;;; ret (false, from_seq, seq)
      | Some item =>
          c <- dataset_clone item ;;
          let '(cloned_item, item) := c in
          let from_seq :=
            mkSequence (list_update (items from_seq) (Z.to_nat i) item)
                       (seq_is_locked from_seq) in
          match cloned_item with
          | None =>
              dcm_sequence_destroy_ptr seq ;;; ret (false, from_seq, seq)
          | Some cloned_item =>
              match seq with
              | None => abort
              | Some s =>
                  a <- dcm_sequence_append s cloned_item ;;
                  clone_items_loop n' (i + 1) from_seq (Some (snd a))
              end
          end
      end
  end.

(** [dcm_strdup] of every string of a multi-valued element, in order; the
    strings copied so far are returned with the outcome. *)
Fixpoint strdup_loop (ss : list string) (n : nat) (i : Z)
         (copied : list string) : M (bool * list string) :=
  match n with
  | O => ret (true, copied)
  | S n' =>
      match nth_error ss (Z.to_nat i) with
      | None => abort
      | Some s =>
          ok <- dcm_alloc ;;
          if negb ok then ret (false, copied)
          else strdup_loop ss n' (i + 1) (copied ++ [s])
      end
  end.

(** The statements of one [case] of the [switch]: the clone as the case
    leaves it, or [None] where the case returns NULL; next to it the source
    element as the case leaves it. *)
Definition clone_case_sequence (element clone : DcmElement)
  : M (option DcmElement * DcmElement) :=
  g <- dcm_element_get_value_sequence element ;;
  let '(from_seq, element) := g in
  match from_seq with
  | None => dcm_element_destroy clone ;;; ret (None, element)
  | Some from_seq =>
      let count := dcm_sequence_count from_seq in
      seq <- dcm_sequence_create ;;
      l <- clone_items_loop (Z.to_nat count) 0 from_seq seq ;;
      let '(ok, from_seq, seq) := l in
      let element := set_value element (single_sq from_seq) in
      if negb ok then dcm_element_destroy clone ;;; ret (None, element)
      else
        s <- dcm_element_set_value_sequence clone seq ;;
        let '(ok, clone, seq) := s in
        if negb ok then
          dcm_sequence_destroy_ptr seq ;;;
          dcm_element_destroy clone ;;;
          ret (None, element)
        else ret (Some clone, element)
  end.

Definition clone_case_string (element clone : DcmElement)
  : M (option DcmElement) :=
  match value element with
  | single_str s =>
      if vm element =? 1 then
        ok <- dcm_alloc ;;
        if negb ok then dcm_element_destroy clone ;;; ret None
        else
          ret (Some (set_vm (set_value_pointer
                               (set_value clone (single_str s)) true) 1))
      else if 1 <? vm element then abort
      else ret (Some clone)
  | multi_str ss =>
      if 1 <? vm element then
        ok <- dcm_alloc ;;
        if negb ok then dcm_element_destroy clone ;;; ret None
        else
          r <- strdup_loop ss (Z.to_nat (vm element)) 0 [] ;;
          let '(ok, copied) := r in
          let clone :=
            set_value_pointer_array (set_value clone (multi_str copied))
                                    true in
          if negb ok then dcm_element_destroy clone ;;; ret None
          else ret (Some (set_vm clone (vm element)))
      else if vm element =? 1 then abort
      else ret (Some clone)
  | value_zero => ret (Some clone)
  | _ => if (vm element =? 1) || (1 <? vm element) then abort
         else ret (Some clone)
  end.

Definition clone_case_binary (element clone : DcmElement)
  : M (option DcmElement) :=
  match value element with
  | single_bytes b =>
      ok <- dcm_alloc ;;
      if negb ok then dcm_element_destroy clone ;;; ret None
      else if Z.of_nat (List.length b) <? length element then abort
      else
        ret (Some (set_vm (set_value_pointer
                     (set_value clone
                        (single_bytes (firstn (Z.to_nat (length element)) b)))
                     true) 1))
  | value_zero => ret (Some clone)
  | _ => abort
  end.

Definition clone_case_numeric (element clone : DcmElement)
  : M (option DcmElement) :=
  if vm element =? 1 then
    ret (Some (set_vm (set_value clone (value element)) 1))
  else
    ok <- dcm_alloc ;;
    if negb ok then dcm_element_destroy clone ;;; ret None
    else
      match value element with
      | multi_num xs =>
          if Z.of_nat (List.length xs) <? vm element then abort
          else
            ret (Some (set_vm (set_value_pointer
                         (set_value clone
                            (multi_num (firstn (Z.to_nat (vm element)) xs)))
                         true) (vm element)))
      | _ =>
          if vm element =? 0 then
            ret (Some (set_vm (set_value_pointer
                         (set_value clone (multi_num [])) true) 0))
          else abort
      end.

Definition element_clone_body (element : DcmElement)
  : M (option DcmElement * DcmElement) :=
  c <- dcm_element_create (tag element) (length element) ;;
  match c with
  | None => ret (None, element)
  | Some clone =>
      let klass := dcm_dict_vr_class (vr element) in
      r <- match klass with
           | DCM_CLASS_SEQUENCE => clone_case_sequence element clone
           | DCM_CLASS_STRING_MULTI
           | DCM_CLASS_STRING_SINGLE =>
               x <- clone_case_string element clone ;; ret (x, element)
           | DCM_CLASS_BINARY =>
               x <- clone_case_binary element clone ;; ret (x, element)
           | DCM_CLASS_NUMERIC =>
               x <- clone_case_numeric element clone ;; ret (x, element)
           | DCM_CLASS_ERROR => ret (Some clone, element)
           end ;;
      let '(clone, element) := r in
      match clone with
      | None => ret (None, element)
      | Some clone =>
          v <- dcm_element_validate clone ;;
          let '(ok, clone) := v in
          if negb ok then dcm_element_destroy clone ;;; ret (None, element)
          else ret (Some clone, element)
      end
  end.

End ElementCloneBody.

(** The recursion goes one level of nesting down at each call of
    [dcm_dataset_clone]; [fuel] bounds the levels, and a run that would go
    deeper does not return. *)
Fixpoint element_clone_fuel (fuel : nat) (element : DcmElement)
  : M (option DcmElement * DcmElement) :=
  match fuel with
  | O => abort
  | S fuel' =>
      element_clone_body (dataset_clone_body (element_clone_fuel fuel'))
                         element
  end.

End SequenceElements.

(** The number of nested sequence levels below an element. *)
Fixpoint element_depth (e : DcmElement) : nat :=
  match e with
  | mkElement _ _ _ _ _ v _ _ _ =>
      match v with
      | single_sq (mkSequence its _) =>
          S ((fix over_items (l : list DcmDataSet) : nat :=
                match l with
                | [] => O
                | mkDataSet es _ :: l' =>
                    Nat.max
                      ((fix over_elements (k : list DcmElement) : nat :=
                          match k with
                          | [] => O
                          | e' :: k' =>
                              Nat.max (element_depth e') (over_elements k')
                          end) es)
                      (over_items l')
                end) its)
      | _ => O
      end
  end.

Definition elements_depth (es : list DcmElement) : nat :=
  fold_right (fun e n => Nat.max (element_depth e) n) O es.

Definition dataset_depth (d : DcmDataSet) : nat :=
  elements_depth (elements d).

(** The deepest nesting among the items of a sequence. *)
Definition items_depth (its : list DcmDataSet) : nat :=
  fold_right (fun d n => Nat.max (dataset_depth d) n) O its.

Section Clone.

Context {dict : Dictionary} {fconv : FloatConversions}.

(** One level more than the element has is fuel enough
    ([element_clone_fuel_enough] below). *)
Definition dcm_element_clone (element : DcmElement)
  : M (option DcmElement * DcmElement) :=
  element_clone_fuel (S (element_depth element)) element.

Definition dcm_dataset_clone (dataset_arg : DcmDataSet)
  : M (option DcmDataSet * DcmDataSet) :=
  dataset_clone_body (element_clone_fuel (S (dataset_depth dataset_arg)))
                     dataset_arg.

End Clone.

(** ** Basic Offset Table *)

(** [offsets] is [None] for a NULL pointer; freeing the array leaves no
    trace in the model. *)
Definition dcm_bot_create (offsets_arg : option (list Z))
           (num_frames_arg first_frame_offset_arg : Z) : M (option DcmBOT) :=
  if num_frames_arg =? 0 then
    dcm_error_set DCM_ERROR_CODE_INVALID
      "Constructing Basic Offset Table failed"
      "Expected offsets of %ld Frame Items" ;;;
    ret None
  else
    match offsets_arg with
    | None =>
        dcm_error_set DCM_ERROR_CODE_INVALID
          "Constructing Basic Offset Table failed"
          "No offsets were provided" ;;;
        ret None
    | Some offs =>
        ok <- dcm_alloc ;;
        if negb ok then ret None
        else ret (Some (mkBOT num_frames_arg offs first_frame_offset_arg))
    end.

Definition dcm_bot_get_num_frames (bot : DcmBOT) : Z := num_frames bot.

(** [None]: the assertion fails, or the read is past the array. *)
Definition dcm_bot_get_frame_offset (bot : DcmBOT) (number : Z) : option Z :=
  if (0 <? number) && (number <? wrap32 (num_frames bot + 1)) then
    let index := wrap32 (number - 1) in
    match nth_error (offsets bot) (Z.to_nat index) with
    | Some off => Some (ssize_t_add off (first_frame_offset bot))
    | None => None
    end
  else None.

(** ** A dictionary for the scenarios

    The entries of the DICOM data dictionary that the scenarios of the
    specification name, with the class, scalar size and capacity of every
    VR as Part 5 of the standard gives them. *)
Definition scenario_lookup_vr (t : Z) : DcmVR :=
  if t =? 0x00100010 then DCM_VR_PN
  else if t =? 0x00280010 then DCM_VR_US
  else if t =? 0x00280030 then DCM_VR_DS
  else if t =? 0x00082218 then DCM_VR_SQ
  else if t =? 0x00080018 then DCM_VR_UI
  else if t =? 0x00104000 then DCM_VR_LT
  else if t =? 0x7FE00010 then DCM_VR_OW
  else if t =? 0xFFFCFFFC then DCM_VR_OB
  else DCM_VR_uk.

Definition scenario_vr_class (v : DcmVR) : DcmVRClass :=
  match v with
  | DCM_VR_AE | DCM_VR_AS | DCM_VR_CS | DCM_VR_DA | DCM_VR_DS | DCM_VR_DT
  | DCM_VR_IS | DCM_VR_LO | DCM_VR_PN | DCM_VR_SH | DCM_VR_TM | DCM_VR_UI
  | DCM_VR_UC => DCM_CLASS_STRING_MULTI
  | DCM_VR_LT | DCM_VR_ST | DCM_VR_UT | DCM_VR_UR => DCM_CLASS_STRING_SINGLE
  | DCM_VR_AT | DCM_VR_FL | DCM_VR_FD | DCM_VR_SL | DCM_VR_SS | DCM_VR_UL
  | DCM_VR_US | DCM_VR_SV | DCM_VR_UV => DCM_CLASS_NUMERIC
  | DCM_VR_OB | DCM_VR_OD | DCM_VR_OF | DCM_VR_OW | DCM_VR_UN | DCM_VR_OL
  | DCM_VR_OV => DCM_CLASS_BINARY
  | DCM_VR_SQ => DCM_CLASS_SEQUENCE
  | DCM_VR_uk => DCM_CLASS_ERROR
  end.

Definition scenario_vr_size (v : DcmVR) : Z :=
  match v with
  | DCM_VR_SS | DCM_VR_US => 2
  | DCM_VR_AT | DCM_VR_FL | DCM_VR_SL | DCM_VR_UL => 4
  | DCM_VR_FD | DCM_VR_SV | DCM_VR_UV => 8
  | _ => 0
  end.

Definition scenario_vr_capacity (v : DcmVR) : Z :=
  match v with
  | DCM_VR_AE | DCM_VR_CS | DCM_VR_DS | DCM_VR_SH => 16
  | DCM_VR_AS => 4
  | DCM_VR_DA => 8
  | DCM_VR_DT => 26
  | DCM_VR_IS => 12
  | DCM_VR_LO | DCM_VR_PN | DCM_VR_UI => 64
  | DCM_VR_TM => 14
  | DCM_VR_ST => 1024
  | DCM_VR_LT => 10240
  | DCM_VR_UT | DCM_VR_UR | DCM_VR_UC => 4294967294
  | _ => 0
  end.

Definition scenario_dict : Dictionary :=
  Build_Dictionary scenario_lookup_vr scenario_vr_class scenario_vr_size
                   scenario_vr_capacity.

(** Floating-point scalars stay abstract: the scenarios move bit patterns
    around unchanged. *)
Definition scenario_fconv : FloatConversions :=
  Build_FloatConversions (fun x => x) (fun x => x) (fun x => x).

Definition world0 : World := mkWorld None [] [].

(** ** The value setters as one family *)

Inductive Setter : Type :=
  | set_string (value_arg : string)
  | set_string_static (value_arg : string)
  | set_string_multi (values : list string) (vm_arg : Z) (steal : bool)
  | set_integer (value_arg : Z)
  | set_numeric_multi (buffer : list Z) (vm_arg : Z) (steal : bool)
  | set_double (value_arg : Z)
  | set_binary (bytes : list Z) (length_arg : Z) (steal : bool)
  | set_sequence (seq : option DcmSequence).

Section Setters.

Context {dict : Dictionary} {fconv : FloatConversions}.

Definition run_setter (s : Setter) (element : DcmElement)
  : M (bool * DcmElement) :=
  match s with
  | set_string v => dcm_element_set_value_string element v
  | set_string_static v => dcm_element_set_value_string_static element v
  | set_string_multi vs m st =>
      dcm_element_set_value_string_multi element vs m st
  | set_integer v => dcm_element_set_value_integer element v
  | set_numeric_multi b m st =>
      dcm_element_set_value_numeric_multi element b m st
  | set_double v => dcm_element_set_value_double element v
  | set_binary b l st => dcm_element_set_value_binary element b l st
  | set_sequence sq =>
      r <- dcm_element_set_value_sequence element sq ;;
      ret (fst (fst r), snd (fst r))
  end.

(** A life of an element after its creation: setter calls one after the
    other, with the result of each. *)
Fixpoint run_setters (l : list Setter) (element : DcmElement)
  : M (list bool * DcmElement) :=
  match l with
  | [] => ret ([], element)
  | s :: l' =>
      r <- run_setter s element ;;
      let '(ok, element) := r in
      r' <- run_setters l' element ;;
      ret (ok :: fst r', snd r')
  end.

End Setters.

(** ** Objects of the scenarios *)

Definition fresh_element (t : Z) (v : DcmVR) (l : Z) : DcmElement :=
  mkElement t v l 0 false value_zero false false false.

(** Patient's Name, assigned. *)
Definition patient_name : DcmElement :=
  mkElement 0x00100010 DCM_VR_PN 20 2 true
            (multi_str ["Doe^John"; "Smith^Jane"]) true true false.

(** SOP Instance UID, assigned. *)
Definition sop_instance_uid : DcmElement :=
  mkElement 0x00080018 DCM_VR_UI 4 1 true (single_str "1.23") true true false.

(** Data Set Trailing Padding, assigned. *)
Definition trailing_padding : DcmElement :=
  mkElement 0xFFFCFFFC DCM_VR_OB 2 1 true (single_bytes [0; 0]) true false
            false.

Definition one_name : DcmDataSet := mkDataSet [patient_name] false.

Definition two_items : DcmSequence :=
  mkSequence [mkDataSet [] false; one_name] false.

(** Anatomic Region Sequence, assigned, holding [two_items]. *)
Definition anatomic_region : DcmElement :=
  mkElement 0x00082218 DCM_VR_SQ 20 1 true (single_sq two_items) false false
            true.

(** A world in which the next allocation fails. *)
Definition world_nomem : World := mkWorld None [false] [].

(** ** Vocabulary of the statements *)

(** The caller's error slot holds an INVALID error. *)
Definition invalid_error (w : World) : Prop :=
  exists summary message,
    error w = Some (mkError DCM_ERROR_CODE_INVALID summary message).

(** From [w] to [w'] an INVALID error has been reported and nothing else
    has happened. *)
Definition world_reports_invalid (w w' : World) : Prop :=
  invalid_error w' /\ allocs w' = allocs w /\ destroyed w' = destroyed w.

(** [m] is the check of the condition [c]: it returns [true] and leaves
    the world alone when [c] holds, returns [false] and reports INVALID
    otherwise. *)
Definition check_is (m : M bool) (c : bool) : Prop :=
  forall w,
    if c then m w = Some (true, w)
    else exists w', m w = Some (false, w') /\ world_reports_invalid w w'.

(** A length made even the way [element_set_length] does it, in
    [uint32_t]. *)
Definition even_length32 (l : Z) : Z :=
  if Z.even (wrap32 l) then wrap32 l else wrap32 (wrap32 l + 1).

(** The bytes of the values, and with the separators between them. *)
Definition sum_strlen (values : list string) : Z :=
  fold_right (fun v acc => strlen v + acc) 0 values.

Definition encoded_length (values : list string) : Z :=
  sum_strlen values + (Z.of_nat (List.length values) - 1).

(** The value a multi-valued string setter stores for [values]. *)
Definition string_value (values : list string) : DcmValue :=
  match values with
  | [v] => single_str v
  | _ => multi_str values
  end.

(** The string an element holds at an index, as the getter reads it. *)
Definition stored_string (e : DcmElement) (index : nat) : option string :=
  if vm e =? 1 then
    match value e with
    | single_str s => Some s
    | _ => None
    end
  else
    match value e with
    | multi_str ss => nth_error ss index
    | _ => None
    end.

(** A tag of the lower half of the tag space. *)
Definition low_tag (t : Z) : Prop := 0 <= t < 2 ^ 31.

Section Vocabulary.

Context {dict : Dictionary}.

(** [e1] is [e] with only [length], [vm], [value] or the ownership flags
    rewritten, the length staying even if it was. *)
Definition same_identity (e e1 : DcmElement) : Prop :=
  tag e1 = tag e /\ vr e1 = vr e /\ assigned e1 = assigned e /\
  (Z.even (length e) = true -> Z.even (length e1) = true).

(** What one setter call does to the identity of an element. *)
Definition step_post (e : DcmElement) (ok : bool) (e' : DcmElement) : Prop :=
  tag e' = tag e /\ vr e' = vr e /\
  (Z.even (length e) = true -> Z.even (length e') = true) /\
  (ok = true ->
   assigned e = false /\ assigned e' = true /\
   vr e' = dcm_dict_lookup_vr (tag e') /\
   dcm_dict_vr_class (vr e') <> DCM_CLASS_ERROR) /\
  (ok = false -> assigned e' = assigned e).

(** A setter refuses an assigned element before it touches it, and any of
    its runs acts on the identity of the element as [step_post] says. *)
Definition setter_ok (f : DcmElement -> M (bool * DcmElement)) : Prop :=
  forall e w,
    (assigned e = true ->
     exists w', f e w = Some ((false, e), w') /\
                world_reports_invalid w w') /\
    (forall ok e' w', f e w = Some ((ok, e'), w') -> step_post e ok e').

End Vocabulary.

(** ** The value getters of the numeric and binary elements *)

(** The conversions of the C compiler that the getters apply to a
    floating-point scalar or to an unsigned 64-bit one. *)
Class FloatReads : Type := {
  float_to_double : Z -> Z;
  float_to_uint64 : Z -> Z;
  double_to_uint64 : Z -> Z;
  uint64_to_double : Z -> Z
}.

(** The scenarios move bit patterns around unchanged. *)
Definition scenario_freads : FloatReads :=
  Build_FloatReads (fun x => x) (fun x => x) (fun x => x) (fun x => x).

(** The dictionary of the scenarios, with Diffusion b-value ([FD])
    added. *)
Definition scenario_dict_fd : Dictionary :=
  Build_Dictionary
    (fun t => if t =? 0x00189087 then DCM_VR_FD else scenario_lookup_vr t)
    scenario_vr_class scenario_vr_size scenario_vr_capacity.

Section NumericGetters.

Context {dict : Dictionary} {fconv : FloatConversions} {freads : FloatReads}.

(** Reading the scalar slot of the union, or a cell of the array it points
    to; zeroed memory reads as 0, and a read of another member or past the
    array is outside the model. *)
Definition read_single_num (element : DcmElement) : M Z :=
  match value element with
  | single_num x => ret x
  | value_zero => ret 0
  | _ => abort
  end.

Definition read_multi_num (element : DcmElement) (index : Z) : M Z :=
  match value element with
  | multi_num xs =>
      match nth_error xs (Z.to_nat index) with
      | Some x => ret x
      | None => abort
      end
  | _ => abort
  end.

(** Modelled from the spec: [DCM_SWITCH_NUMERIC] with [PEEK] into a
    [uint64_t] that is returned as an [int64_t]; for a VR outside the switch
    the result is never written, and reading it is outside the model. *)
Definition value_to_int64 (vr_arg : DcmVR) (x : Z) : M Z :=
  match vr_arg with
  | DCM_VR_FL => ret (to_signed 64 (float_to_uint64 x))
  | DCM_VR_FD => ret (to_signed 64 (double_to_uint64 x))
  | DCM_VR_SS | DCM_VR_SL | DCM_VR_SV
  | DCM_VR_US | DCM_VR_UL | DCM_VR_UV => ret (to_signed 64 x)
  | _ => abort
  end.

(** Modelled from the spec: [DCM_SWITCH_NUMERIC] with [PEEK] into a
    [double]. *)
Definition value_to_double (vr_arg : DcmVR) (x : Z) : M Z :=
  match vr_arg with
  | DCM_VR_FL => ret (float_to_double x)
  | DCM_VR_FD => ret x
  | DCM_VR_SS | DCM_VR_SL | DCM_VR_SV
  | DCM_VR_US | DCM_VR_UL => ret (int64_to_double x)
  | DCM_VR_UV => ret (uint64_to_double x)
  | _ => abort
  end.

(** The C function returns [false] or stores the number into [*value]: the
    result is [None] or the number. *)
Definition dcm_element_get_value_integer (element : DcmElement) (index : Z)
  : M (option Z) :=
  ok <- and_then (element_check_assigned element)
          (and_then (element_check_numeric element)
             (and_then (element_check_integer element)
                       (element_check_index element index))) ;;
  if negb ok then ret None
  else
    x <- (if vm element =? 1 then read_single_num element
          else read_multi_num element index) ;;
    v <- value_to_int64 (vr element) x ;;
    ret (Some v).

Definition dcm_element_get_value_double (element : DcmElement) (index : Z)
  : M (option Z) :=
  ok <- and_then (element_check_assigned element)
          (and_then (element_check_numeric element)
             (and_then (element_check_float element)
                       (element_check_index element index))) ;;
  if negb ok then ret None
  else
    x <- (if vm element =? 1 then read_single_num element
          else read_multi_num element index) ;;
    v <- value_to_double (vr element) x ;;
    ret (Some v).

(** Reading the [bytes] member of the union: the buffer the setter stored;
    a read of another member is outside the model. *)
Definition read_single_bytes (element : DcmElement) : M (list Z) :=
  match value element with
  | single_bytes b => ret b
  | _ => abort
  end.

Definition dcm_element_get_value_binary (element : DcmElement)
  : M (option (list Z)) :=
  ok <- and_then (element_check_assigned element)
                 (element_check_binary element) ;;
  if negb ok then ret None
  else b <- read_single_bytes element ;; ret (Some b).

End NumericGetters.

(** ** Further functions of the data sets and the sequences *)

(** The element stored under the tag of [e'] gives way to [e']: how a write
    through the pointer that [HASH_FIND_INT] returned shows in the set. *)
Fixpoint replace_element (els : list DcmElement) (e' : DcmElement)
  : list DcmElement :=
  match els with
  | [] => []
  | x :: rest =>
      if tag_eqb (tag x) (tag e') then e' :: rest
      else x :: replace_element rest e'
  end.

Section DataSetClone.

Context {dict : Dictionary}.

(** The clone or NULL; the set is returned as the call leaves it. *)
Definition dcm_dataset_get_clone (dataset_arg : DcmDataSet) (tag_arg : Z)
  : M (option DcmElement * DcmDataSet) :=
  match HASH_FIND_INT (elements dataset_arg) tag_arg with
  | None =>
      dcm_error_set DCM_ERROR_CODE_INVALID
        "Could not find Data Element"
        "Getting Data Element '%08X' from Data Set failed" ;;;
      ret (None, dataset_arg)
  | Some element =>
      r <- dcm_element_clone element ;;
      let '(clone, element) := r in
      ret (clone,
           mkDataSet (replace_element (elements dataset_arg) element)
                     (is_locked dataset_arg))
  end.

End DataSetClone.

(** The loop of [dcm_dataset_foreach]; the callback sees one element and
    acts on the world. *)
Fixpoint dataset_foreach_loop (els : list DcmElement)
         (fn : DcmElement -> M unit) : M unit :=
  match els with
  | [] => ret tt
  | element :: next => fn element ;;; dataset_foreach_loop next fn
  end.

Definition dcm_dataset_foreach (dataset_arg : DcmDataSet)
           (fn : DcmElement -> M unit) : M unit :=
  dataset_foreach_loop (elements dataset_arg) fn.

(** The loop of [dcm_sequence_foreach]: [n] iterations from index [i];
    [utarray_eltptr] is NULL past the last cell, and the loop reads through
    it. *)
Fixpoint sequence_foreach_loop (n : nat) (i : Z) (seq : DcmSequence)
         (fn : DcmDataSet -> M unit) : M DcmSequence :=
  match n with
  | O => ret seq
  | S n' =>
      match nth_error (items seq) (Z.to_nat i) with
      | None => abort
      | Some item =>
          let item := dcm_dataset_lock item in
          let seq := mkSequence (list_update (items seq) (Z.to_nat i) item)
                                (seq_is_locked seq) in
          fn item ;;; sequence_foreach_loop n' (i + 1) seq fn
      end
  end.

Definition dcm_sequence_foreach (seq : DcmSequence)
           (fn : DcmDataSet -> M unit) : M DcmSequence :=
  let length_ := utarray_len (items seq) in
  sequence_foreach_loop (Z.to_nat length_) 0 seq fn.

(** ** Frames *)

(** [struct _DcmFrame]. *)
Record DcmFrame : Type := mkFrame {
  number : Z;
  data : list Z;
  frame_length : Z;
  rows : Z;
  columns : Z;
  samples_per_pixel : Z;
  bits_allocated : Z;
  bits_stored : Z;
  high_bit : Z;
  pixel_representation : Z;
  planar_configuration : Z;
  photometric_interpretation : string;
  transfer_syntax_uid : string
}.

(** [data_arg] is [None] for a NULL pointer.  [dcm_frame_destroy] only
    releases memory, which leaves no trace in the model. *)
Definition dcm_frame_create (number_arg : Z) (data_arg : option (list Z))
           (length_arg rows_arg columns_arg samples_per_pixel_arg
            bits_allocated_arg bits_stored_arg pixel_representation_arg
            planar_configuration_arg : Z)
           (photometric_interpretation_arg transfer_syntax_uid_arg : string)
  : M (option DcmFrame) :=
  match data_arg with
  | None =>
      dcm_error_set DCM_ERROR_CODE_INVALID
        "Constructing Frame Item failed" "Pixel data cannot be empty" ;;;
      ret None
  | Some data_bytes =>
      if length_arg =? 0 then
        dcm_error_set DCM_ERROR_CODE_INVALID
          "Constructing Frame Item failed" "Pixel data cannot be empty" ;;;
        ret None
      else if negb (bits_allocated_arg =? 1)
              && negb (bits_allocated_arg mod 8 =? 0) then
        dcm_error_set DCM_ERROR_CODE_INVALID
          "Constructing Frame Item failed"
          "Wrong number of bits allocated" ;;;
        ret None
      else if negb (bits_stored_arg =? 1)
              && negb (bits_stored_arg mod 8 =? 0) then
        dcm_error_set DCM_ERROR_CODE_INVALID
          "Constructing Frame Item failed" "Wrong number of bits stored" ;;;
        ret None
      else if negb (pixel_representation_arg =? 0)
              && negb (pixel_representation_arg =? 1) then
        dcm_error_set DCM_ERROR_CODE_INVALID
          "Constructing Frame Item failed" "Wrong pixel representation" ;;;
        ret None
      else if negb (planar_configuration_arg =? 0)
              && negb (planar_configuration_arg =? 1) then
        dcm_error_set DCM_ERROR_CODE_INVALID
          "Constructing Frame Item failed" "Wrong planar configuration" ;;;
        ret None
      else
        ok <- dcm_alloc ;;
        if negb ok then ret None
        else
          got_photometric <- dcm_alloc ;;
          if negb got_photometric then ret None
          else
            got_uid <- dcm_alloc ;;
            if negb got_uid then ret None
            else
              ret (Some (mkFrame number_arg data_bytes length_arg rows_arg
                                 columns_arg samples_per_pixel_arg
                                 bits_allocated_arg bits_stored_arg
                                 (wrap16 (bits_stored_arg - 1))
                                 pixel_representation_arg
                                 planar_configuration_arg
                                 photometric_interpretation_arg
                                 transfer_syntax_uid_arg))
  end.

Definition dcm_frame_get_number (frame : DcmFrame) : Z := number frame.
Definition dcm_frame_get_length (frame : DcmFrame) : Z := frame_length frame.
Definition dcm_frame_get_rows (frame : DcmFrame) : Z := rows frame.
Definition dcm_frame_get_columns (frame : DcmFrame) : Z := columns frame.
Definition dcm_frame_get_samples_per_pixel (frame : DcmFrame) : Z :=
  samples_per_pixel frame.
Definition dcm_frame_get_bits_allocated (frame : DcmFrame) : Z :=
  bits_allocated frame.
Definition dcm_frame_get_bits_stored (frame : DcmFrame) : Z :=
  bits_stored frame.
Definition dcm_frame_get_high_bit (frame : DcmFrame) : Z := high_bit frame.
Definition dcm_frame_get_pixel_representation (frame : DcmFrame) : Z :=
  pixel_representation frame.
Definition dcm_frame_get_planar_configuration (frame : DcmFrame) : Z :=
  planar_configuration frame.
Definition dcm_frame_get_photometric_interpretation (frame : DcmFrame)
  : string := photometric_interpretation frame.
Definition dcm_frame_get_transfer_syntax_uid (frame : DcmFrame) : string :=
  transfer_syntax_uid frame.
Definition dcm_frame_get_value (frame : DcmFrame) : list Z := data frame.

(** ** Transfer syntaxes *)

(** [strcmp(a, b) != 0]. *)
Definition strcmp_differs (a b : string) : bool := negb (String.eqb a b).

Definition dcm_is_encapsulated_transfer_syntax (transfer_syntax_uid_arg : string)
  : bool :=
  strcmp_differs transfer_syntax_uid_arg "1.2.840.10008.1.2"
  && strcmp_differs transfer_syntax_uid_arg "1.2.840.10008.1.2.1"
  && strcmp_differs transfer_syntax_uid_arg "1.2.840.10008.1.2.1.99"
  && strcmp_differs transfer_syntax_uid_arg "1.2.840.10008.1.2.2".

(** ** Lives of a data set and of a sequence *)

Inductive DataSetOp : Type :=
  | op_insert (element : DcmElement)
  | op_remove (tag_arg : Z)
  | op_lock.

(** The calls one after the other, with the result of each ([true] for the
    lock, which cannot fail). *)
Fixpoint run_dataset_ops (l : list DataSetOp) (dataset_arg : DcmDataSet)
  : M (list bool * DcmDataSet) :=
  match l with
  | [] => ret ([], dataset_arg)
  | op :: l' =>
      r <- match op with
           | op_insert element => dcm_dataset_insert dataset_arg element
           | op_remove tag_arg => dcm_dataset_remove dataset_arg tag_arg
           | op_lock => ret (true, dcm_dataset_lock dataset_arg)
           end ;;
      let '(ok, dataset_arg) := r in
      r' <- run_dataset_ops l' dataset_arg ;;
      ret (ok :: fst r', snd r')
  end.

Inductive SequenceOp : Type :=
  | op_append (item : DcmDataSet)
  | op_get (index : Z)
  | op_erase (index : Z)
  | op_lock_sequence.

Fixpoint run_sequence_ops (l : list SequenceOp) (seq : DcmSequence)
  : M DcmSequence :=
  match l with
  | [] => ret seq
  | op :: l' =>
      seq <- match op with
             | op_append item =>
                 r <- dcm_sequence_append seq item ;; ret (snd r)
             | op_get index =>
                 r <- dcm_sequence_get seq index ;; ret (snd r)
             | op_erase index => dcm_sequence_remove seq index
             | op_lock_sequence => ret (dcm_sequence_lock seq)
             end ;;
      run_sequence_ops l' seq
  end.

(** ** Vocabulary of the further statements *)

(** [e'] is [e] up to the three ownership flags. *)
(** The scalar an element holds at an index, as the numeric getters read
    it. *)
Definition stored_number (e : DcmElement) (index : Z) : option Z :=
  if vm e =? 1 then
    match value e with
    | single_num x => Some x
    | value_zero => Some 0
    | _ => None
    end
  else
    match value e with
    | multi_num xs => nth_error xs (Z.to_nat index)
    | _ => None
    end.

(** The integer VRs, with the range of the C type of their scalar. *)
Definition integer_vr_range (v : DcmVR) : option (Z * Z) :=
  match v with
  | DCM_VR_SS => Some (- 2 ^ 15, 2 ^ 15)
  | DCM_VR_SL => Some (- 2 ^ 31, 2 ^ 31)
  | DCM_VR_SV => Some (- 2 ^ 63, 2 ^ 63)
  | DCM_VR_US => Some (0, 2 ^ 16)
  | DCM_VR_UL => Some (0, 2 ^ 32)
  | DCM_VR_UV => Some (0, 2 ^ 64)
  | _ => None
  end.

(** The class of VR each setter is for. *)
Definition setter_accepts (s : Setter) (klass : DcmVRClass) : bool :=
  match s with
  | set_string _ | set_string_static _ | set_string_multi _ _ _ =>
      is_string_class klass
  | set_integer _ | set_numeric_multi _ _ _ | set_double _ =>
      class_eqb klass DCM_CLASS_NUMERIC
  | set_binary _ _ _ => class_eqb klass DCM_CLASS_BINARY
  | set_sequence _ => class_eqb klass DCM_CLASS_SEQUENCE
  end.



Definition flags_only (e e' : DcmElement) : Prop :=
  tag e' = tag e /\ vr e' = vr e /\ length e' = length e /\
  vm e' = vm e /\ assigned e' = assigned e /\ value e' = value e.

Section FurtherVocabulary.

Context {dict : Dictionary}.

(** [e'] comes from [e] by writes of [vm], of [value] and of the length
    (through [element_set_length]) only. *)
Inductive data_writes (e : DcmElement) : DcmElement -> Prop :=
  | data_writes_none : data_writes e e
  | data_writes_vm e1 m : data_writes e e1 -> data_writes e (set_vm e1 m)
  | data_writes_value e1 x :
      data_writes e e1 -> data_writes e (set_value e1 x)
  | data_writes_length e1 l :
      data_writes e e1 -> data_writes e (element_set_length e1 l).

(** The shape of the outcome of a setter call: the element after data
    writes, as it is when the call returns [false]; when it returns [true],
    accepted by [dcm_element_validate], assigned, and with ownership flags
    set. *)
Definition setter_shape (e : DcmElement) (ok : bool) (e' : DcmElement)
  : Prop :=
  exists e1,
    data_writes e e1 /\
    if ok then
      (exists w1, dcm_element_validate e1 w1
                  = Some ((true, set_assigned e1 true), w1)) /\
      flags_only (set_assigned e1 true) e'
    else e' = e1.

(** What [dcm_element_validate] has established of an assigned element. *)
Definition validated (e : DcmElement) : Prop :=
  assigned e = true /\
  vr e = dcm_dict_lookup_vr (tag e) /\
  dcm_dict_vr_class (vr e) <> DCM_CLASS_ERROR /\
  (dcm_dict_vr_class (vr e) = DCM_CLASS_NUMERIC ->
   length e = wrap64 (vm e * dcm_dict_vr_size (vr e))) /\
  (is_string_class (dcm_dict_vr_class (vr e)) = true ->
   forall j, Z.of_nat j < vm e ->
             exists v, stored_string e j = Some v /\
                       strlen v <= wrap32 (dcm_dict_vr_capacity (vr e))).

End FurtherVocabulary.

(** A run of [m] that starts with memory available for every allocation
    to come ends with memory still available. *)
Definition keeps_memory {A} (m : M A) : Prop :=
  forall w a w', allocs w = [] -> m w = Some (a, w') -> allocs w' = [].

(** * Properties *)

(** ** Basic Offset Table *)

Lemma ssize_t_add_exact (a b : Z) :
  - 2 ^ 63 <= a + b < 2 ^ 63 -> ssize_t_add a b = a + b.
Proof.
  intros H. unfold ssize_t_add, to_signed.
  change (2 ^ (64 - 1)) with (2 ^ 63).
  destruct (Z_lt_le_dec (a + b) 0) as [Hneg | Hpos].
  - assert (E : (a + b) mod 2 ^ 64 = a + b + 2 ^ 64).
    { symmetry. apply Z.mod_unique with (q := -1); lia. }
    rewrite E. destruct (Z.ltb_spec (a + b + 2 ^ 64) (2 ^ 63)); lia.
  - rewrite Z.mod_small by lia.
    destruct (Z.ltb_spec (a + b) (2 ^ 63)); lia.
Qed.

(** Away from the last value of [uint32_t], a frame number between 1 and
    [num_frames] passes the assertion and the offset of that frame, plus
    the constant prefix, is returned. *)
Lemma dcm_bot_get_frame_offset_in_range (bot : DcmBOT) (k : Z) :
  num_frames bot < 2 ^ 32 - 1 ->
  Z.of_nat (List.length (offsets bot)) = num_frames bot ->
  1 <= k <= num_frames bot ->
  exists off,
    nth_error (offsets bot) (Z.to_nat (k - 1)) = Some off /\
    dcm_bot_get_frame_offset bot k
    = Some (ssize_t_add off (first_frame_offset bot)).
Proof.
  intros Hmax Hlen Hk.
  destruct (nth_error (offsets bot) (Z.to_nat (k - 1))) as [off |] eqn:E.
  - exists off. split; [reflexivity |].
    unfold dcm_bot_get_frame_offset, wrap32.
    rewrite (Z.mod_small (num_frames bot + 1)) by lia.
    rewrite (Z.mod_small (k - 1)) by lia.
    destruct (Z.ltb_spec 0 k); [| lia].
    destruct (Z.ltb_spec k (num_frames bot + 1)); [| lia].
    simpl. rewrite E. reflexivity.
  - apply nth_error_None in E. lia.
Qed.

(** C8 (the code at the failing input).  With [num_frames] at the last value
    of [uint32_t] the sum [num_frames + 1] of the assertion wraps to 0, so no
    frame number passes it: the call does not return, whatever the table
    holds. *)
Theorem dcm_bot_get_frame_offset_assert_wraps
        (offs : list Z) (ffo number : Z) :
  dcm_bot_get_frame_offset (mkBOT (2 ^ 32 - 1) offs ffo) number = None.
Proof.
  unfold dcm_bot_get_frame_offset, wrap32. cbn [num_frames].
  replace (2 ^ 32 - 1 + 1) with (2 ^ 32) by lia.
  rewrite Z.mod_same by lia.
  destruct (Z.ltb_spec 0 number); destruct (Z.ltb_spec number 0);
    simpl; try reflexivity; lia.
Qed.

(** ** The monad *)

Lemma bind_Some {A B} (m : M A) (k : A -> M B) (w : World) (r : B * World) :
  bind m k w = Some r ->
  exists a w', m w = Some (a, w') /\ k a w' = Some r.
Proof.
  unfold bind. destruct (m w) as [[a w'] |]; [| discriminate].
  intros H. exists a, w'. auto.
Qed.

(** ** Sequences *)

Lemma nth_error_list_update {A} (l : list A) (i : nat) (x : A) :
  (i < List.length l)%nat -> nth_error (list_update l i x) i = Some x.
Proof.
  revert i. induction l as [| y l IH]; intros [| i] H; simpl in *;
    try lia; auto. apply IH. lia.
Qed.

Lemma nth_error_list_update_other {A} (l : list A) (i j : nat) (x : A) :
  i <> j -> nth_error (list_update l i x) j = nth_error l j.
Proof.
  revert i j. induction l as [| y l IH]; intros [| i] [| j] H; simpl;
    try reflexivity; try congruence. apply IH. congruence.
Qed.

Lemma length_list_update {A} (l : list A) (i : nat) (x : A) :
  List.length (list_update l i x) = List.length l.
Proof.
  revert i. induction l as [| y l IH]; intros [| i]; simpl; auto.
Qed.

(** C6.  With the index in range the call returns the item stored at that
    index, locked, the sequence holds that locked item at the index (and is
    otherwise as before), and the error slot is untouched; with the index
    out of range it returns NULL, leaves the sequence alone and reports
    INVALID. *)
Theorem dcm_sequence_get_spec (seq : DcmSequence) (index : Z) (w : World) :
  0 <= index < 2 ^ 32 ->
  Z.of_nat (List.length (items seq)) < 2 ^ 32 ->
  (index < dcm_sequence_count seq ->
   exists item seq',
     nth_error (items seq) (Z.to_nat index) = Some item /\
     dcm_sequence_get seq index w = Some ((Some (dcm_dataset_lock item), seq'), w) /\
     elements (dcm_dataset_lock item) = elements item /\
     dcm_dataset_is_locked (dcm_dataset_lock item) = true /\
     nth_error (items seq') (Z.to_nat index) = Some (dcm_dataset_lock item) /\
     (forall j, j <> Z.to_nat index ->
                nth_error (items seq') j = nth_error (items seq) j) /\
     seq_is_locked seq' = seq_is_locked seq) /\
  (dcm_sequence_count seq <= index ->
   exists w',
     dcm_sequence_get seq index w = Some ((None, seq), w') /\
     invalid_error w').
Proof.
  intros Hi Hlen.
  assert (Hcount : dcm_sequence_count seq = Z.of_nat (List.length (items seq))).
  { unfold dcm_sequence_count, utarray_len, wrap32. apply Z.mod_small. lia. }
  split; intros H.
  - rewrite Hcount in H.
    destruct (nth_error (items seq) (Z.to_nat index)) as [item |] eqn:E.
    2:{ apply nth_error_None in E. lia. }
    exists item. eexists. split; [reflexivity |].
    unfold dcm_sequence_get. fold (dcm_sequence_count seq). rewrite Hcount.
    destruct (Z.leb_spec (Z.of_nat (List.length (items seq))) index); [lia |].
    rewrite E. unfold ret. split; [reflexivity |].
    cbn [items seq_is_locked]. repeat split.
    + apply nth_error_list_update. lia.
    + intros j Hj. apply nth_error_list_update_other. congruence.
  - unfold dcm_sequence_get. fold (dcm_sequence_count seq).
    destruct (Z.leb_spec (dcm_sequence_count seq) index); [| lia].
    eexists. split; [reflexivity |].
    unfold invalid_error. cbn. eauto.
Qed.

Lemma dcm_sequence_get_spec_witness :
  exists item seq',
    dcm_sequence_get (mkSequence [mkDataSet [] false; mkDataSet [] false] false)
                     1 world0
    = Some ((Some (dcm_dataset_lock item), seq'), world0) /\
    dcm_dataset_is_locked (dcm_dataset_lock item) = true /\
    nth_error (items seq') 1 = Some (dcm_dataset_lock item).
Proof.
  destruct (@dcm_sequence_get_spec
              (mkSequence [mkDataSet [] false; mkDataSet [] false] false)
              1 world0) as [Hin _].
  - lia.
  - simpl. lia.
  - destruct Hin as (item & seq' & _ & Hget & _ & Hlock & Hnth & _).
    + vm_compute. reflexivity.
    + exists item, seq'. auto.
Defined.

(** ** Data sets *)






(** On an unlocked sequence no run of [dcm_sequence_append] returns
    [false]; when the allocation of the item handle succeeds the call
    returns [true], with the item locked and placed after the last one, the
    sequence still unlocked and the error slot untouched. *)
Theorem dcm_sequence_append_unlocked (seq : DcmSequence) (item : DcmDataSet)
        (w : World) :
  dcm_sequence_is_locked seq = false ->
  (forall ok seq' w',
      dcm_sequence_append seq item w = Some ((ok, seq'), w') -> ok = true) /\
  (hd true (allocs w) = true ->
   dcm_sequence_append seq item w
   = Some ((true, mkSequence (items seq ++ [dcm_dataset_lock item]) false),
           mkWorld (error w) (tl (allocs w)) (destroyed w))).
Proof.
  unfold dcm_sequence_is_locked. intros Hl.
  unfold dcm_sequence_append. rewrite Hl. split.
  - intros ok seq' w' H.
    apply bind_Some in H. destruct H as (h & w1 & _ & H).
    apply bind_Some in H. destruct H as (cells & w2 & _ & H).
    unfold ret in H. congruence.
  - intros Ha. unfold bind, create_sequence_item, dcm_alloc, bind.
    destruct w as [err al ds]. cbn [allocs error destroyed] in *.
    destruct al as [| [|] al]; cbn in *; try discriminate; reflexivity.
Qed.

Lemma dcm_sequence_append_unlocked_witness :
  dcm_sequence_append two_items one_name world0
  = Some ((true,
           mkSequence (items two_items ++ [dcm_dataset_lock one_name]) false),
          world0).
Proof.
  destruct (@dcm_sequence_append_unlocked two_items one_name world0)
    as [_ H]; [reflexivity |].
  exact (H eq_refl).
Defined.

(** C10 (the code at the failing inputs).  When the allocation of the item
    handle fails, [create_sequence_item] returns NULL; [dcm_sequence_append]
    hands the NULL handle to [utarray_push_back] without a test, and
    [copy_sequence_item_icd] reads through it.  So on every unlocked
    sequence, with any item, the call does not return [true] when that
    allocation fails: it does not return. *)
Theorem dcm_sequence_append_nomem_does_not_return
        (seq : DcmSequence) (item : DcmDataSet) (w : World) :
  dcm_sequence_is_locked seq = false ->
  hd true (allocs w) = false ->
  dcm_sequence_append seq item w = None.
Proof.
  unfold dcm_sequence_is_locked. intros Hl Hmem.
  unfold dcm_sequence_append. rewrite Hl.
  unfold bind, create_sequence_item, dcm_alloc, bind.
  destruct w as [err al ds]. cbn [allocs error destroyed] in *.
  destruct al as [| [|] al]; cbn in *; try discriminate; reflexivity.
Qed.

Lemma dcm_sequence_append_nomem_does_not_return_witness :
  dcm_sequence_is_locked two_items = false /\
  hd true (allocs world_nomem) = false /\
  dcm_sequence_append two_items one_name world_nomem = None.
Proof.
  split; [reflexivity |]. split; [reflexivity |].
  apply (@dcm_sequence_append_nomem_does_not_return two_items one_name
           world_nomem); reflexivity.
Defined.

(** ** Elements *)

Section ElementFacts.

Context {dict : Dictionary} {fconv : FloatConversions}.

(** *** Field updates *)

Lemma set_assigned_restore (e : DcmElement) :
  set_assigned (set_assigned e true) (assigned e) = e.
Proof. destruct e; reflexivity. Qed.

Lemma element_set_length_fields (e : DcmElement) (l : Z) :
  tag (element_set_length e l) = tag e /\
  vr (element_set_length e l) = vr e /\
  vm (element_set_length e l) = vm e /\
  assigned (element_set_length e l) = assigned e /\
  value (element_set_length e l) = value e.
Proof.
  unfold element_set_length. destruct (length e =? 0); destruct e; cbn; auto.
Qed.

Lemma even_length32_even (l : Z) : Z.even (even_length32 l) = true.
Proof.
  unfold even_length32, wrap32.
  destruct (Z.even (l mod 2 ^ 32)) eqn:E; [exact E |].
  assert (Hr : 0 <= l mod 2 ^ 32 < 2 ^ 32) by (apply Z.mod_pos_bound; lia).
  assert (Ho : Z.odd (l mod 2 ^ 32) = true)
    by (rewrite <- Z.negb_even, E; reflexivity).
  apply Z.odd_spec in Ho. destruct Ho as [k Hk].
  apply Z.even_spec.
  destruct (Z.eq_dec (l mod 2 ^ 32 + 1) (2 ^ 32)) as [Heq | Hne].
  - rewrite Heq, Z.mod_same by lia. exists 0. reflexivity.
  - rewrite Z.mod_small by lia. exists (k + 1). lia.
Qed.

Lemma even_length32_small (l : Z) :
  0 <= l < 2 ^ 32 - 1 ->
  even_length32 l = if Z.even l then l else l + 1.
Proof.
  intros H. unfold even_length32, wrap32.
  rewrite (Z.mod_small l) by lia.
  destruct (Z.even l); [reflexivity |]. apply Z.mod_small. lia.
Qed.

Lemma element_set_length_length (e : DcmElement) (l : Z) :
  length (element_set_length e l)
  = if length e =? 0 then even_length32 l else length e.
Proof.
  unfold element_set_length, even_length32.
  destruct (length e =? 0); [| reflexivity].
  assert (E : (wrap32 l mod 2 =? 0) = Z.even (wrap32 l)).
  { destruct (Z.even (wrap32 l)) eqn:Ev.
    - apply Z.even_spec in Ev. destruct Ev as [k Hk].
      apply Z.eqb_eq. rewrite Hk, Z.mul_comm. apply Z.mod_mul. lia.
    - apply Z.eqb_neq. intros Hm.
      apply Z.mod_divide in Hm; [| lia]. destruct Hm as [k Hk].
      assert (Z.even (wrap32 l) = true)
        by (apply Z.even_spec; exists k; lia).
      congruence. }
  rewrite E. destruct (Z.even (wrap32 l)); destruct e; reflexivity.
Qed.

Lemma element_set_length_even (e : DcmElement) (l : Z) :
  Z.even (length e) = true ->
  Z.even (length (element_set_length e l)) = true.
Proof.
  intros H. rewrite element_set_length_length.
  destruct (length e =? 0); [apply even_length32_even | exact H].
Qed.

(** *** The checks

    A check is a test of the element: it returns [true] and leaves the
    world alone, or returns [false] and reports INVALID. *)

Lemma error_set_reports (summary message : string) (w : World) :
  world_reports_invalid w
    (mkWorld (Some (mkError DCM_ERROR_CODE_INVALID summary message))
             (allocs w) (destroyed w)).
Proof. repeat split. unfold invalid_error. cbn. eauto. Qed.

Lemma check_cond (c : bool) (summary message : string) :
  check_is (if c then
              dcm_error_set DCM_ERROR_CODE_INVALID summary message ;;;
              ret false
            else ret true) (negb c).
Proof.
  intros w. destruct c; cbn.
  - eexists. split; [reflexivity | apply error_set_reports].
  - reflexivity.
Qed.

Lemma element_check_not_assigned_is (e : DcmElement) :
  check_is (element_check_not_assigned e) (negb (assigned e)).
Proof. apply check_cond. Qed.

Lemma element_check_assigned_is (e : DcmElement) :
  check_is (element_check_assigned e) (assigned e).
Proof.
  unfold element_check_assigned.
  rewrite <- (negb_involutive (assigned e)) at 2. apply check_cond.
Qed.

Lemma element_check_string_is (e : DcmElement) :
  check_is (element_check_string e)
           (is_string_class (dcm_dict_vr_class (vr e))).
Proof.
  unfold element_check_string.
  rewrite <- (negb_involutive (is_string_class _)) at 2. apply check_cond.
Qed.

Lemma element_check_index_is (e : DcmElement) (index : Z) :
  check_is (element_check_index e index) (index <? vm e).
Proof.
  unfold element_check_index.
  replace (index <? vm e) with (negb (vm e <=? index)).
  - apply check_cond.
  - destruct (Z.leb_spec (vm e) index); destruct (Z.ltb_spec index (vm e));
      try reflexivity; lia.
Qed.

Lemma element_check_numeric_is (e : DcmElement) :
  check_is (element_check_numeric e)
           (class_eqb (dcm_dict_vr_class (vr e)) DCM_CLASS_NUMERIC).
Proof.
  unfold element_check_numeric.
  rewrite <- (negb_involutive (class_eqb _ _)) at 2. apply check_cond.
Qed.

Lemma element_check_integer_is (e : DcmElement) :
  check_is (element_check_integer e)
           (negb (vr_eqb (vr e) DCM_VR_FL || vr_eqb (vr e) DCM_VR_FD)).
Proof. apply check_cond. Qed.

Lemma element_check_float_is (e : DcmElement) :
  check_is (element_check_float e)
           (vr_eqb (vr e) DCM_VR_FL || vr_eqb (vr e) DCM_VR_FD).
Proof.
  unfold element_check_float.
  replace (vr_eqb (vr e) DCM_VR_FL || vr_eqb (vr e) DCM_VR_FD)
    with (negb (negb (vr_eqb (vr e) DCM_VR_FL)
                && negb (vr_eqb (vr e) DCM_VR_FD))).
  - apply check_cond.
  - destruct (vr_eqb (vr e) DCM_VR_FL), (vr_eqb (vr e) DCM_VR_FD);
      reflexivity.
Qed.

Lemma element_check_binary_is (e : DcmElement) :
  check_is (element_check_binary e)
           (class_eqb (dcm_dict_vr_class (vr e)) DCM_CLASS_BINARY).
Proof.
  unfold element_check_binary.
  rewrite <- (negb_involutive (class_eqb _ _)) at 2. apply check_cond.
Qed.

Lemma element_check_sequence_is (e : DcmElement) :
  check_is (element_check_sequence e)
           (class_eqb (dcm_dict_vr_class (vr e)) DCM_CLASS_SEQUENCE).
Proof.
  unfold element_check_sequence.
  rewrite <- (negb_involutive (class_eqb _ _)) at 2. apply check_cond.
Qed.

Lemma and_then_is (a b : M bool) (ca cb : bool) :
  check_is a ca -> check_is b cb -> check_is (and_then a b) (ca && cb).
Proof.
  intros Ha Hb w. specialize (Ha w). unfold and_then, bind.
  destruct ca; cbn.
  - rewrite Ha. apply Hb.
  - destruct Ha as (w' & Ha & Hw). rewrite Ha.
    exists w'. split; [reflexivity | exact Hw].
Qed.

(** Every run of a check that is a test returns, and what it returns and
    leaves behind is fixed by the test. *)
Lemma check_is_inv (m : M bool) (c : bool) (w : World) :
  check_is m c ->
  exists w', m w = Some (c, w') /\
             (c = true -> w' = w) /\
             (c = false -> world_reports_invalid w w').
Proof.
  intros H. specialize (H w). destruct c.
  - exists w. split; [exact H |]. split; [reflexivity | discriminate].
  - destruct H as (w' & H & Hw). exists w'. split; [exact H |].
    split; [discriminate | intros _; exact Hw].
Qed.

(** *** Validation *)

Ltac run_check H w :=
  let w' := fresh "w" in
  let Hrun := fresh "Hrun" in
  let Htrue := fresh "Htrue" in
  let Hfalse := fresh "Hfalse" in
  destruct (check_is_inv w H) as (w' & Hrun & Htrue & Hfalse);
  unfold bind at 1; rewrite Hrun; clear Hrun.

Lemma vr_eqb_eq (a b : DcmVR) : vr_eqb a b = true <-> a = b.
Proof. unfold vr_eqb. destruct (DcmVR_eq_dec a b); split; congruence. Qed.

Lemma class_eqb_eq (a b : DcmVRClass) : class_eqb a b = true <-> a = b.
Proof.
  unfold class_eqb. destruct (DcmVRClass_eq_dec a b); split; congruence.
Qed.

Lemma dcm_element_get_value_string_run (e : DcmElement) (index : Z)
      (w w' : World) (r : option string) :
  dcm_element_get_value_string e index w = Some (r, w') ->
  (exists s, r = Some s /\ w' = w) \/
  (r = None /\ world_reports_invalid w w').
Proof.
  unfold dcm_element_get_value_string.
  run_check (and_then_is (element_check_assigned_is e)
               (and_then_is (element_check_string_is e)
                            (element_check_index_is e index))) w.
  destruct (assigned e && _) eqn:C; cbn [negb].
  - rewrite (Htrue eq_refl).
    destruct (vm e =? 1); unfold bind, read_single_str, read_multi_str;
      destruct (value e); try discriminate.
    + intros H. inversion H. left. eauto.
    + destruct (nth_error ss (Z.to_nat index)); [| discriminate].
      intros H. inversion H. left. eauto.
  - intros H. inversion H; subst. right. auto.
Qed.

Lemma check_capacity_loop_run (e : DcmElement) (capacity : Z) (n : nat) :
  forall (i : Z) (w w' : World) (ok : bool),
    check_capacity_loop e capacity n i w = Some (ok, w') ->
    (ok = true -> w' = w) /\ (ok = false -> world_reports_invalid w w').
Proof.
  induction n as [| n IH]; intros i w w' ok; cbn [check_capacity_loop].
  - intros H. inversion H. split; [reflexivity | discriminate].
  - intros H. apply bind_Some in H. destruct H as (r & w1 & Hget & H).
    apply dcm_element_get_value_string_run in Hget.
    destruct Hget as [(s & -> & ->) | (-> & Hw)].
    + destruct (capacity <? strlen s).
      * inversion H; subst. split; [discriminate |]. intros _.
        apply error_set_reports.
      * apply (IH _ _ _ _ H).
    + inversion H; subst. split; [discriminate | auto].
Qed.

Lemma element_check_capacity_run (e : DcmElement) (capacity : Z)
      (w w' : World) (ok : bool) (e' : DcmElement) :
  element_check_capacity e capacity w = Some ((ok, e'), w') ->
  e' = e /\ (ok = true -> w' = w) /\
  (ok = false -> world_reports_invalid w w').
Proof.
  unfold element_check_capacity. intros H.
  apply bind_Some in H. destruct H as (b & w1 & Hloop & H).
  inversion H; subst. split; [apply set_assigned_restore |].
  eapply check_capacity_loop_run. exact Hloop.
Qed.

(** What a run of [dcm_element_validate] that accepts the element has
    established, and what a run that rejects it leaves behind. *)
Lemma dcm_element_validate_run (e : DcmElement) (w w' : World) (ok : bool)
      (e' : DcmElement) :
  dcm_element_validate e w = Some ((ok, e'), w') ->
  (ok = true /\ assigned e = false /\
   vr e = dcm_dict_lookup_vr (tag e) /\
   dcm_dict_vr_class (vr e) <> DCM_CLASS_ERROR /\
   e' = set_assigned e true /\ w' = w) \/
  (ok = false /\ e' = e /\ world_reports_invalid w w').
Proof.
  unfold dcm_element_validate.
  run_check (element_check_not_assigned_is e) w.
  destruct (assigned e) eqn:Ha; cbn [negb].
  - intros H. inversion H; subst. right. auto.
  - rewrite (Htrue eq_refl). clear Htrue Hfalse.
    destruct (vr_eqb (vr e) (dcm_dict_lookup_vr (tag e))) eqn:Hvr;
      cbn [negb orb].
    2:{ intros H. inversion H; subst. right. repeat split; auto.
        apply error_set_reports. }
    destruct (class_eqb (dcm_dict_vr_class (vr e)) DCM_CLASS_ERROR) eqn:Hc.
    { intros H. inversion H; subst. right. repeat split; auto.
      apply error_set_reports. }
    destruct (class_eqb (dcm_dict_vr_class (vr e)) DCM_CLASS_NUMERIC
              && negb _).
    { intros H. inversion H; subst. right. repeat split; auto.
      apply error_set_reports. }
    intros H. apply bind_Some in H. destruct H as ([b e1] & w1 & Hcap & H).
    assert (Hcap' : e1 = e /\ (b = true -> w1 = w) /\
                    (b = false -> world_reports_invalid w w1)).
    { destruct (is_string_class (dcm_dict_vr_class (vr e))).
      - eapply element_check_capacity_run. exact Hcap.
      - inversion Hcap; subst. repeat split; auto. discriminate. }
    destruct Hcap' as (-> & Hb1 & Hb0).
    destruct b; cbn [negb] in H; inversion H; subst.
    + left. rewrite (Hb1 eq_refl). repeat split; auto.
      * apply vr_eqb_eq. exact Hvr.
      * intros Hcls. apply class_eqb_eq in Hcls. congruence.
    + right. auto.
Qed.

(** *** One setter call *)

Lemma same_identity_refl (e : DcmElement) : same_identity e e.
Proof. repeat split; auto. Qed.

Lemma same_identity_trans (e e1 e2 : DcmElement) :
  same_identity e e1 -> same_identity e1 e2 -> same_identity e e2.
Proof.
  intros (A1 & B1 & C1 & D1) (A2 & B2 & C2 & D2).
  repeat split; try congruence. auto.
Qed.

Lemma same_identity_set_vm (e : DcmElement) (m : Z) :
  same_identity e (set_vm e m).
Proof. destruct e; repeat split; auto. Qed.

Lemma same_identity_set_value (e : DcmElement) (x : DcmValue) :
  same_identity e (set_value e x).
Proof. destruct e; repeat split; auto. Qed.

Lemma same_identity_set_value_pointer (e : DcmElement) (b : bool) :
  same_identity e (set_value_pointer e b).
Proof. destruct e; repeat split; auto. Qed.

Lemma same_identity_set_value_pointer_array (e : DcmElement) (b : bool) :
  same_identity e (set_value_pointer_array e b).
Proof. destruct e; repeat split; auto. Qed.

Lemma same_identity_set_sequence_pointer (e : DcmElement) (b : bool) :
  same_identity e (set_sequence_pointer e b).
Proof. destruct e; repeat split; auto. Qed.

Lemma same_identity_set_length (e : DcmElement) (l : Z) :
  same_identity e (element_set_length e l).
Proof.
  destruct (element_set_length_fields e l) as (A & B & _ & C & _).
  repeat split; auto. apply element_set_length_even.
Qed.

Create HintDb identity.
#[local] Hint Resolve same_identity_refl same_identity_set_vm
  same_identity_set_value same_identity_set_value_pointer
  same_identity_set_value_pointer_array same_identity_set_sequence_pointer
  same_identity_set_length : identity.
#[local] Hint Extern 3 (same_identity _ _) =>
  eapply same_identity_trans; [| solve [eauto with identity]] : identity.

Lemma step_post_failed (e e1 : DcmElement) :
  same_identity e e1 -> step_post e false e1.
Proof.
  intros (A & B & C & D). repeat split; auto; discriminate.
Qed.

Lemma step_post_same (e : DcmElement) (ok : bool) (e1 e2 : DcmElement) :
  step_post e ok e1 -> same_identity e1 e2 -> step_post e ok e2.
Proof.
  intros (A & B & D & T & F) (A2 & B2 & C2 & D2).
  repeat split; try congruence; auto.
  - apply T; assumption.
  - rewrite C2. apply T; assumption.
  - rewrite A2, B2. apply T. assumption.
  - rewrite B2. apply T. assumption.
  - intros Hok. rewrite C2. auto.
Qed.

Lemma validate_step (e e1 : DcmElement) (w w' : World) (ok : bool)
      (e' : DcmElement) :
  same_identity e e1 ->
  dcm_element_validate e1 w = Some ((ok, e'), w') ->
  step_post e ok e'.
Proof.
  intros (A & B & C & D) H.
  apply dcm_element_validate_run in H.
  destruct H as [(-> & Ha & Hvr & Hcls & -> & _) | (-> & -> & _)].
  - destruct e1 as [t v l m a x p q r]. cbn in *.
    repeat split; auto; try congruence; discriminate.
  - apply step_post_failed. repeat split; auto.
Qed.

(** The tail shared by the setters that take a [steal] flag. *)
Lemma validate_steal_step (e e1 : DcmElement)
      (flag : DcmElement -> DcmElement) (steal : bool)
      (w w' : World) (ok : bool) (e' : DcmElement) :
  same_identity e e1 ->
  (forall x, same_identity x (flag x)) ->
  (v <- dcm_element_validate e1 ;;
   let '(ok, element) := v in
   if negb ok then ret (false, element)
   else if steal then ret (true, flag element)
   else ret (true, element)) w = Some ((ok, e'), w') ->
  step_post e ok e'.
Proof.
  intros Hs Hflag H.
  apply bind_Some in H. destruct H as ([b e2] & w1 & Hv & H).
  pose proof (@validate_step _ _ _ _ _ _ Hs Hv) as Hp.
  destruct b; cbn [negb] in H.
  - destruct steal; inversion H; subst; auto.
    eapply step_post_same; [exact Hp | apply Hflag].
  - inversion H; subst. exact Hp.
Qed.

Ltac refuse_assigned C w Ha :=
  let w' := fresh "w" in
  let Hrun := fresh "Hrun" in
  let Hfalse := fresh "Hfalse" in
  destruct (check_is_inv w C) as (w' & Hrun & _ & Hfalse);
  unfold bind at 1; rewrite Hrun; clear Hrun;
  rewrite Ha in *; cbn [negb andb] in *;
  exists w'; split; [reflexivity | apply Hfalse; reflexivity].

Ltac pass_checks C w :=
  let w' := fresh "w" in
  let Hrun := fresh "Hrun" in
  let Htrue := fresh "Htrue" in
  let Hc := fresh "Hc" in
  destruct (check_is_inv w C) as (w' & Hrun & Htrue & _);
  unfold bind at 1; rewrite Hrun; clear Hrun;
  match goal with
  | |- context [negb ?c] =>
      destruct c eqn:Hc; cbn [negb];
      [ rewrite (Htrue eq_refl); clear Htrue
      | let H := fresh "H" in
        intros H; inversion H; subst;
        apply step_post_failed; apply same_identity_refl ]
  end.

Lemma dcm_element_set_value_integer_ok (value_arg : Z) :
  setter_ok (fun e => dcm_element_set_value_integer e value_arg).
Proof.
  intros e w.
  pose proof (and_then_is (element_check_not_assigned_is e)
                (and_then_is (element_check_numeric_is e)
                             (element_check_integer_is e))) as C.
  split.
  - intros Ha. unfold dcm_element_set_value_integer. refuse_assigned C w Ha.
  - intros ok e' w'. unfold dcm_element_set_value_integer.
    pass_checks C w.
    intros H. eapply validate_step; [| exact H]. auto 6 with identity.
Qed.

Lemma dcm_element_set_value_double_ok (value_arg : Z) :
  setter_ok (fun e => dcm_element_set_value_double e value_arg).
Proof.
  intros e w.
  pose proof (and_then_is (element_check_not_assigned_is e)
                (and_then_is (element_check_numeric_is e)
                             (element_check_float_is e))) as C.
  split.
  - intros Ha. unfold dcm_element_set_value_double. refuse_assigned C w Ha.
  - intros ok e' w'. unfold dcm_element_set_value_double.
    pass_checks C w.
    intros H. eapply validate_step; [| exact H]. auto 6 with identity.
Qed.

Lemma dcm_element_set_value_numeric_multi_ok
      (buffer : list Z) (vm_arg : Z) (steal : bool) :
  setter_ok
    (fun e => dcm_element_set_value_numeric_multi e buffer vm_arg steal).
Proof.
  intros e w.
  pose proof (and_then_is (element_check_not_assigned_is e)
                          (element_check_numeric_is e)) as C.
  split.
  - intros Ha. unfold dcm_element_set_value_numeric_multi.
    refuse_assigned C w Ha.
  - intros ok e' w'. unfold dcm_element_set_value_numeric_multi.
    pass_checks C w.
    intros H. apply bind_Some in H. destruct H as (x & w1 & _ & H).
    eapply validate_steal_step; [| | exact H].
    + auto 6 with identity.
    + intros y. apply same_identity_set_value_pointer.
Qed.

Lemma dcm_element_set_value_binary_ok
      (bytes : list Z) (length_arg : Z) (steal : bool) :
  setter_ok (fun e => dcm_element_set_value_binary e bytes length_arg steal).
Proof.
  intros e w.
  pose proof (and_then_is (element_check_not_assigned_is e)
                          (element_check_binary_is e)) as C.
  split.
  - intros Ha. unfold dcm_element_set_value_binary. refuse_assigned C w Ha.
  - intros ok e' w'. unfold dcm_element_set_value_binary.
    pass_checks C w.
    intros H. eapply validate_steal_step; [| | exact H].
    + auto 6 with identity.
    + intros y. apply same_identity_set_value_pointer.
Qed.

Lemma dcm_element_set_value_string_multi_ok
      (values : list string) (vm_arg : Z) (steal : bool) :
  setter_ok
    (fun e => dcm_element_set_value_string_multi e values vm_arg steal).
Proof.
  intros e w.
  pose proof (and_then_is (element_check_not_assigned_is e)
                          (element_check_string_is e)) as C.
  split.
  - intros Ha. unfold dcm_element_set_value_string_multi.
    refuse_assigned C w Ha.
  - intros ok e' w'. unfold dcm_element_set_value_string_multi.
    pass_checks C w.
    intros H. apply bind_Some in H. destruct H as (r & w1 & Hr & H).
    assert (Hid : match r with
                  | Some e1 => same_identity e e1
                  | None => True
                  end).
    { destruct (vm_arg =? 1).
      - destruct (nth_error values 0); [| discriminate].
        inversion Hr; subst. auto 6 with identity.
      - destruct (class_eqb (dcm_dict_vr_class (vr e))
                            DCM_CLASS_STRING_MULTI);
          cbn in Hr; inversion Hr; subst;
          [auto 6 with identity | exact I]. }
    destruct r as [e1 |].
    + apply bind_Some in H. destruct H as (len & w2 & _ & H).
      eapply validate_steal_step; [| | exact H].
      * auto 6 with identity.
      * intros y. apply same_identity_set_value_pointer_array.
    + inversion H; subst. apply step_post_failed. apply same_identity_refl.
Qed.

Lemma element_set_value_string_ok (value_arg : string) (steal : bool) :
  setter_ok (fun e => element_set_value_string e value_arg steal).
Proof.
  intros e w.
  pose proof (and_then_is (element_check_not_assigned_is e)
                          (element_check_string_is e)) as C.
  split.
  - intros Ha. unfold element_set_value_string. refuse_assigned C w Ha.
  - intros ok e' w'. unfold element_set_value_string.
    pass_checks C w.
    intros H. apply bind_Some in H. destruct H as ([b e1] & w1 & Hr & H).
    assert (Hp : step_post e b e1).
    { destruct (class_eqb _ DCM_CLASS_STRING_MULTI).
      - apply bind_Some in Hr. destruct Hr as (p & w2 & _ & Hr).
        destruct p as [[values vm_parsed] |].
        + apply bind_Some in Hr. destruct Hr as ([b2 e2] & w3 & Hm & Hr).
          apply (dcm_element_set_value_string_multi_ok values vm_parsed true)
            in Hm.
          destruct b2; cbn [negb] in Hr; inversion Hr; subst; exact Hm.
        + inversion Hr; subst. apply step_post_failed.
          apply same_identity_refl.
      - eapply validate_step; [| exact Hr]. auto 6 with identity. }
    destruct b; cbn [negb] in H.
    + destruct steal; inversion H; subst; auto.
      eapply step_post_same; [exact Hp |].
      apply same_identity_set_value_pointer.
    + inversion H; subst. exact Hp.
Qed.

Lemma dcm_element_set_value_sequence_ok (sq : option DcmSequence) :
  setter_ok (fun e => r <- dcm_element_set_value_sequence e sq ;;
                      ret (fst (fst r), snd (fst r))).
Proof.
  intros e w.
  pose proof (and_then_is (element_check_not_assigned_is e)
                          (element_check_sequence_is e)) as C.
  split.
  - intros Ha. unfold dcm_element_set_value_sequence.
    destruct (check_is_inv w C) as (w1 & Hrun & _ & Hfalse).
    unfold bind. rewrite Hrun. rewrite Ha in *. cbn in *.
    exists w1. split; [reflexivity | apply Hfalse; reflexivity].
  - intros ok e' w' H.
    apply bind_Some in H. destruct H as ([[b e1] s1] & w1 & Hr & H).
    inversion H; subst. cbn [fst snd]. clear H. revert Hr.
    unfold dcm_element_set_value_sequence.
    pass_checks C w.
    destruct sq as [value_seq |]; [| discriminate].
    intros H. apply bind_Some in H.
    destruct H as ([len value_seq'] & w2 & _ & H).
    destruct len as [len |].
    + apply bind_Some in H. destruct H as ([b2 e2] & w3 & Hv & H).
      eapply validate_step in Hv; [| shelve].
      destruct b2; cbn [negb] in H; inversion H; subst.
      * eapply step_post_same; [exact Hv |].
        apply same_identity_set_sequence_pointer.
      * exact Hv.
    + inversion H; subst. apply step_post_failed. apply same_identity_refl.
  Unshelve. auto 6 with identity.
Qed.

(** Every setter of the family. *)
Lemma run_setter_ok (s : Setter) : setter_ok (run_setter s).
Proof.
  destruct s; cbn [run_setter].
  - apply (element_set_value_string_ok value_arg true).
  - apply (element_set_value_string_ok value_arg false).
  - apply dcm_element_set_value_string_multi_ok.
  - apply dcm_element_set_value_integer_ok.
  - apply dcm_element_set_value_numeric_multi_ok.
  - apply dcm_element_set_value_double_ok.
  - apply dcm_element_set_value_binary_ok.
  - apply dcm_element_set_value_sequence_ok.
Qed.

(** *** The life of an element *)

Lemma mod2_even (x : Z) : (x mod 2 =? 0) = Z.even x.
Proof.
  rewrite Zeven_mod. reflexivity.
Qed.

Lemma element_set_length_fresh (t : Z) (v : DcmVR) (l : Z) :
  element_set_length (fresh_element t v 0) l
  = fresh_element t v (even_length32 l).
Proof.
  unfold element_set_length, fresh_element, even_length32. cbn.
  rewrite mod2_even. destruct (Z.even (wrap32 l)); reflexivity.
Qed.

Lemma dcm_element_create_run (tag_arg length_arg : Z) (w w' : World)
      (e : DcmElement) :
  dcm_element_create tag_arg length_arg w = Some (Some e, w') ->
  e = fresh_element tag_arg (dcm_dict_lookup_vr tag_arg)
                    (even_length32 length_arg) /\
  dcm_dict_lookup_vr tag_arg <> DCM_VR_uk /\
  error w' = error w.
Proof.
  unfold dcm_element_create. intros H.
  apply bind_Some in H. destruct H as (ok & w1 & Ha & H).
  assert (Herr : ok = true -> error w1 = error w).
  { unfold dcm_alloc in Ha. destruct w as [err al ds]. cbn in *.
    destruct al as [| [|] al]; inversion Ha; subst; auto; discriminate. }
  destruct ok; cbn [negb] in H; [| discriminate].
  fold (fresh_element tag_arg (dcm_dict_lookup_vr tag_arg) 0) in H.
  rewrite element_set_length_fresh in H. cbn [vr fresh_element] in H.
  destruct (vr_eqb (dcm_dict_lookup_vr tag_arg) DCM_VR_uk) eqn:Hu;
    [discriminate |].
  inversion H; subst. split; [reflexivity | split].
  - intros Heq. apply vr_eqb_eq in Heq. congruence.
  - auto.
Qed.

Lemma run_setters_invariants (l : list Setter) :
  forall (e : DcmElement) (w w' : World) (oks : list bool) (e' : DcmElement),
    Z.even (length e) = true ->
    run_setters l e w = Some ((oks, e'), w') ->
    tag e' = tag e /\ vr e' = vr e /\
    Z.even (length e') = true /\
    (assigned e = true -> assigned e' = true /\ ~ In true oks) /\
    (assigned e = false ->
     (count_occ bool_dec oks true <= 1)%nat /\
     (assigned e' = true <-> In true oks) /\
     (assigned e' = true ->
      vr e' = dcm_dict_lookup_vr (tag e') /\
      dcm_dict_vr_class (vr e') <> DCM_CLASS_ERROR)).
Proof.
  induction l as [| s l IH]; intros e w w' oks e' Hev H;
    cbn [run_setters] in H.
  - inversion H; subst.
    split; [reflexivity |]. split; [reflexivity |]. split; [exact Hev |].
    split.
    + intros Ha. split; [exact Ha | intros []].
    + intros Ha. cbn. split; [lia |].
      split; [split; [congruence | intros []] | congruence].
  - apply bind_Some in H. destruct H as ([ok e1] & w1 & Hs & H).
    apply bind_Some in H. destruct H as ([oks' e2] & w2 & Hl & H).
    inversion H; subst. cbn [fst snd]. clear H.
    apply run_setter_ok in Hs.
    destruct Hs as (Ht & Hv & Hev1 & Htrue & Hfalse).
    specialize (IH _ _ _ _ _ (Hev1 Hev) Hl).
    destruct IH as (Ht2 & Hv2 & Hev2 & Hwas & Hnot).
    split; [congruence |]. split; [congruence |]. split; [exact Hev2 |].
    split.
    + intros Ha. destruct ok.
      * destruct (Htrue eq_refl) as (Hx & _). congruence.
      * rewrite <- (Hfalse eq_refl) in Ha. destruct (Hwas Ha) as (Hy & Hn).
        split; [exact Hy |]. intros [Hin | Hin]; [discriminate | auto].
    + intros Ha. destruct ok.
      * destruct (Htrue eq_refl) as (_ & Ha1 & Hvr & Hcls).
        destruct (Hwas Ha1) as (Hy & Hn).
        cbn [count_occ]. destruct (bool_dec true true); [| congruence].
        assert (Hc : count_occ bool_dec oks' true = 0%nat)
          by (apply count_occ_not_In; exact Hn).
        rewrite Hc. split; [lia |]. split.
        { split; intros _; [left; reflexivity | exact Hy]. }
        intros _. rewrite Ht2, Hv2. auto.
      * assert (Ha1 : assigned e1 = false)
          by (rewrite (Hfalse eq_refl); exact Ha).
        destruct (Hnot Ha1) as (Hc & Hiff & Hvr).
        cbn [count_occ]. destruct (bool_dec false true); [discriminate |].
        split; [exact Hc |]. split; [| exact Hvr].
        rewrite Hiff. split; [intros Hin; right; exact Hin |].
        intros [Hin | Hin]; [discriminate | exact Hin].
Qed.

(** C1.  Take an element from [dcm_element_create] through any succession
    of setter calls.  At the end (hence after every prefix of the calls) its
    length is even and its tag and VR are those of its creation, the VR
    being the dictionary's for the tag; at most one of the calls has
    returned [true]; the element is assigned exactly when one has, so the
    flag goes from false to true at that call and at no other, and never
    back. *)
Theorem element_life_invariants (tag_arg length_arg : Z) (l : list Setter)
        (w0 w1 w2 : World) (e0 e : DcmElement) (oks : list bool) :
  dcm_element_create tag_arg length_arg w0 = Some (Some e0, w1) ->
  run_setters l e0 w1 = Some ((oks, e), w2) ->
  assigned e0 = false /\
  (count_occ bool_dec oks true <= 1)%nat /\
  (In true oks <-> assigned e = true) /\
  Z.even (length e) = true /\
  tag e = tag_arg /\
  vr e = dcm_dict_lookup_vr (tag e) /\
  (In true oks -> dcm_dict_vr_class (vr e) <> DCM_CLASS_ERROR).
Proof.
  intros Hc Hr. apply dcm_element_create_run in Hc.
  destruct Hc as (-> & Hu & _).
  apply run_setters_invariants in Hr.
  2:{ cbn. apply even_length32_even. }
  destruct Hr as (Ht & Hv & Hev & _ & Hnot). cbn in Ht, Hv.
  destruct (Hnot eq_refl) as (Hcount & Hiff & Hvr).
  split; [reflexivity |]. split; [exact Hcount |].
  split; [symmetry; exact Hiff |]. split; [exact Hev |].
  split; [exact Ht |]. split; [congruence |].
  intros Hin. apply Hvr. apply Hiff. exact Hin.
Qed.

(** C3 (as amended).  Every setter first tests the assigned flag: on an
    assigned element it returns [false], reports INVALID and leaves the
    element as it was.  Whenever a setter returns [false] the assigned flag,
    the tag and the VR are what they were, so an unassigned element stays
    unassigned; whenever it returns [true] the element was unassigned and is
    now assigned.  (What a rejected call has already written into [vm],
    [value] and a zero [length] stays written.) *)
Theorem setter_failure_keeps_identity (s : Setter) (e : DcmElement)
        (w : World) :
  (assigned e = true ->
   exists w', run_setter s e w = Some ((false, e), w') /\
              invalid_error w') /\
  (forall ok e' w',
      run_setter s e w = Some ((ok, e'), w') ->
      tag e' = tag e /\ vr e' = vr e /\
      (ok = false -> assigned e' = assigned e) /\
      (ok = true -> assigned e = false /\ assigned e' = true)).
Proof.
  destruct (run_setter_ok s e w) as (Hrefuse & Hstep). split.
  - intros Ha. destruct (Hrefuse Ha) as (w' & Hrun & Hinv & _).
    exists w'. auto.
  - intros ok e' w' H. destruct (Hstep _ _ _ H) as (A & B & _ & T & F).
    repeat split; auto; apply T; assumption.
Qed.

Lemma dcm_alloc_succeeds (w : World) :
  hd true (allocs w) = true ->
  dcm_alloc w = Some (true, mkWorld (error w) (tl (allocs w)) (destroyed w)).
Proof.
  unfold dcm_alloc. destruct w as [err al ds]. cbn.
  destruct al as [| [|] al]; cbn; intros H; try discriminate; reflexivity.
Qed.

(** With memory available and a tag the dictionary knows, the creation
    returns an unassigned element of that tag and VR, without a value, whose
    length is the provisional length made even in [uint32_t]. *)
Lemma dcm_element_create_known_tag (tag_arg length_arg : Z) (w : World) :
  dcm_dict_lookup_vr tag_arg <> DCM_VR_uk ->
  hd true (allocs w) = true ->
  dcm_element_create tag_arg length_arg w
  = Some (Some (fresh_element tag_arg (dcm_dict_lookup_vr tag_arg)
                              (even_length32 length_arg)),
          mkWorld (error w) (tl (allocs w)) (destroyed w)).
Proof.
  intros Hk Ha. unfold dcm_element_create, bind.
  rewrite (dcm_alloc_succeeds w Ha). cbn [negb].
  fold (fresh_element tag_arg (dcm_dict_lookup_vr tag_arg) 0).
  rewrite element_set_length_fresh. cbn [vr fresh_element].
  destruct (vr_eqb (dcm_dict_lookup_vr tag_arg) DCM_VR_uk) eqn:Hu.
  - apply vr_eqb_eq in Hu. congruence.
  - reflexivity.
Qed.

(** C5 (the code at the failing inputs).  For a tag the dictionary does not
    know, the creation destroys the element it had started and returns NULL
    without a call of [dcm_error_set]: the caller's error slot is what it
    was before the call, so a caller that passed an empty slot gets NULL and
    no error object. *)
Theorem dcm_element_create_unknown_tag (tag_arg length_arg : Z) (w : World) :
  dcm_dict_lookup_vr tag_arg = DCM_VR_uk ->
  hd true (allocs w) = true ->
  exists w',
    dcm_element_create tag_arg length_arg w = Some (None, w') /\
    error w' = error w.
Proof.
  intros Hu Ha. unfold dcm_element_create, bind.
  rewrite (dcm_alloc_succeeds w Ha). cbn [negb].
  fold (fresh_element tag_arg (dcm_dict_lookup_vr tag_arg) 0).
  rewrite element_set_length_fresh. cbn [vr fresh_element].
  rewrite Hu. cbn. eexists. split; reflexivity.
Qed.

(** *** Strings *)

Lemma strlen_nonneg (s : string) : 0 <= strlen s.
Proof. unfold strlen. lia. Qed.

Lemma sum_strlen_nonneg (values : list string) : 0 <= sum_strlen values.
Proof.
  unfold sum_strlen.
  induction values as [| v values IH]; cbn [fold_right]; [lia |].
  pose proof (strlen_nonneg v). lia.
Qed.

Lemma string_lengths_loop_sum (values : list string) (w : World) :
  forall (n : nat) (done : list string) (rest : list string) (acc : Z),
    values = done ++ rest ->
    n = List.length rest ->
    0 <= acc ->
    acc + sum_strlen rest < 2 ^ 64 ->
    string_lengths_loop values n (Z.of_nat (List.length done)) acc w
    = Some (acc + sum_strlen rest, w).
Proof.
  induction n as [| n IH]; intros done rest acc Hv Hn Hacc Hb.
  - destruct rest; [| discriminate]. cbn. unfold ret. f_equal. f_equal. lia.
  - destruct rest as [| v rest]; [discriminate |].
    cbn [string_lengths_loop]. rewrite Nat2Z.id.
    rewrite Hv, nth_error_app2 by lia. rewrite Nat.sub_diag. cbn [nth_error].
    pose proof (strlen_nonneg v). pose proof (sum_strlen_nonneg rest).
    cbn [sum_strlen fold_right] in Hb. fold (sum_strlen rest) in Hb.
    replace (Z.of_nat (List.length done) + 1)
      with (Z.of_nat (List.length (done ++ [v])))
      by (rewrite length_app; cbn; lia).
    rewrite <- Hv.
    unfold size_t_add, wrap64. rewrite Z.mod_small by lia.
    rewrite (IH (done ++ [v]) rest).
    + cbn [sum_strlen fold_right]. fold (sum_strlen rest).
      f_equal. f_equal. lia.
    + rewrite <- app_assoc. exact Hv.
    + cbn in Hn. lia.
    + lia.
    + lia.
Qed.

Lemma dcm_element_get_value_string_stored (e : DcmElement) (index : nat)
      (v : string) (w : World) :
  assigned e = true ->
  is_string_class (dcm_dict_vr_class (vr e)) = true ->
  Z.of_nat index < vm e ->
  stored_string e index = Some v ->
  dcm_element_get_value_string e (Z.of_nat index) w = Some (Some v, w).
Proof.
  intros Ha Hs Hi Hst. unfold dcm_element_get_value_string.
  pose proof (and_then_is (element_check_assigned_is e)
                (and_then_is (element_check_string_is e)
                   (element_check_index_is e (Z.of_nat index)))) as C.
  destruct (check_is_inv w C) as (w1 & Hrun & Htrue & _).
  unfold bind at 1. rewrite Hrun. clear Hrun.
  rewrite Ha, Hs in *. destruct (Z.ltb_spec (Z.of_nat index) (vm e)); [| lia].
  cbn [andb negb] in *. rewrite (Htrue eq_refl).
  unfold stored_string in Hst. unfold bind, read_single_str, read_multi_str.
  destruct (vm e =? 1); destruct (value e); try discriminate.
  - inversion Hst. reflexivity.
  - rewrite Nat2Z.id, Hst. reflexivity.
Qed.

Lemma check_capacity_loop_passes (e : DcmElement) (capacity : Z) (w : World) :
  assigned e = true ->
  is_string_class (dcm_dict_vr_class (vr e)) = true ->
  forall (n i : nat),
    Z.of_nat (i + n) <= vm e ->
    (forall j, (i <= j < i + n)%nat ->
               exists v, stored_string e j = Some v /\ strlen v <= capacity) ->
    check_capacity_loop e capacity n (Z.of_nat i) w = Some (true, w).
Proof.
  intros Ha Hs. induction n as [| n IH]; intros i Hb Hall.
  - reflexivity.
  - cbn [check_capacity_loop]. unfold bind.
    destruct (Hall i) as (v & Hst & Hcap); [lia |].
    rewrite (@dcm_element_get_value_string_stored e i v w Ha Hs); [| lia | exact Hst].
    destruct (Z.ltb_spec capacity (strlen v)); [lia |].
    replace (Z.of_nat i + 1) with (Z.of_nat (S i)) by lia.
    apply IH; [lia |]. intros j Hj. apply Hall. lia.
Qed.

(** A string element that is not yet assigned, carries the VR of its tag
    and holds [vm] strings within the capacity of the VR passes the
    validation, which assigns it. *)
Lemma dcm_element_validate_strings (e : DcmElement) (w : World) :
  assigned e = false ->
  vr e = dcm_dict_lookup_vr (tag e) ->
  is_string_class (dcm_dict_vr_class (vr e)) = true ->
  0 <= vm e ->
  (forall j, Z.of_nat j < vm e ->
             exists v, stored_string e j = Some v /\
                       strlen v <= wrap32 (dcm_dict_vr_capacity (vr e))) ->
  dcm_element_validate e w = Some ((true, set_assigned e true), w).
Proof.
  intros Ha Hvr Hs Hvm Hall. unfold dcm_element_validate.
  destruct (check_is_inv w (element_check_not_assigned_is e))
    as (w1 & Hrun & Htrue & _).
  unfold bind at 1. rewrite Hrun. clear Hrun. rewrite Ha in *.
  cbn [negb] in *. rewrite (Htrue eq_refl). clear Htrue.
  assert (Hv : vr_eqb (vr e) (dcm_dict_lookup_vr (tag e)) = true)
    by (apply vr_eqb_eq; exact Hvr).
  rewrite Hv. cbn [negb orb].
  assert (Hcls : class_eqb (dcm_dict_vr_class (vr e)) DCM_CLASS_ERROR = false
                 /\ class_eqb (dcm_dict_vr_class (vr e)) DCM_CLASS_NUMERIC
                    = false).
  { unfold is_string_class in Hs.
    destruct (dcm_dict_vr_class (vr e)); cbn in *; auto; discriminate. }
  destruct Hcls as (-> & ->). cbn [andb]. rewrite Hs.
  unfold bind, element_check_capacity, bind.
  assert (Hfields : vm (set_assigned e true) = vm e /\
                    vr (set_assigned e true) = vr e /\
                    assigned (set_assigned e true) = true /\
                    forall j, stored_string (set_assigned e true) j
                              = stored_string e j).
  { destruct e; cbn. repeat split; reflexivity. }
  destruct Hfields as (Hm & Hr & Has & Hst).
  rewrite (@check_capacity_loop_passes (set_assigned e true) _ w Has
             ltac:(rewrite Hr; exact Hs) (Z.to_nat (vm (set_assigned e true))) 0%nat).
  - cbn. rewrite set_assigned_restore. reflexivity.
  - rewrite Hm. lia.
  - intros j Hj. rewrite Hst. apply Hall. rewrite Hm in Hj. lia.
Qed.

Lemma split_backslash_not_nil (s : string) : split_backslash s <> [].
Proof.
  induction s as [| c s IH]; cbn; [discriminate |].
  destruct (Ascii.eqb c "\"%char); [discriminate |].
  destruct (split_backslash s); discriminate.
Qed.

Lemma stored_string_value (e : DcmElement) (values : list string) :
  values <> [] ->
  vm e = Z.of_nat (List.length values) ->
  value e = string_value values ->
  forall j, Z.of_nat j < vm e -> stored_string e j = nth_error values j.
Proof.
  intros Hne Hvm Hval j Hj. unfold stored_string. rewrite Hval, Hvm.
  destruct values as [| v [| v' values]]; [congruence | |].
  - cbn. rewrite Hvm in Hj. cbn in Hj.
    destruct j; [reflexivity | lia].
  - cbn [List.length string_value].
    destruct (Z.eqb_spec (Z.of_nat (S (S (List.length values)))) 1); [lia |].
    reflexivity.
Qed.

(** The multi-valued string setter on an unassigned element of a
    multi-valued string VR, given one string per value, each within the
    capacity of the VR. *)
Lemma dcm_element_set_value_string_multi_run (e : DcmElement)
      (values : list string) (steal : bool) (w : World) :
  assigned e = false ->
  vr e = dcm_dict_lookup_vr (tag e) ->
  dcm_dict_vr_class (vr e) = DCM_CLASS_STRING_MULTI ->
  values <> [] ->
  Forall (fun v => strlen v <= wrap32 (dcm_dict_vr_capacity (vr e))) values ->
  encoded_length values < 2 ^ 64 ->
  let e1 :=
    set_assigned
      (element_set_length
         (set_vm (set_value e (string_value values))
                 (Z.of_nat (List.length values)))
         (encoded_length values)) true in
  dcm_element_set_value_string_multi
    e values (Z.of_nat (List.length values)) steal w
  = Some ((true, if steal then set_value_pointer_array e1 true else e1), w).
Proof.
  intros Ha Hvr Hcls Hne Hcap Hlen e1.
  unfold dcm_element_set_value_string_multi.
  pose proof (and_then_is (element_check_not_assigned_is e)
                          (element_check_string_is e)) as C.
  destruct (check_is_inv w C) as (w1 & Hrun & Htrue & _).
  unfold bind at 1. rewrite Hrun. clear Hrun.
  assert (Hs : is_string_class (dcm_dict_vr_class (vr e)) = true)
    by (rewrite Hcls; reflexivity).
  rewrite Ha, Hs in *. cbn [negb andb] in *. rewrite (Htrue eq_refl).
  clear Htrue C w1.
  set (n := Z.of_nat (List.length values)).
  match goal with
  | |- bind ?m _ _ = _ =>
      assert (Hstep1 :
                m w = Some (Some (set_vm (set_value e (string_value values))
                                         n), w))
  end.
  { destruct values as [| v [| v' values]]; [congruence | |].
    - reflexivity.
    - subst n. cbn [List.length].
      destruct (Z.eqb_spec (Z.of_nat (S (S (List.length values)))) 1);
        [lia |].
      cbv zeta. rewrite Hcls. reflexivity. }
  unfold bind at 1. rewrite Hstep1. clear Hstep1.
  assert (Hloop : string_lengths_loop values (Z.to_nat n) 0 0 w
                  = Some (0 + sum_strlen values, w)).
  { apply (@string_lengths_loop_sum values w (Z.to_nat n) [] values 0).
    - reflexivity.
    - subst n. rewrite Nat2Z.id. reflexivity.
    - lia.
    - unfold encoded_length in Hlen. fold n in Hlen.
      assert (0 < n) by (subst n; destruct values; [congruence | cbn; lia]).
      lia. }
  unfold bind at 1. rewrite Hloop. clear Hloop.
  assert (Hsum :
            (if 1 <? n then size_t_add (0 + sum_strlen values) (n - 1)
             else 0 + sum_strlen values) = encoded_length values).
  { unfold encoded_length. fold n.
    pose proof (sum_strlen_nonneg values).
    assert (0 < n) by (subst n; destruct values; [congruence | cbn; lia]).
    destruct (Z.ltb_spec 1 n).
    - unfold size_t_add, wrap64. unfold encoded_length in Hlen. fold n in Hlen.
      rewrite Z.mod_small; lia.
    - lia. }
  cbv zeta. rewrite Hsum. clear Hsum.
  set (e0 := element_set_length
               (set_vm (set_value e (string_value values)) n)
               (encoded_length values)).
  assert (Hf : tag e0 = tag e /\ vr e0 = vr e /\ vm e0 = n /\
               assigned e0 = false /\ value e0 = string_value values).
  { subst e0.
    match goal with
    | |- context [element_set_length ?x ?l] =>
        destruct (element_set_length_fields x l) as (A & B & C & D & E)
    end.
    rewrite A, B, C, D, E. destruct e; cbn in *. auto. }
  destruct Hf as (Ht & Hv & Hm & Has & Hval).
  unfold bind at 1.
  rewrite (@dcm_element_validate_strings e0 w).
  - cbn [negb]. fold e1. destruct steal; reflexivity.
  - exact Has.
  - rewrite Hv, Ht. exact Hvr.
  - rewrite Hv. exact Hs.
  - rewrite Hm. subst n. lia.
  - intros j Hj. rewrite (@stored_string_value e0 values Hne Hm Hval j Hj).
    rewrite Hm in Hj. subst n.
    destruct (nth_error values j) as [v |] eqn:En.
    + exists v. split; [reflexivity |]. rewrite Hv.
      rewrite Forall_forall in Hcap. apply Hcap.
      eapply nth_error_In. exact En.
    + apply nth_error_None in En. lia.
Qed.

(** C7 (as amended).  On an unassigned element of a multi-valued string VR,
    with memory available and every value within the capacity of the VR,
    [dcm_element_set_value_string] succeeds: the input is split on the
    backslash into [vm] values that the element owns, the string getter
    returns each of them at its index, and the length, when the element had
    none (zero) before, is the sum of the byte lengths of the values plus
    [vm - 1] separators, made even; a length the element already has stays
    as it is. *)
Theorem dcm_element_set_value_string_splits (e : DcmElement) (s : string)
        (w : World) :
  assigned e = false ->
  vr e = dcm_dict_lookup_vr (tag e) ->
  dcm_dict_vr_class (vr e) = DCM_CLASS_STRING_MULTI ->
  hd true (allocs w) = true ->
  Forall (fun v => strlen v <= wrap32 (dcm_dict_vr_capacity (vr e)))
         (split_backslash s) ->
  encoded_length (split_backslash s) < 2 ^ 32 - 1 ->
  exists e' w',
    dcm_element_set_value_string e s w = Some ((true, e'), w') /\
    assigned e' = true /\
    vm e' = Z.of_nat (List.length (split_backslash s)) /\
    value_pointer_array e' = true /\
    (forall i v,
        nth_error (split_backslash s) i = Some v ->
        dcm_element_get_value_string e' (Z.of_nat i) w' = Some (Some v, w')) /\
    length e'
    = (if length e =? 0 then
         if Z.even (encoded_length (split_backslash s))
         then encoded_length (split_backslash s)
         else encoded_length (split_backslash s) + 1
       else length e).
Proof.
  intros Ha Hvr Hcls Hmem Hcap Hlen.
  set (values := split_backslash s) in *.
  assert (Hne : values <> []) by apply split_backslash_not_nil.
  assert (Hn0 : 0 <= encoded_length values).
  { unfold encoded_length. pose proof (sum_strlen_nonneg values).
    destruct values; [congruence | cbn [List.length]; lia]. }
  assert (Hn : Z.of_nat (List.length values) < 2 ^ 32).
  { unfold encoded_length in Hlen. pose proof (sum_strlen_nonneg values).
    lia. }
  unfold dcm_element_set_value_string, element_set_value_string.
  pose proof (and_then_is (element_check_not_assigned_is e)
                          (element_check_string_is e)) as C.
  destruct (check_is_inv w C) as (w1 & Hrun & Htrue & _).
  unfold bind at 1. rewrite Hrun. clear Hrun.
  assert (Hs : is_string_class (dcm_dict_vr_class (vr e)) = true)
    by (rewrite Hcls; reflexivity).
  rewrite Ha, Hs in *. cbn [negb andb] in *. rewrite (Htrue eq_refl).
  clear Htrue C w1.
  assert (Hk : class_eqb (dcm_dict_vr_class (vr e)) DCM_CLASS_STRING_MULTI
               = true) by (apply class_eqb_eq; exact Hcls).
  cbv zeta. rewrite Hk.
  unfold bind at 1. unfold bind at 1.
  unfold dcm_parse_character_string, bind at 1.
  rewrite (dcm_alloc_succeeds w Hmem). cbn [negb]. unfold ret at 1.
  fold values. unfold wrap32 at 1. rewrite Z.mod_small by lia.
  unfold bind at 1.
  rewrite (@dcm_element_set_value_string_multi_run e values true _
             Ha Hvr Hcls Hne Hcap ltac:(lia)).
  cbn [negb]. unfold ret.
  eexists. eexists. split; [reflexivity |].
  match goal with
  | |- context [element_set_length ?x ?l] =>
      destruct (element_set_length_fields x l) as (A & B & C & D & E);
      pose proof (element_set_length_length x l) as L;
      set (e0 := element_set_length x l) in *
  end.
  assert (Hfin :
            forall y, y = set_value_pointer
                            (set_value_pointer_array (set_assigned e0 true)
                                                     true) true ->
                      assigned y = true /\ vm y = vm e0 /\ vr y = vr e0 /\
                      value y = value e0 /\ length y = length e0 /\
                      value_pointer_array y = true).
  { intros y ->. destruct e0; cbn. repeat split; reflexivity. }
  destruct (Hfin _ eq_refl) as (F1 & F2 & F3 & F4 & F5 & F6). clear Hfin.
  assert (Hvm0 : vm e0 = Z.of_nat (List.length values))
    by (rewrite C; destruct e; reflexivity).
  assert (Hval0 : value e0 = string_value values)
    by (rewrite E; destruct e; reflexivity).
  assert (Hvr0 : vr e0 = vr e) by (rewrite B; destruct e; reflexivity).
  split; [exact F1 |]. split; [congruence |]. split; [exact F6 |]. split.
  - intros i v Hi. apply dcm_element_get_value_string_stored.
    + exact F1.
    + rewrite F3, Hvr0. exact Hs.
    + rewrite F2, Hvm0.
      assert (i < List.length values)%nat
        by (apply nth_error_Some; congruence).
      lia.
    + rewrite <- Hi. apply stored_string_value.
      * exact Hne.
      * congruence.
      * congruence.
      * rewrite F2, Hvm0.
        assert (i < List.length values)%nat
          by (apply nth_error_Some; congruence).
        lia.
  - rewrite F5, L.
    replace (length (set_vm (set_value e (string_value values))
                            (Z.of_nat (List.length values))))
      with (length e) by (destruct e; reflexivity).
    rewrite even_length32_small by lia. reflexivity.
Qed.

End ElementFacts.

(** *** The scenarios *)

Lemma element_life_invariants_witness :
  exists e oks w,
    dcm_element_create (dict := scenario_dict) 0x00100010 0 world0
    = Some (Some (fresh_element 0x00100010 DCM_VR_PN 0), world0) /\
    run_setters (dict := scenario_dict) (fconv := scenario_fconv)
      [set_integer 5; set_string "Doe^John\Smith^Jane"; set_string "x"]
      (fresh_element 0x00100010 DCM_VR_PN 0) world0
    = Some ((oks, e), w) /\
    oks = [false; true; false] /\
    (In true oks <-> assigned e = true) /\
    Z.even (length e) = true /\
    vr e = DCM_VR_PN.
Proof.
  eexists. eexists. eexists.
  split; [vm_compute; reflexivity |].
  split; [vm_compute; reflexivity |].
  split; [reflexivity |].
  pose proof (@element_life_invariants scenario_dict scenario_fconv
                0x00100010 0
                [set_integer 5; set_string "Doe^John\Smith^Jane";
                 set_string "x"]
                world0 world0 _ _ _ _
                ltac:(vm_compute; reflexivity)
                ltac:(vm_compute; reflexivity))
    as (_ & _ & Hiff & Hev & _ & Hvr & _).
  split; [exact Hiff |]. split; [exact Hev |]. exact Hvr.
Defined.

Lemma setter_failure_keeps_identity_witness :
  exists e' w',
    dcm_element_set_value_integer (dict := scenario_dict)
      (fconv := scenario_fconv)
      (fresh_element 0x00280010 DCM_VR_US 4) 512 world0
    = Some ((false, e'), w') /\
    assigned e' = false /\ tag e' = 0x00280010 /\ vr e' = DCM_VR_US.
Proof.
  eexists. eexists. split; [vm_compute; reflexivity |].
  destruct (@setter_failure_keeps_identity scenario_dict scenario_fconv
              (set_integer 512) (fresh_element 0x00280010 DCM_VR_US 4)
              world0) as (_ & H).
  destruct (H _ _ _ ltac:(vm_compute; reflexivity)) as (Ht & Hv & Hf & _).
  split; [exact (Hf eq_refl) |]. split; [exact Ht | exact Hv].
Defined.

(** C3 (counterexample to the claim as stated).  A Pixel Spacing element
    (VR [DS], capacity 16) is created with no length and given a value of 19
    characters: the setter returns [false] and reports INVALID, and the
    element, still unassigned, now has [vm] 1, length 20 and the rejected
    string as its value. *)
Lemma rejected_string_is_written :
  dcm_element_create (dict := scenario_dict) 0x00280030 0 world0
  = Some (Some (fresh_element 0x00280030 DCM_VR_DS 0), world0) /\
  dcm_element_set_value_string (dict := scenario_dict)
    (fresh_element 0x00280030 DCM_VR_DS 0) "0.12345678901234567" world0
  = Some ((false,
           mkElement 0x00280030 DCM_VR_DS 20 1 false
                     (single_str "0.12345678901234567") false false false),
          mkWorld
            (Some (mkError DCM_ERROR_CODE_INVALID
                     "Data Element capacity check failed"
                     "Value of Data Element '%08X' exceeds maximum length of Value Representation"))
            [] [freed_string_array ["0.12345678901234567"]]) /\
  vm (fresh_element 0x00280030 DCM_VR_DS 0) <> 1 /\
  length (fresh_element 0x00280030 DCM_VR_DS 0) <> 20.
Proof.
  split; [vm_compute; reflexivity |].
  split; [vm_compute; reflexivity |].
  split; cbn; discriminate.
Qed.

Lemma dcm_element_create_unknown_tag_witness :
  dcm_dict_lookup_vr (Dictionary := scenario_dict) 0x12345678 = DCM_VR_uk /\
  exists w',
    dcm_element_create (dict := scenario_dict) 0x12345678 4 world0
    = Some (None, w') /\
    error w' = None.
Proof.
  split; [reflexivity |].
  apply (@dcm_element_create_unknown_tag scenario_dict 0x12345678 4 world0);
    reflexivity.
Defined.

Lemma dcm_element_set_value_string_splits_witness :
  exists e' w',
    dcm_element_set_value_string (dict := scenario_dict)
      (fresh_element 0x00100010 DCM_VR_PN 0) "Doe^John\Smith^Jane" world0
    = Some ((true, e'), w') /\
    vm e' = 2 /\
    dcm_element_get_value_string (dict := scenario_dict) e' 0 w'
    = Some (Some "Doe^John", w') /\
    dcm_element_get_value_string (dict := scenario_dict) e' 1 w'
    = Some (Some "Smith^Jane", w') /\
    length e' = 20.
Proof.
  destruct (@dcm_element_set_value_string_splits scenario_dict
              (fresh_element 0x00100010 DCM_VR_PN 0)
              "Doe^John\Smith^Jane" world0)
    as (e' & w' & Hrun & _ & Hvm & _ & Hget & Hlen).
  - reflexivity.
  - reflexivity.
  - reflexivity.
  - reflexivity.
  - vm_compute. repeat constructor; discriminate.
  - vm_compute. reflexivity.
  - exists e', w'. split; [exact Hrun |]. split; [exact Hvm |].
    split; [exact (Hget 0%nat "Doe^John" eq_refl) |].
    split; [exact (Hget 1%nat "Smith^Jane" eq_refl) |].
    exact Hlen.
Defined.

(** C7 (counterexample to the claim as stated).  A Patient's Name element
    created with the provisional length 4 and set to two names has [vm] 2
    and still the length 4, not the 20 bytes of its value. *)
Lemma provisional_length_is_kept :
  dcm_element_create (dict := scenario_dict) 0x00100010 4 world0
  = Some (Some (fresh_element 0x00100010 DCM_VR_PN 4), world0) /\
  dcm_element_set_value_string (dict := scenario_dict)
    (fresh_element 0x00100010 DCM_VR_PN 4) "Doe^John\Smith^Jane" world0
  = Some ((true,
           mkElement 0x00100010 DCM_VR_PN 4 2 true
                     (multi_str ["Doe^John"; "Smith^Jane"]) true true false),
          world0) /\
  encoded_length (split_backslash "Doe^John\Smith^Jane") = 19.
Proof.
  split; [vm_compute; reflexivity |].
  split; vm_compute; reflexivity.
Qed.

(** Scenario 2 of the specification: Rows (VR [US]) set to 512. *)
Example rows_set_to_512 :
  dcm_element_set_value_integer (dict := scenario_dict)
    (fconv := scenario_fconv) (fresh_element 0x00280010 DCM_VR_US 0) 512
    world0
  = Some ((true,
           mkElement 0x00280010 DCM_VR_US 2 1 true (single_num 512) false
                     false false),
          world0).
Proof. vm_compute. reflexivity. Qed.

(** Scenario 6 of the specification: the offsets of the first and the third
    frame of a table of three. *)
Example three_frame_offsets :
  dcm_bot_get_frame_offset (mkBOT 3 [0; 100; 250] 12) 1 = Some 12 /\
  dcm_bot_get_frame_offset (mkBOT 3 [0; 100; 250] 12) 3 = Some 262.
Proof. split; vm_compute; reflexivity. Qed.

(** ** Tag order *)

(** On tags less than [2^31] apart the comparison is the sign of their
    difference. *)
Lemma compare_tags_small (a b : Z) :
  - 2 ^ 31 <= a - b < 2 ^ 31 -> compare_tags a b = a - b.
Proof.
  intros H. unfold compare_tags, to_signed, wrap32.
  rewrite Z.mod_mod by lia. change (2 ^ (32 - 1)) with (2 ^ 31).
  destruct (Z_lt_le_dec (a - b) 0) as [Hneg | Hpos].
  - assert (E : (a - b) mod 2 ^ 32 = a - b + 2 ^ 32).
    { symmetry. apply Z.mod_unique with (q := -1); lia. }
    rewrite E. destruct (Z.ltb_spec (a - b + 2 ^ 32) (2 ^ 31)); lia.
  - rewrite Z.mod_small by lia.
    destruct (Z.ltb_spec (a - b) (2 ^ 31)); lia.
Qed.

Lemma qsort_insert_perm (cmp : Z -> Z -> Z) (x : Z) (l : list Z) :
  Permutation (x :: l) (qsort_insert cmp x l).
Proof.
  induction l as [| y l IH]; cbn; [apply Permutation_refl |].
  destruct (cmp x y <=? 0); [apply Permutation_refl |].
  eapply perm_trans; [apply perm_swap |]. apply perm_skip. exact IH.
Qed.

Lemma qsort_all_perm (cmp : Z -> Z -> Z) (l : list Z) :
  Permutation l (qsort_all cmp l).
Proof.
  induction l as [| x l IH]; cbn; [apply perm_nil |].
  eapply perm_trans; [| apply qsort_insert_perm]. apply perm_skip. exact IH.
Qed.

Lemma qsort_insert_sorted (x : Z) (l : list Z) :
  low_tag x -> Forall low_tag l ->
  Sorted Z.le l -> Sorted Z.le (qsort_insert compare_tags x l).
Proof.
  intros Hx Hl Hs. induction Hs as [| y l Hs IH Hhd]; cbn.
  - repeat constructor.
  - inversion Hl as [| ? ? Hy Hl']; subst.
    unfold low_tag in *. rewrite compare_tags_small by lia.
    destruct (Z.leb_spec (x - y) 0).
    + constructor; [constructor; assumption |]. constructor. lia.
    + constructor; [apply IH; assumption |].
      destruct l as [| z l]; cbn.
      * constructor. lia.
      * inversion Hl' as [| ? ? Hz _]; subst.
        rewrite compare_tags_small by lia.
        inversion Hhd; subst.
        destruct (Z.leb_spec (x - z) 0); constructor; lia.
Qed.

Lemma qsort_all_sorted (l : list Z) :
  Forall low_tag l -> Sorted Z.le (qsort_all compare_tags l).
Proof.
  induction l as [| x l IH]; intros Hl; cbn; [constructor |].
  inversion Hl; subst. apply qsort_insert_sorted; auto.
  eapply Permutation_Forall; [apply qsort_all_perm | assumption].
Qed.

Lemma sorted_nodup_strict (l : list Z) :
  Sorted Z.le l -> NoDup l -> Sorted Z.lt l.
Proof.
  intros Hs. induction Hs as [| x l Hs IH Hhd]; intros Hn; [constructor |].
  inversion Hn as [| ? ? Hnin Hn']; subst.
  constructor; [apply IH; exact Hn' |].
  destruct Hhd as [| y l Hxy]; constructor.
  destruct (Z.eq_dec x y) as [-> | Hne]; [| lia].
  exfalso. apply Hnin. left. reflexivity.
Qed.

Lemma array_store_app (done : list Z) (y : Z) (rest : list Z) (x : Z) :
  array_store (done ++ y :: rest) (List.length done) x
  = Some (done ++ x :: rest).
Proof.
  induction done as [| d done IH]; cbn; [reflexivity |].
  rewrite IH. reflexivity.
Qed.

Lemma firstn_length_app {A} (l1 l2 : list A) (n : nat) :
  n = List.length l1 -> firstn n (l1 ++ l2) = l1.
Proof.
  intros ->. rewrite firstn_app, firstn_all, Nat.sub_diag, firstn_O.
  apply app_nil_r.
Qed.

Lemma skipn_length_app {A} (l1 l2 : list A) (n : nat) :
  n = List.length l1 -> skipn n (l1 ++ l2) = l2.
Proof.
  intros ->. rewrite skipn_app, skipn_all, Nat.sub_diag, skipn_O.
  reflexivity.
Qed.

(** The copying loop fills the array, from the cell it starts at, with the
    tags of the elements in insertion order, until the elements or the [n]
    cells run out. *)
Lemma copy_tags_loop_run (w : World) :
  forall (els : list DcmElement) (done rest : list Z) (n : Z),
    let k := Nat.min (List.length els)
                     (Z.to_nat (n - Z.of_nat (List.length done))) in
    (k <= List.length rest)%nat ->
    copy_tags_loop els (done ++ rest) (Z.of_nat (List.length done)) n w
    = Some (done ++ map tag (firstn k els) ++ skipn k rest, w).
Proof.
  induction els as [| e els IH]; intros done rest n k Hk;
    cbn [copy_tags_loop].
  - reflexivity.
  - destruct (Z.ltb_spec (Z.of_nat (List.length done)) n).
    + assert (Ek : k = S (Nat.min (List.length els)
                            (Z.to_nat (n - Z.of_nat (List.length done) - 1)))).
      { subst k. cbn [List.length]. lia. }
      rewrite Ek in *. clear Ek k.
      destruct rest as [| y rest]; [cbn in Hk; lia |].
      rewrite Nat2Z.id, array_store_app.
      replace (Z.of_nat (List.length done) + 1)
        with (Z.of_nat (List.length (done ++ [tag e])))
        by (rewrite length_app; cbn; lia).
      replace (done ++ tag e :: rest) with ((done ++ [tag e]) ++ rest)
        by (rewrite <- app_assoc; reflexivity).
      rewrite IH.
      * rewrite <- app_assoc.
        replace (Z.to_nat (n - Z.of_nat (List.length (done ++ [tag e]))))
          with (Z.to_nat (n - Z.of_nat (List.length done) - 1))
          by (rewrite length_app; cbn; lia).
        reflexivity.
      * replace (Z.to_nat (n - Z.of_nat (List.length (done ++ [tag e]))))
          with (Z.to_nat (n - Z.of_nat (List.length done) - 1))
          by (rewrite length_app; cbn; lia).
        cbn [List.length] in Hk. lia.
    + assert (Ek : k = 0%nat) by (subst k; lia).
      rewrite Ek. reflexivity.
Qed.

(** Where the tags to sort are all below [2^31], so that no difference of
    two of them leaves the range of [int], the first [n] tags come out in
    strictly ascending order. *)
Lemma dcm_dataset_copy_tags_low (ds : DcmDataSet) (tags : list Z) (n : Z)
      (w : World) :
  0 <= n <= Z.of_nat (List.length (elements ds)) ->
  n <= Z.of_nat (List.length tags) ->
  Forall low_tag (map tag (firstn (Z.to_nat n) (elements ds))) ->
  NoDup (map tag (firstn (Z.to_nat n) (elements ds))) ->
  exists sorted,
    dcm_dataset_copy_tags ds tags n w
    = Some (sorted ++ skipn (Z.to_nat n) tags, w) /\
    Sorted Z.lt sorted /\
    Permutation (map tag (firstn (Z.to_nat n) (elements ds))) sorted.
Proof.
  intros Hn Ht Hlow Hnd.
  set (first := map tag (firstn (Z.to_nat n) (elements ds))) in *.
  exists (qsort_all compare_tags first).
  assert (Hlen : List.length first = Z.to_nat n).
  { subst first. rewrite length_map, length_firstn. lia. }
  split; [| split].
  - unfold dcm_dataset_copy_tags, bind.
    pose proof (@copy_tags_loop_run w (elements ds) [] tags n) as Hrun.
    cbn [List.length app Z.of_nat] in Hrun.
    rewrite Z.sub_0_r in Hrun.
    replace (Nat.min (List.length (elements ds)) (Z.to_nat n))
      with (Z.to_nat n) in Hrun by lia.
    rewrite Hrun by lia. fold first.
    unfold qsort.
    destruct (Z.ltb_spec
                (Z.of_nat (List.length (first ++ skipn (Z.to_nat n) tags)))
                n) as [Hlt | _].
    { rewrite length_app, length_skipn in Hlt. lia. }
    unfold ret.
    rewrite (firstn_length_app first _ (eq_sym Hlen)).
    rewrite (skipn_length_app first _ (eq_sym Hlen)). reflexivity.
  - apply sorted_nodup_strict.
    + apply qsort_all_sorted. exact Hlow.
    + eapply Permutation_NoDup; [apply qsort_all_perm | exact Hnd].
  - apply qsort_all_perm.
Qed.

(** C4 (the code at the failing input).  A data set holds SOP Instance UID
    (0008,0018) and Data Set Trailing Padding (FFFC,FFFC).  The difference
    of the two tags, taken in [uint32_t] and read as an [int], is positive
    for the smaller tag against the larger: the comparison ranks the larger
    tag first and the array comes back in descending order. *)
Theorem dcm_dataset_copy_tags_descending :
  dcm_dataset_copy_tags (mkDataSet [sop_instance_uid; trailing_padding] false)
                        [0; 0] 2 world0
  = Some ([0xFFFCFFFC; 0x00080018], world0) /\
  compare_tags 0x00080018 0xFFFCFFFC = 0x000B001C /\
  compare_tags 0xFFFCFFFC 0x00080018 = - 0x000B001C /\
  ~ Sorted Z.lt [0xFFFCFFFC; 0x00080018].
Proof.
  split; [vm_compute; reflexivity |].
  split; [vm_compute; reflexivity |].
  split; [vm_compute; reflexivity |].
  intros H. inversion H as [| ? ? _ Hhd]; subst.
  inversion Hhd; subst. lia.
Qed.

(** ** Memory that stays available *)

Lemma keeps_memory_ret {A} (a : A) : keeps_memory (ret a).
Proof. intros w a0 w' Hw H. inversion H; subst. exact Hw. Qed.

Lemma keeps_memory_abort {A} : keeps_memory (@abort A).
Proof. intros w a w' _ H. discriminate. Qed.

Lemma keeps_memory_bind {A B} (m : M A) (k : A -> M B) :
  keeps_memory m -> (forall a, keeps_memory (k a)) -> keeps_memory (bind m k).
Proof.
  intros Hm Hk w b w' Hw H. apply bind_Some in H.
  destruct H as (a & w1 & H1 & H2).
  eapply Hk; [| exact H2]. eapply Hm; eassumption.
Qed.

Lemma keeps_memory_error_set (c : DcmErrorCode) (summary message : string) :
  keeps_memory (dcm_error_set c summary message).
Proof. intros w a w' Hw H. inversion H; subst. exact Hw. Qed.

Lemma keeps_memory_log_all (l : list Destroyed) : keeps_memory (log_all l).
Proof. intros w a w' Hw H. inversion H; subst. exact Hw. Qed.

Lemma keeps_memory_alloc : keeps_memory dcm_alloc.
Proof.
  intros w a w' Hw H. unfold dcm_alloc in H. rewrite Hw in H.
  inversion H; subst. exact Hw.
Qed.

Lemma keeps_memory_raw_alloc : keeps_memory raw_alloc.
Proof.
  intros w a w' Hw H. unfold raw_alloc in H. rewrite Hw in H.
  inversion H; subst. exact Hw.
Qed.

Lemma keeps_memory_check (m : M bool) (c : bool) :
  check_is m c -> keeps_memory m.
Proof.
  intros C w a w' Hw H.
  destruct (check_is_inv w C) as (w1 & Hrun & Htrue & Hfalse).
  rewrite Hrun in H. injection H as _ <-.
  destruct c.
  - rewrite (Htrue eq_refl). exact Hw.
  - destruct (Hfalse eq_refl) as (_ & Hal & _). rewrite Hal. exact Hw.
Qed.

Create HintDb memory.

#[local] Hint Resolve keeps_memory_ret keeps_memory_abort
  keeps_memory_error_set keeps_memory_log_all keeps_memory_alloc
  keeps_memory_raw_alloc : memory.

(** One step through the body of a function: a call that keeps memory
    available, then the rest, by cases on what the code tests. *)
Ltac keeps_step :=
  first
    [ solve [auto with memory]
    | apply keeps_memory_bind; [| intros ?]
    | match goal with
      | |- keeps_memory (match ?x with _ => _ end) => destruct x
      end ].

Ltac keeps := cbv zeta; repeat keeps_step.

Section KeepsMemory.

Context {dict : Dictionary} {fconv : FloatConversions}.

Lemma keeps_memory_element_destroy (e : DcmElement) :
  keeps_memory (dcm_element_destroy e).
Proof. apply keeps_memory_log_all. Qed.

Lemma keeps_memory_sequence_destroy_ptr (s : option DcmSequence) :
  keeps_memory (dcm_sequence_destroy_ptr s).
Proof. destruct s; [apply keeps_memory_log_all | apply keeps_memory_ret]. Qed.

Lemma keeps_memory_dataset_destroy (d : DcmDataSet) :
  keeps_memory (dcm_dataset_destroy d).
Proof. apply keeps_memory_log_all. Qed.

#[local] Hint Resolve keeps_memory_element_destroy
  keeps_memory_sequence_destroy_ptr keeps_memory_dataset_destroy : memory.

Lemma keeps_memory_validate (e : DcmElement) :
  keeps_memory (dcm_element_validate e).
Proof.
  intros w [ok e'] w' Hw H. apply dcm_element_validate_run in H.
  destruct H as [(_ & _ & _ & _ & _ & ->) | (_ & _ & _ & Hal & _)].
  - exact Hw.
  - rewrite Hal. exact Hw.
Qed.

Lemma keeps_memory_element_create (tag_arg length_arg : Z) :
  keeps_memory (dcm_element_create tag_arg length_arg).
Proof. unfold dcm_element_create. keeps. Qed.

Lemma keeps_memory_sequence_get (seq : DcmSequence) (index : Z) :
  keeps_memory (dcm_sequence_get seq index).
Proof. unfold dcm_sequence_get. keeps. Qed.

Lemma keeps_memory_sequence_create : keeps_memory dcm_sequence_create.
Proof. unfold dcm_sequence_create. keeps. Qed.

Lemma keeps_memory_sequence_append (seq : DcmSequence) (item : DcmDataSet) :
  keeps_memory (dcm_sequence_append seq item).
Proof.
  unfold dcm_sequence_append, create_sequence_item, utarray_push_back,
    copy_sequence_item_icd.
  keeps.
Qed.

Lemma keeps_memory_dataset_create : keeps_memory dcm_dataset_create.
Proof. unfold dcm_dataset_create. keeps. Qed.

Lemma keeps_memory_dataset_insert (d : DcmDataSet) (e : DcmElement) :
  keeps_memory (dcm_dataset_insert d e).
Proof. unfold dcm_dataset_insert. keeps. Qed.

Lemma keeps_memory_get_value_sequence (e : DcmElement) :
  keeps_memory (dcm_element_get_value_sequence e).
Proof.
  unfold dcm_element_get_value_sequence.
  apply keeps_memory_bind.
  - eapply keeps_memory_check.
    apply (and_then_is (element_check_assigned_is e)
                       (element_check_sequence_is e)).
  - intros ok. keeps.
Qed.

#[local] Hint Resolve keeps_memory_validate keeps_memory_element_create
  keeps_memory_sequence_get keeps_memory_sequence_create
  keeps_memory_sequence_append keeps_memory_dataset_create
  keeps_memory_dataset_insert keeps_memory_get_value_sequence : memory.

Lemma keeps_memory_sequence_length_loop (n : nat) :
  forall (value_arg : DcmSequence) (i length_acc : Z),
    keeps_memory (sequence_length_loop value_arg n i length_acc).
Proof.
  induction n as [| n IH]; intros value_arg i length_acc;
    cbn [sequence_length_loop]; keeps.
  all: try apply IH.
Qed.

#[local] Hint Resolve keeps_memory_sequence_length_loop : memory.

Lemma keeps_memory_set_value_sequence (e : DcmElement)
      (value_arg : option DcmSequence) :
  keeps_memory (dcm_element_set_value_sequence e value_arg).
Proof.
  unfold dcm_element_set_value_sequence.
  apply keeps_memory_bind.
  - eapply keeps_memory_check.
    apply (and_then_is (element_check_not_assigned_is e)
                       (element_check_sequence_is e)).
  - intros ok. keeps.
Qed.

Lemma keeps_memory_strdup_loop (ss : list string) (n : nat) :
  forall (i : Z) (copied : list string),
    keeps_memory (strdup_loop ss n i copied).
Proof.
  induction n as [| n IH]; intros i copied; cbn [strdup_loop]; keeps.
  all: try apply IH.
Qed.

#[local] Hint Resolve keeps_memory_set_value_sequence
  keeps_memory_strdup_loop : memory.

Lemma keeps_memory_clone_case_string (e clone : DcmElement) :
  keeps_memory (clone_case_string e clone).
Proof. unfold clone_case_string. keeps. Qed.

Lemma keeps_memory_clone_case_binary (e clone : DcmElement) :
  keeps_memory (clone_case_binary e clone).
Proof. unfold clone_case_binary. keeps. Qed.

Lemma keeps_memory_clone_case_numeric (e clone : DcmElement) :
  keeps_memory (clone_case_numeric e clone).
Proof. unfold clone_case_numeric. keeps. Qed.

#[local] Hint Resolve keeps_memory_clone_case_string
  keeps_memory_clone_case_binary keeps_memory_clone_case_numeric : memory.

Lemma keeps_memory_clone_items_loop
      (dataset_clone : DcmDataSet -> M (option DcmDataSet * DcmDataSet))
      (n : nat) :
  (forall d, keeps_memory (dataset_clone d)) ->
  forall (i : Z) (from_seq : DcmSequence) (seq : option DcmSequence),
    keeps_memory (clone_items_loop dataset_clone n i from_seq seq).
Proof.
  intros Hd. induction n as [| n IH]; intros i from_seq seq;
    cbn [clone_items_loop]; keeps.
  all: try apply IH.
Qed.

Lemma keeps_memory_element_clone_body
      (dataset_clone : DcmDataSet -> M (option DcmDataSet * DcmDataSet))
      (e : DcmElement) :
  (forall d, keeps_memory (dataset_clone d)) ->
  keeps_memory (element_clone_body dataset_clone e).
Proof.
  intros Hd. pose proof (fun n => @keeps_memory_clone_items_loop _ n Hd) as Hloop.
  unfold element_clone_body, clone_case_sequence. keeps.
Qed.

Lemma keeps_memory_dataset_clone_loop
      (f : DcmElement -> M (option DcmElement * DcmElement))
      (els : list DcmElement) :
  (forall e, keeps_memory (f e)) ->
  forall cloned, keeps_memory (dataset_clone_loop f els cloned).
Proof.
  intros Hf. induction els as [| e els IH]; intros cloned;
    cbn [dataset_clone_loop]; keeps.
  all: try apply IH.
Qed.

Lemma keeps_memory_dataset_clone_body
      (f : DcmElement -> M (option DcmElement * DcmElement))
      (d : DcmDataSet) :
  (forall e, keeps_memory (f e)) ->
  keeps_memory (dataset_clone_body f d).
Proof.
  intros Hf. pose proof (fun els => @keeps_memory_dataset_clone_loop _ els Hf) as Hloop.
  unfold dataset_clone_body. keeps.
Qed.

Lemma keeps_memory_element_clone_fuel (fuel : nat) :
  forall e, keeps_memory (element_clone_fuel fuel e).
Proof.
  induction fuel as [| fuel IH]; intros e; cbn [element_clone_fuel].
  - apply keeps_memory_abort.
  - apply keeps_memory_element_clone_body. intros d.
    apply keeps_memory_dataset_clone_body. exact IH.
Qed.

Lemma keeps_memory_dataset_clone (d : DcmDataSet) :
  keeps_memory (dcm_dataset_clone d).
Proof.
  unfold dcm_dataset_clone. apply keeps_memory_dataset_clone_body.
  apply keeps_memory_element_clone_fuel.
Qed.

End KeepsMemory.

(** ** Cloning a sequence-valued element *)

Section CloneFacts.

Context {dict : Dictionary} {fconv : FloatConversions}.

Lemma dcm_sequence_get_run (seq : DcmSequence) (index : Z) (w w' : World)
      (r : option DcmDataSet) (seq' : DcmSequence) :
  dcm_sequence_get seq index w = Some ((r, seq'), w') ->
  (r = None /\ seq' = seq) \/
  (exists item,
      nth_error (items seq) (Z.to_nat index) = Some item /\
      r = Some (dcm_dataset_lock item) /\
      seq' = mkSequence (list_update (items seq) (Z.to_nat index)
                                     (dcm_dataset_lock item))
                        (seq_is_locked seq)).
Proof.
  unfold dcm_sequence_get.
  destruct (utarray_len (items seq) <=? index).
  - intros H. inversion H; subst. left. auto.
  - destruct (nth_error (items seq) (Z.to_nat index)) as [item |] eqn:E.
    + intros H. inversion H; subst. right. exists item. auto.
    + intros H. inversion H; subst. left. auto.
Qed.

Lemma dcm_sequence_get_in_range (seq : DcmSequence) (index : nat)
      (w w' : World) (seq' : DcmSequence) :
  Z.of_nat index < utarray_len (items seq) ->
  dcm_sequence_get seq (Z.of_nat index) w = Some ((None, seq'), w') ->
  False.
Proof.
  intros Hi. unfold dcm_sequence_get.
  destruct (Z.leb_spec (utarray_len (items seq)) (Z.of_nat index)); [lia |].
  rewrite Nat2Z.id.
  destruct (nth_error (items seq) index) eqn:E; [discriminate |].
  apply nth_error_None in E. unfold utarray_len, wrap32 in Hi.
  pose proof (Z.mod_le (Z.of_nat (List.length (items seq))) (2 ^ 32)
                       ltac:(lia) ltac:(lia)).
  lia.
Qed.

(** [dcm_dataset_clone] has no statement that writes the lock flag of its
    source. *)
Lemma dataset_clone_body_is_locked
      (f : DcmElement -> M (option DcmElement * DcmElement))
      (d : DcmDataSet) (w w' : World) (r : option DcmDataSet)
      (d' : DcmDataSet) :
  dataset_clone_body f d w = Some ((r, d'), w') ->
  is_locked d' = is_locked d.
Proof.
  unfold dataset_clone_body. intros H.
  apply bind_Some in H. destruct H as (c & w1 & _ & H).
  destruct c as [cloned |].
  - apply bind_Some in H. destruct H as ([res els] & w2 & _ & H).
    inversion H; subst. reflexivity.
  - inversion H; subst. reflexivity.
Qed.

Section ItemsLoop.

Variable dataset_clone : DcmDataSet -> M (option DcmDataSet * DcmDataSet).

Hypothesis dataset_clone_is_locked :
  forall d w r d' w',
    dataset_clone d w = Some ((r, d'), w') -> is_locked d' = is_locked d.

Hypothesis dataset_clone_keeps_memory :
  forall d, keeps_memory (dataset_clone d).

(** The copying loop writes nothing of the source sequence but the items it
    visits, from the index it starts at; each of them is locked when the
    loop leaves it.  A loop that runs to its end has visited all [n]; one
    that stops before, its indices being below the count, has stopped at an
    item whose clone is NULL, which is the last it visited. *)
Lemma clone_items_loop_run (n : nat) :
  forall (i : nat) (from_seq : DcmSequence) (seq : option DcmSequence)
         (w w' : World) (ok : bool) (from_seq' : DcmSequence)
         (seq' : option DcmSequence),
    clone_items_loop dataset_clone n (Z.of_nat i) from_seq seq w
    = Some ((ok, from_seq', seq'), w') ->
    seq_is_locked from_seq' = seq_is_locked from_seq /\
    List.length (items from_seq') = List.length (items from_seq) /\
    exists visited,
      (visited <= n)%nat /\
      (ok = true -> visited = n) /\
      (Z.of_nat (i + n) <= utarray_len (items from_seq) -> ok = false ->
       (1 <= visited)%nat /\
       exists it w1 d' w2,
         nth_error (items from_seq) (i + visited - 1) = Some it /\
         (allocs w = [] -> allocs w1 = []) /\
         dataset_clone (dcm_dataset_lock it) w1 = Some ((None, d'), w2)) /\
      (forall j, (i <= j < i + visited)%nat ->
                 exists d, nth_error (items from_seq') j = Some d /\
                           is_locked d = true) /\
      (forall j, (j < i \/ i + visited <= j)%nat ->
                 nth_error (items from_seq') j = nth_error (items from_seq) j).
Proof.
  induction n as [| n IH]; intros i from_seq seq w w' ok from_seq' seq' H;
    cbn [clone_items_loop] in H.
  - inversion H; subst. split; [reflexivity |]. split; [reflexivity |].
    exists 0%nat. split; [lia |]. split; [reflexivity |].
    split; [intros _ Hf; discriminate |].
    split; [intros j Hj; lia | reflexivity].
  - apply bind_Some in H. destruct H as ([item fs1] & w1 & Hget & H).
    assert (Hmem1 : allocs w = [] -> allocs w1 = [])
      by (intros Hw; eapply keeps_memory_sequence_get; eassumption).
    pose proof Hget as Hget0.
    apply dcm_sequence_get_run in Hget. rewrite Nat2Z.id in Hget.
    destruct Hget as [(-> & ->) | (it & Hnth & -> & ->)].
    + apply bind_Some in H. destruct H as (u & w2 & _ & H).
      inversion H; subst. split; [reflexivity |]. split; [reflexivity |].
      exists 0%nat. split; [lia |]. split; [discriminate |].
      split; [| split; [intros j Hj; lia | reflexivity]].
      intros Hr _. exfalso.
      eapply (@dcm_sequence_get_in_range from_seq' i); [lia | exact Hget0].
    + apply bind_Some in H. destruct H as ([cloned it'] & w2 & Hclone & H).
      assert (Hmem2 : allocs w1 = [] -> allocs w2 = [])
        by (intros Hw; eapply dataset_clone_keeps_memory; eassumption).
      pose proof Hclone as Hclone0.
      apply dataset_clone_is_locked in Hclone. cbn [is_locked dcm_dataset_lock]
        in Hclone.
      cbn [items seq_is_locked] in H. rewrite Nat2Z.id in H.
      set (fs2 := mkSequence
                    (list_update
                       (list_update (items from_seq) i (dcm_dataset_lock it))
                       i it')
                    (seq_is_locked from_seq)) in *.
      assert (Hi : (i < List.length (items from_seq))%nat)
        by (apply nth_error_Some; congruence).
      assert (Hlen2 : List.length (items fs2) = List.length (items from_seq))
        by (subst fs2; cbn; rewrite !length_list_update; reflexivity).
      assert (Hat : nth_error (items fs2) i = Some it').
      { subst fs2. cbn. apply nth_error_list_update.
        rewrite length_list_update. exact Hi. }
      assert (Hother : forall j, j <> i ->
                nth_error (items fs2) j = nth_error (items from_seq) j).
      { intros j Hj. subst fs2. cbn.
        rewrite !nth_error_list_update_other by congruence. reflexivity. }
      destruct cloned as [cloned |].
      * destruct seq as [s |]; [| discriminate].
        apply bind_Some in H. destruct H as (a & w3 & Happ & H).
        assert (Hmem3 : allocs w2 = [] -> allocs w3 = [])
          by (intros Hw; eapply keeps_memory_sequence_append; eassumption).
        replace (Z.of_nat i + 1) with (Z.of_nat (S i)) in H by lia.
        apply IH in H.
        destruct H as (Hl & Hn & visited & Hv & Hok & Hstop & Hin & Hout).
        split; [rewrite Hl; reflexivity |].
        split; [rewrite Hn; exact Hlen2 |].
        exists (S visited). split; [lia |].
        split; [intros Ht; rewrite (Hok Ht); reflexivity |]. split; [| split].
        -- intros Hr Hf.
           assert (Hr2 : Z.of_nat (S i + n) <= utarray_len (items fs2))
             by (unfold utarray_len in *; rewrite Hlen2; lia).
           destruct (Hstop Hr2 Hf) as (H1 & it0 & w4 & d0 & w5 & Hit & Hm & Hc).
           split; [lia |]. exists it0, w4, d0, w5.
           split; [| split; [auto | exact Hc]].
           rewrite Hother in Hit by lia.
           replace (i + S visited - 1)%nat with (S i + visited - 1)%nat
             by lia.
           exact Hit.
        -- intros j Hj. destruct (Nat.eq_dec j i) as [-> | Hne].
           ++ exists it'. split; [| exact Hclone].
              rewrite Hout by lia. exact Hat.
           ++ apply Hin. lia.
        -- intros j Hj. rewrite Hout by lia. apply Hother. lia.
      * apply bind_Some in H. destruct H as (u & w3 & _ & H).
        inversion H; subst.
        split; [reflexivity |]. split; [exact Hlen2 |].
        exists 1%nat. split; [lia |]. split; [discriminate |].
        split; [| split].
        -- intros _ _. split; [lia |]. exists it, w1, it', w2.
           replace (i + 1 - 1)%nat with i by lia.
           split; [exact Hnth |]. split; [exact Hmem1 | exact Hclone0].
        -- intros j Hj. assert (j = i) by lia. subst j.
           exists it'. split; [exact Hat | exact Hclone].
        -- intros j Hj. apply Hother. lia.
Qed.

(** The [DCM_CLASS_SEQUENCE] case on an assigned sequence element: whatever
    the case returns, it leaves the source with its sequence locked, the
    items it visited locked and the others as they were; it has visited
    every item, or stopped at one whose clone is NULL.  A clone that the
    case hands on has been assigned by the sequence setter. *)
Lemma clone_case_sequence_run (e clone : DcmElement) (sq : DcmSequence)
      (w w' : World) (r : option DcmElement) (e' : DcmElement) :
  assigned e = true ->
  dcm_dict_vr_class (vr e) = DCM_CLASS_SEQUENCE ->
  value e = single_sq sq ->
  clone_case_sequence dataset_clone e clone w = Some ((r, e'), w') ->
  (forall c, r = Some c -> assigned c = true) /\
  exists sq' visited,
    value e' = single_sq sq' /\
    seq_is_locked sq' = true /\
    List.length (items sq') = List.length (items sq) /\
    (visited <= List.length (items sq))%nat /\
    (Z.of_nat visited = dcm_sequence_count sq \/
     (1 <= visited)%nat /\
     exists it w1 d' w2,
       nth_error (items sq) (visited - 1) = Some it /\
       (allocs w = [] -> allocs w1 = []) /\
       dataset_clone (dcm_dataset_lock it) w1 = Some ((None, d'), w2)) /\
    (forall j, (j < visited)%nat ->
               exists d, nth_error (items sq') j = Some d /\
                         is_locked d = true) /\
    (forall j, (visited <= j)%nat ->
               nth_error (items sq') j = nth_error (items sq) j).
Proof.
  intros Ha Hcls Hval. unfold clone_case_sequence.
  unfold dcm_element_get_value_sequence.
  pose proof (and_then_is (element_check_assigned_is e)
                          (element_check_sequence_is e)) as C.
  destruct (check_is_inv w C) as (w1 & Hrun & Htrue & _).
  unfold bind at 1. unfold bind at 1. rewrite Hrun. clear Hrun.
  assert (Hk : class_eqb (dcm_dict_vr_class (vr e)) DCM_CLASS_SEQUENCE = true)
    by (apply class_eqb_eq; exact Hcls).
  rewrite Ha, Hk in *. cbn [andb negb] in *. rewrite (Htrue eq_refl).
  clear Htrue C w1. rewrite Hval. unfold ret at 1.
  intros H. apply bind_Some in H. destruct H as (seq & w2 & Hcreate & H).
  assert (Hmem : allocs w = [] -> allocs w2 = [])
    by (intros Hw; eapply keeps_memory_sequence_create; eassumption).
  apply bind_Some in H.
  destruct H as ([[ok from_seq'] seq'] & w3 & Hloop & H).
  assert (Hcount : (Z.to_nat (dcm_sequence_count (dcm_sequence_lock sq))
                    <= List.length (items sq))%nat).
  { unfold dcm_sequence_count, utarray_len, wrap32. cbn [items dcm_sequence_lock].
    pose proof (Z.mod_le (Z.of_nat (List.length (items sq))) (2 ^ 32)
                         ltac:(lia) ltac:(lia)).
    lia. }
  assert (Hnonneg : 0 <= dcm_sequence_count sq).
  { unfold dcm_sequence_count, utarray_len, wrap32.
    apply Z.mod_pos_bound. lia. }
  apply (clone_items_loop_run _ 0%nat) in Hloop.
  destruct Hloop as (Hl & Hn & visited & Hv & Hok & Hfail & Hin & Hout).
  cbn [seq_is_locked items dcm_sequence_lock] in Hl, Hn, Hout, Hfail.
  change (dcm_sequence_count (dcm_sequence_lock sq))
    with (dcm_sequence_count sq) in *.
  assert (Hstop :
            Z.of_nat visited = dcm_sequence_count sq \/
            (1 <= visited)%nat /\
            exists it w1 d' w2,
              nth_error (items sq) (visited - 1) = Some it /\
              (allocs w = [] -> allocs w1 = []) /\
              dataset_clone (dcm_dataset_lock it) w1
              = Some ((None, d'), w2)).
  { destruct ok.
    - left. rewrite (Hok eq_refl). lia.
    - right. destruct Hfail as (H1 & it & w4 & d' & w5 & Hit & Hm & Hc).
      + unfold dcm_sequence_count in *. cbn [Nat.add]. lia.
      + reflexivity.
      + split; [exact H1 |]. exists it, w4, d', w5.
        cbn [Nat.add] in Hit. split; [exact Hit |].
        split; [auto | exact Hc]. }
  assert (Hpost :
            forall y x, value (set_value y (single_sq from_seq')) = x ->
            exists sq' visited,
              x = single_sq sq' /\
              seq_is_locked sq' = true /\
              List.length (items sq') = List.length (items sq) /\
              (visited <= List.length (items sq))%nat /\
              (Z.of_nat visited = dcm_sequence_count sq \/
               (1 <= visited)%nat /\
               exists it w1 d' w2,
                 nth_error (items sq) (visited - 1) = Some it /\
                 (allocs w = [] -> allocs w1 = []) /\
                 dataset_clone (dcm_dataset_lock it) w1 = Some ((None, d'), w2)) /\
              (forall j, (j < visited)%nat ->
                         exists d, nth_error (items sq') j = Some d /\
                                   is_locked d = true) /\
              (forall j, (visited <= j)%nat ->
                         nth_error (items sq') j = nth_error (items sq) j)).
  { intros y x <-. exists from_seq', visited.
    split; [destruct y; reflexivity |]. split; [exact Hl |].
    split; [exact Hn |]. split; [lia |]. split; [exact Hstop |]. split.
    - intros j Hj. apply Hin. lia.
    - intros j Hj. apply Hout. lia. }
  destruct ok; cbn [negb] in H.
  - apply bind_Some in H. destruct H as ([[ok2 clone2] seq2] & w4 & Hset & H).
    assert (Hassigned : ok2 = true -> assigned clone2 = true).
    { intros ->.
      destruct (dcm_element_set_value_sequence_ok seq' clone w3) as (_ & Hstep).
      specialize (Hstep true clone2 w4).
      unfold bind in Hstep. rewrite Hset in Hstep. cbn in Hstep.
      destruct (Hstep eq_refl) as (_ & _ & _ & Ht & _).
      apply Ht. reflexivity. }
    destruct ok2; cbn [negb] in H.
    + inversion H; subst. split.
      * intros c Hc. inversion Hc; subst. auto.
      * eapply Hpost. reflexivity.
    + apply bind_Some in H. destruct H as (u & w5 & _ & H).
      apply bind_Some in H. destruct H as (u' & w6 & _ & H).
      inversion H; subst. split; [discriminate |].
      eapply Hpost. reflexivity.
  - apply bind_Some in H. destruct H as (u & w4 & _ & H).
    inversion H; subst. split; [discriminate |].
    eapply Hpost. reflexivity.
Qed.

End ItemsLoop.

(** The whole body of [dcm_element_clone] on an assigned sequence element
    whose clone could be created: the result is NULL, because the sequence
    setter has already assigned the clone when the closing call of
    [dcm_element_validate] tests that it is not; the source is left as the
    sequence case leaves it. *)
Lemma element_clone_body_sequence
      (dataset_clone : DcmDataSet -> M (option DcmDataSet * DcmDataSet))
      (e : DcmElement) (sq : DcmSequence) (w w' : World)
      (r : option DcmElement) (e' : DcmElement) :
  (forall d w r d' w',
      dataset_clone d w = Some ((r, d'), w') -> is_locked d' = is_locked d) ->
  (forall d, keeps_memory (dataset_clone d)) ->
  assigned e = true ->
  dcm_dict_vr_class (vr e) = DCM_CLASS_SEQUENCE ->
  value e = single_sq sq ->
  dcm_dict_lookup_vr (tag e) <> DCM_VR_uk ->
  hd true (allocs w) = true ->
  element_clone_body dataset_clone e w = Some ((r, e'), w') ->
  r = None /\
  exists sq' visited,
    value e' = single_sq sq' /\
    seq_is_locked sq' = true /\
    List.length (items sq') = List.length (items sq) /\
    (visited <= List.length (items sq))%nat /\
    (Z.of_nat visited = dcm_sequence_count sq \/
     (1 <= visited)%nat /\
     exists it w1 d' w2,
       nth_error (items sq) (visited - 1) = Some it /\
       (allocs w = [] -> allocs w1 = []) /\
       dataset_clone (dcm_dataset_lock it) w1 = Some ((None, d'), w2)) /\
    (forall j, (j < visited)%nat ->
               exists d, nth_error (items sq') j = Some d /\
                         is_locked d = true) /\
    (forall j, (visited <= j)%nat ->
               nth_error (items sq') j = nth_error (items sq) j).
Proof.
  intros Hlock Hkeep Ha Hcls Hval Hknown Hmem. unfold element_clone_body.
  unfold bind at 1.
  rewrite (@dcm_element_create_known_tag dict (tag e) (length e) w Hknown Hmem).
  cbv zeta. rewrite Hcls.
  intros H. apply bind_Some in H. destruct H as ([cl e1] & w1 & Hcase & H).
  eapply clone_case_sequence_run in Hcase; eauto.
  destruct Hcase as (Hassigned & Hpost).
  assert (Hpost' :
            exists sq' visited,
              value e1 = single_sq sq' /\
              seq_is_locked sq' = true /\
              List.length (items sq') = List.length (items sq) /\
              (visited <= List.length (items sq))%nat /\
              (Z.of_nat visited = dcm_sequence_count sq \/
               (1 <= visited)%nat /\
               exists it w1 d' w2,
                 nth_error (items sq) (visited - 1) = Some it /\
                 (allocs w = [] -> allocs w1 = []) /\
                 dataset_clone (dcm_dataset_lock it) w1 = Some ((None, d'), w2)) /\
              (forall j, (j < visited)%nat ->
                         exists d, nth_error (items sq') j = Some d /\
                                   is_locked d = true) /\
              (forall j, (visited <= j)%nat ->
                         nth_error (items sq') j = nth_error (items sq) j)).
  { destruct Hpost as (sq' & visited & Hv & Hl & Hn & Hvis & Hstop & Hrest).
    exists sq', visited. split; [exact Hv |]. split; [exact Hl |].
    split; [exact Hn |]. split; [exact Hvis |]. split; [| exact Hrest].
    destruct Hstop as [Hall | (H1 & it & w4 & d' & w5 & Hit & Hm & Hc)];
      [left; exact Hall | right].
    split; [exact H1 |]. exists it, w4, d', w5.
    split; [exact Hit |]. split; [| exact Hc].
    intros Hw. apply Hm. cbn [allocs]. rewrite Hw. reflexivity. }
  clear Hpost.
  destruct cl as [c |].
  - apply bind_Some in H. destruct H as ([ok c'] & w2 & Hv & H).
    apply dcm_element_validate_run in Hv.
    destruct Hv as [(_ & Hna & _) | (-> & -> & _)].
    + rewrite (Hassigned c eq_refl) in Hna. discriminate.
    + cbn [negb] in H. apply bind_Some in H.
      destruct H as (u & w3 & _ & H). inversion H; subst.
      split; [reflexivity | exact Hpost'].
  - inversion H; subst. split; [reflexivity | exact Hpost'].
Qed.

Lemma locked_sequence_refuses_append (s : DcmSequence) (item : DcmDataSet)
      (w : World) :
  seq_is_locked s = true ->
  exists w', dcm_sequence_append s item w = Some ((false, s), w') /\
             invalid_error w'.
Proof.
  intros Hl. unfold dcm_sequence_append. rewrite Hl.
  eexists. split; [reflexivity |]. unfold invalid_error. cbn. eauto.
Qed.

Lemma locked_dataset_refuses_insert (d : DcmDataSet) (x : DcmElement)
      (w : World) :
  is_locked d = true ->
  exists w', dcm_dataset_insert d x w = Some ((false, d), w') /\
             invalid_error w'.
Proof.
  intros Hl. unfold dcm_dataset_insert. rewrite Hl.
  eexists. split; [reflexivity |]. unfold invalid_error. cbn. eauto.
Qed.

(** The same call never hands a clone back. *)
Lemma dcm_element_clone_sequence_is_null (e : DcmElement) (sq : DcmSequence)
      (w w' : World) (r : option DcmElement) (e' : DcmElement) :
  assigned e = true ->
  dcm_dict_vr_class (vr e) = DCM_CLASS_SEQUENCE ->
  value e = single_sq sq ->
  dcm_dict_lookup_vr (tag e) <> DCM_VR_uk ->
  hd true (allocs w) = true ->
  dcm_element_clone e w = Some ((r, e'), w') ->
  r = None.
Proof.
  intros Ha Hcls Hval Hknown Hmem H.
  unfold dcm_element_clone in H. cbn [element_clone_fuel] in H.
  eapply element_clone_body_sequence in H; eauto.
  - destruct H as (Hr & _). exact Hr.
  - intros d w0 r0 d' w0' Hd.
    eapply dataset_clone_body_is_locked. exact Hd.
  - intros d. apply keeps_memory_dataset_clone_body.
    apply keeps_memory_element_clone_fuel.
Qed.

End CloneFacts.

(** *** The fuel of the recursion is enough *)

Section CloneFuel.

Context {dict : Dictionary} {fconv : FloatConversions}.

Lemma element_depth_sequence (e : DcmElement) (sq : DcmSequence) :
  value e = single_sq sq -> element_depth e = S (items_depth (items sq)).
Proof.
  destruct e as [t v l m a x p q r]. cbn [value]. intros ->.
  destruct sq as [its lk]. cbn [element_depth items]. f_equal.
  induction its as [| d its IH]; [reflexivity |].
  destruct d as [es dl]. cbn [items_depth fold_right].
  fold (items_depth its). rewrite <- IH. reflexivity.
Qed.

Lemma elements_depth_In (es : list DcmElement) (e : DcmElement) :
  In e es -> (element_depth e <= elements_depth es)%nat.
Proof.
  induction es as [| x es IH]; intros Hin; [destruct Hin |].
  cbn [elements_depth fold_right]. fold (elements_depth es).
  destruct Hin as [-> | Hin]; [lia |]. specialize (IH Hin). lia.
Qed.

Lemma items_depth_In (its : list DcmDataSet) (d : DcmDataSet) :
  In d its -> (dataset_depth d <= items_depth its)%nat.
Proof.
  induction its as [| x its IH]; intros Hin; [destruct Hin |].
  cbn [items_depth fold_right]. fold (items_depth its).
  destruct Hin as [-> | Hin]; [lia |]. specialize (IH Hin). lia.
Qed.

Lemma bind_congr {A B} (m1 m2 : M A) (k1 k2 : A -> M B) (w : World) :
  m1 w = m2 w ->
  (forall a w', m2 w = Some (a, w') -> k1 a w' = k2 a w') ->
  bind m1 k1 w = bind m2 k2 w.
Proof.
  intros Hm Hk. unfold bind. rewrite Hm.
  destruct (m2 w) as [[a w'] |]; [| reflexivity]. apply Hk. reflexivity.
Qed.

(** Two element cloners that agree on the elements of a list make the same
    loop over it. *)
Lemma dataset_clone_loop_agree
      (f g : DcmElement -> M (option DcmElement * DcmElement))
      (els : list DcmElement) :
  (forall e w, In e els -> f e w = g e w) ->
  forall cloned w,
    dataset_clone_loop f els cloned w = dataset_clone_loop g els cloned w.
Proof.
  induction els as [| e els IH]; intros Hfg cloned w; [reflexivity |].
  cbn [dataset_clone_loop]. apply bind_congr.
  - apply Hfg. left. reflexivity.
  - intros [ce e1] w1 _. destruct ce as [ce |]; [| reflexivity].
    apply bind_congr; [reflexivity |].
    intros [ok cd] w2 _. destruct ok; cbn [negb]; [| reflexivity].
    apply bind_congr; [| reflexivity].
    apply IH. intros e0 w0 Hin. apply Hfg. right. exact Hin.
Qed.

Lemma dataset_clone_body_agree
      (f g : DcmElement -> M (option DcmElement * DcmElement))
      (d : DcmDataSet) (w : World) :
  (forall e w, In e (elements d) -> f e w = g e w) ->
  dataset_clone_body f d w = dataset_clone_body g d w.
Proof.
  intros Hfg. unfold dataset_clone_body. apply bind_congr; [reflexivity |].
  intros c w1 _. destruct c as [cloned |]; [| reflexivity].
  apply bind_congr; [| reflexivity].
  apply dataset_clone_loop_agree. exact Hfg.
Qed.

(** Two data set cloners that agree on the items still to visit make the
    same copying loop. *)
Lemma clone_items_loop_agree
      (F G : DcmDataSet -> M (option DcmDataSet * DcmDataSet)) (n : nat) :
  forall (i : nat) (from_seq : DcmSequence) (seq : option DcmSequence)
         (w : World),
    (forall j it w, (i <= j)%nat ->
                    nth_error (items from_seq) j = Some it ->
                    F (dcm_dataset_lock it) w = G (dcm_dataset_lock it) w) ->
    clone_items_loop F n (Z.of_nat i) from_seq seq w
    = clone_items_loop G n (Z.of_nat i) from_seq seq w.
Proof.
  induction n as [| n IH]; intros i from_seq seq w Hfg; [reflexivity |].
  cbn [clone_items_loop]. apply bind_congr; [reflexivity |].
  intros [item fs1] w1 Hget.
  apply dcm_sequence_get_run in Hget. rewrite Nat2Z.id in Hget.
  destruct Hget as [(-> & ->) | (it & Hnth & -> & ->)]; [reflexivity |].
  apply bind_congr; [apply (Hfg i it w1 (le_n i) Hnth) |].
  intros [cloned it'] w2 _.
  destruct cloned as [cloned |]; [| reflexivity].
  destruct seq as [s |]; [| reflexivity].
  apply bind_congr; [reflexivity |].
  intros a w3 _.
  replace (Z.of_nat i + 1) with (Z.of_nat (S i)) by lia.
  apply IH. intros j it0 w0 Hj Hit0. apply (Hfg j it0 w0); [lia |].
  cbn [items] in Hit0. rewrite Nat2Z.id in Hit0.
  rewrite !nth_error_list_update_other in Hit0 by lia. exact Hit0.
Qed.

Lemma element_clone_body_agree
      (F G : DcmDataSet -> M (option DcmDataSet * DcmDataSet))
      (e : DcmElement) (w : World) :
  (forall sq it w, value e = single_sq sq -> In it (items sq) ->
                   F (dcm_dataset_lock it) w = G (dcm_dataset_lock it) w) ->
  element_clone_body F e w = element_clone_body G e w.
Proof.
  intros Hfg. unfold element_clone_body. apply bind_congr; [reflexivity |].
  intros c w1 _. destruct c as [clone |]; [| reflexivity].
  cbv zeta. destruct (dcm_dict_vr_class (vr e)); try reflexivity.
  apply bind_congr; [| reflexivity].
  unfold clone_case_sequence. apply bind_congr; [reflexivity |].
  intros [from_seq e1] w2 Hget.
  destruct from_seq as [from_seq |]; [| reflexivity].
  apply bind_congr; [reflexivity |]. intros seq w3 _.
  apply bind_congr; [| reflexivity].
  assert (Hfrom : exists sq, value e = single_sq sq /\
                             from_seq = dcm_sequence_lock sq).
  { unfold dcm_element_get_value_sequence in Hget.
    apply bind_Some in Hget. destruct Hget as (ok & w4 & _ & Hget).
    destruct ok; cbn [negb] in Hget; [| discriminate].
    destruct (value e) as [| | | | sq | |]; try discriminate.
    inversion Hget; subst. exists sq. auto. }
  destruct Hfrom as (sq & Hval & ->).
  apply (@clone_items_loop_agree F G _ 0%nat).
  intros j it w0 _ Hit. apply (Hfg sq it w0 Hval).
  cbn [items dcm_sequence_lock] in Hit. eapply nth_error_In. exact Hit.
Qed.

(** Any two amounts of fuel above the depth of the element give the same
    run: the bound in [dcm_element_clone] never cuts a run short. *)
Lemma element_clone_fuel_enough (fuel1 : nat) :
  forall (fuel2 : nat) (e : DcmElement) (w : World),
    (element_depth e < fuel1)%nat ->
    (element_depth e < fuel2)%nat ->
    element_clone_fuel fuel1 e w = element_clone_fuel fuel2 e w.
Proof.
  induction fuel1 as [| fuel1 IH]; intros fuel2 e w H1 H2; [lia |].
  destruct fuel2 as [| fuel2]; [lia |].
  cbn [element_clone_fuel]. apply element_clone_body_agree.
  intros sq it w0 Hval Hin.
  apply dataset_clone_body_agree. cbn [elements dcm_dataset_lock].
  intros e0 w1 Hin0.
  pose proof (element_depth_sequence e Hval) as Hd.
  pose proof (items_depth_In _ _ Hin) as Hi.
  pose proof (elements_depth_In _ _ Hin0) as He.
  unfold dataset_depth in Hi.
  apply IH; lia.
Qed.

End CloneFuel.

(** *** The source after the call *)

(** C9.  Cloning an assigned sequence-valued element (of a tag the
    dictionary knows, with memory for the clone) writes the source: however
    the call ends, the sequence of the source is locked, the items the copy
    visited, a first part of the sequence, are locked, and the items after
    them are as they were.  The copy visits every item of the sequence,
    unless [dcm_dataset_clone] returns NULL for an item: it then stops at
    that item, the last it visited (and when memory was available at the
    call, it was available for that clone).  The source is no longer
    mutable: its sequence refuses an append and a visited item refuses an
    insertion. *)
Theorem dcm_element_clone_locks_source {dict : Dictionary}
        {fconv : FloatConversions} (e : DcmElement) (sq : DcmSequence)
        (w w' : World) (r : option DcmElement) (e' : DcmElement) :
  assigned e = true ->
  dcm_dict_vr_class (vr e) = DCM_CLASS_SEQUENCE ->
  value e = single_sq sq ->
  dcm_dict_lookup_vr (tag e) <> DCM_VR_uk ->
  hd true (allocs w) = true ->
  dcm_element_clone e w = Some ((r, e'), w') ->
  exists sq' visited,
    value e' = single_sq sq' /\
    dcm_sequence_is_locked sq' = true /\
    List.length (items sq') = List.length (items sq) /\
    (visited <= List.length (items sq))%nat /\
    (Z.of_nat visited = dcm_sequence_count sq \/
     (1 <= visited)%nat /\
     exists it w1 d' w2,
       nth_error (items sq) (visited - 1) = Some it /\
       (allocs w = [] -> allocs w1 = []) /\
       dcm_dataset_clone (dcm_dataset_lock it) w1 = Some ((None, d'), w2)) /\
    (forall j, (j < visited)%nat ->
               exists d, nth_error (items sq') j = Some d /\
                         dcm_dataset_is_locked d = true /\
                         forall x w2,
                         exists w3,
                           dcm_dataset_insert d x w2 = Some ((false, d), w3) /\
                           invalid_error w3) /\
    (forall j, (visited <= j)%nat ->
               nth_error (items sq') j = nth_error (items sq) j) /\
    (forall item w2,
        exists w3, dcm_sequence_append sq' item w2 = Some ((false, sq'), w3) /\
                   invalid_error w3).
Proof.
  intros Ha Hcls Hval Hknown Hmem H.
  unfold dcm_element_clone in H. cbn [element_clone_fuel] in H.
  eapply element_clone_body_sequence in H; eauto.
  2:{ intros d w0 r0 d' w0' Hd.
      eapply dataset_clone_body_is_locked. exact Hd. }
  2:{ intros d. apply keeps_memory_dataset_clone_body.
      apply keeps_memory_element_clone_fuel. }
  destruct H as (_ & sq' & visited & Hv & Hl & Hn & Hvis & Hstop & Hin & Hout).
  exists sq', visited. split; [exact Hv |]. split; [exact Hl |].
  split; [exact Hn |]. split; [exact Hvis |].
  split; [| split; [| split]].
  - destruct Hstop as [Hall | (H1 & it & w1 & d' & w2 & Hit & Hm & Hc)];
      [left; exact Hall | right].
    split; [exact H1 |]. exists it, w1, d', w2.
    split; [exact Hit |]. split; [exact Hm |].
    rewrite <- Hc. unfold dcm_dataset_clone.
    apply dataset_clone_body_agree. cbn [elements dcm_dataset_lock].
    intros e0 w0 Hin0.
    pose proof (element_depth_sequence e Hval) as Hd.
    pose proof (items_depth_In _ _ (nth_error_In _ _ Hit)) as Hi.
    pose proof (elements_depth_In _ _ Hin0) as He.
    unfold dataset_depth in *. cbn [elements dcm_dataset_lock].
    apply element_clone_fuel_enough; lia.
  - intros j Hj. destruct (Hin j Hj) as (d & Hd & Hdl).
    exists d. split; [exact Hd |]. split; [exact Hdl |].
    intros x w2. apply locked_dataset_refuses_insert. exact Hdl.
  - exact Hout.
  - intros item w2. apply locked_sequence_refuses_append. exact Hl.
Qed.

Lemma dcm_element_clone_locks_source_witness :
  exists r e' w' sq',
    dcm_element_clone (dict := scenario_dict) anatomic_region world0
    = Some ((r, e'), w') /\
    seq_is_locked two_items = false /\
    Forall (fun d => is_locked d = false) (items two_items) /\
    value e' = single_sq sq' /\
    dcm_sequence_is_locked sq' = true /\
    List.length (items sq') = 2%nat /\
    (forall j, (j < 2)%nat ->
               exists d, nth_error (items sq') j = Some d /\
                         dcm_dataset_is_locked d = true /\
                         forall x w2,
                         exists w3,
                           dcm_dataset_insert d x w2 = Some ((false, d), w3) /\
                           invalid_error w3) /\
    (forall item w2,
        exists w3, dcm_sequence_append sq' item w2 = Some ((false, sq'), w3) /\
                   invalid_error w3).
Proof.
  destruct (dcm_element_clone (dict := scenario_dict) anatomic_region world0)
    as [[[r e'] w'] |] eqn:Hrun; [| vm_compute in Hrun; discriminate].
  destruct (@dcm_element_clone_locks_source scenario_dict scenario_fconv
              anatomic_region two_items world0 w' r e')
    as (sq' & visited & Hv & Hl & Hn & Hvis & Hstop & Hin & _ & Happ).
  - reflexivity.
  - reflexivity.
  - reflexivity.
  - vm_compute. discriminate.
  - reflexivity.
  - exact Hrun.
  - assert (Hall : visited = 2%nat).
    { destruct Hstop as [Hall | (H1 & it & w1 & d' & w2 & Hit & Hm & Hc)].
      - change (dcm_sequence_count two_items) with 2 in Hall. lia.
      - exfalso. specialize (Hm eq_refl).
        destruct w1 as [err al ds]. cbn [allocs] in Hm. subst al.
        cbn [items two_items List.length] in Hvis.
        destruct visited as [| [| [| visited]]]; [lia | | | lia];
          cbn in Hit; inversion Hit; subst it;
          vm_compute in Hc; discriminate. }
    subst visited.
    exists r, e', w', sq'. split; [reflexivity |]. split; [reflexivity |].
    split; [repeat constructor |].
    split; [exact Hv |]. split; [exact Hl |]. split; [exact Hn |].
    split; [exact Hin | exact Happ].
Defined.

(** * Further properties *)

(** ** Data sets: removal, lookup and the tag index *)

Lemma HASH_FIND_INT_In (els : list DcmElement) (key : Z) (e : DcmElement) :
  HASH_FIND_INT els key = Some e -> In e els /\ tag e = key.
Proof.
  unfold HASH_FIND_INT, tag_eqb. intros H. apply find_some in H.
  destruct H as (Hin & Heq). apply Z.eqb_eq in Heq. auto.
Qed.

Lemma HASH_FIND_INT_None (els : list DcmElement) (key : Z) :
  HASH_FIND_INT els key = None <-> ~ In key (map tag els).
Proof.
  unfold HASH_FIND_INT, tag_eqb. induction els as [| x els IH]; cbn.
  - tauto.
  - destruct (Z.eqb_spec (tag x) key) as [Heq | Hne].
    + split; [discriminate |]. intros H. exfalso. apply H. auto.
    + rewrite IH. split; [intros H [Hx | Hx]; auto | intros H Hx; auto].
Qed.

Lemma HASH_FIND_INT_unique (els : list DcmElement) (e : DcmElement) :
  NoDup (map tag els) -> In e els -> HASH_FIND_INT els (tag e) = Some e.
Proof.
  unfold HASH_FIND_INT, tag_eqb. induction els as [| x els IH]; cbn;
    intros Hnd Hin; [destruct Hin |].
  inversion Hnd as [| ? ? Hnot Hnd']; subst.
  destruct Hin as [-> | Hin].
  - rewrite Z.eqb_refl. reflexivity.
  - destruct (Z.eqb_spec (tag x) (tag e)) as [Heq | Hne].
    + exfalso. apply Hnot. rewrite Heq. apply in_map. exact Hin.
    + apply IH; assumption.
Qed.

Lemma HASH_DEL_tags (els : list DcmElement) (key : Z) :
  forall k, In k (map tag (HASH_DEL els key)) -> In k (map tag els).
Proof.
  induction els as [| x els IH]; cbn; unfold tag_eqb; intros k Hk;
    [exact Hk |].
  destruct (tag x =? key); [right; exact Hk |].
  destruct Hk as [Hk | Hk]; [left; exact Hk | right; apply IH; exact Hk].
Qed.

Lemma HASH_DEL_NoDup (els : list DcmElement) (key : Z) :
  NoDup (map tag els) -> NoDup (map tag (HASH_DEL els key)).
Proof.
  induction els as [| x els IH]; cbn; unfold tag_eqb; intros Hnd;
    [exact Hnd |].
  inversion Hnd as [| ? ? Hnot Hnd']; subst.
  destruct (tag x =? key) eqn:E; [exact Hnd' |].
  cbn. constructor; [| apply IH; exact Hnd'].
  intros Hin. apply Hnot. eapply HASH_DEL_tags. exact Hin.
Qed.









Lemma HASH_ADD_INT_NoDup (els : list DcmElement) (e : DcmElement) :
  NoDup (map tag els) -> HASH_FIND_INT els (tag e) = None ->
  NoDup (map tag (HASH_ADD_INT els e)).
Proof.
  intros Hnd Hf. unfold HASH_ADD_INT. rewrite map_app. cbn.
  apply HASH_FIND_INT_None in Hf.
  apply NoDup_app; [exact Hnd | repeat constructor; intros [] |].
  intros k Hk [Hin | []]. subst k. auto.
Qed.

Lemma dataset_op_keeps_unique_tags (op : DataSetOp) (ds ds' : DcmDataSet)
      (w w' : World) (ok : bool) :
  NoDup (map tag (elements ds)) ->
  match op with
  | op_insert element => dcm_dataset_insert ds element
  | op_remove tag_arg => dcm_dataset_remove ds tag_arg
  | op_lock => ret (true, dcm_dataset_lock ds)
  end w = Some ((ok, ds'), w') ->
  NoDup (map tag (elements ds')).
Proof.
  intros Hnd. destruct op as [e | key |].
  - unfold dcm_dataset_insert. destruct (is_locked ds).
    + intros H. inversion H; subst. exact Hnd.
    + destruct (HASH_FIND_INT (elements ds) (tag e)) eqn:Hf.
      * intros H. inversion H; subst. exact Hnd.
      * intros H. inversion H; subst. cbn [elements].
        apply HASH_ADD_INT_NoDup; assumption.
  - unfold dcm_dataset_remove, dcm_dataset_get, dcm_dataset_contains.
    destruct (is_locked ds).
    + intros H. inversion H; subst. exact Hnd.
    + destruct (HASH_FIND_INT (elements ds) key).
      * intros H. inversion H; subst. cbn [elements].
        apply HASH_DEL_NoDup. exact Hnd.
      * intros H. inversion H; subst. exact Hnd.
  - intros H. inversion H; subst. exact Hnd.
Qed.

Lemma run_dataset_ops_unique_tags (l : list DataSetOp) :
  forall (ds ds' : DcmDataSet) (w w' : World) (oks : list bool),
    NoDup (map tag (elements ds)) ->
    run_dataset_ops l ds w = Some ((oks, ds'), w') ->
    NoDup (map tag (elements ds')).
Proof.
  induction l as [| op l IH]; intros ds ds' w w' oks Hnd H;
    cbn [run_dataset_ops] in H.
  - inversion H; subst. exact Hnd.
  - apply bind_Some in H. destruct H as ([ok ds1] & w1 & Hop & H).
    apply bind_Some in H. destruct H as ([oks' ds2] & w2 & Hl & H).
    inversion H; subst. cbn [snd].
    eapply IH; [| exact Hl].
    eapply dataset_op_keeps_unique_tags; [exact Hnd | exact Hop].
Qed.

(** X3.  A data set that comes from [dcm_dataset_create] and goes through
    any succession of insertions, removals and locks holds at most one
    element per tag, and looking up the tag of any element it holds returns
    that very element. *)
Theorem dataset_life_unique_tags (l : list DataSetOp) (w0 w1 w2 : World)
        (ds0 ds : DcmDataSet) (oks : list bool) :
  dcm_dataset_create w0 = Some (Some ds0, w1) ->
  run_dataset_ops l ds0 w1 = Some ((oks, ds), w2) ->
  NoDup (map tag (elements ds)) /\
  (forall e, In e (elements ds) ->
             dcm_dataset_contains ds (tag e) = Some e).
Proof.
  intros Hc Hr.
  assert (Hds0 : ds0 = mkDataSet [] false).
  { unfold dcm_dataset_create in Hc. apply bind_Some in Hc.
    destruct Hc as (ok & w' & _ & Hc).
    destruct ok; cbn [negb] in Hc; inversion Hc; reflexivity. }
  subst ds0.
  assert (Hnd : NoDup (map tag (elements ds))).
  { eapply run_dataset_ops_unique_tags; [| exact Hr]. constructor. }
  split; [exact Hnd |].
  intros e Hin. apply HASH_FIND_INT_unique; assumption.
Qed.

Lemma dataset_life_unique_tags_witness :
  exists oks ds w,
    run_dataset_ops
      [op_insert patient_name; op_insert sop_instance_uid;
       op_insert patient_name; op_remove 0x00100010; op_lock;
       op_insert patient_name]
      (mkDataSet [] false) world0
    = Some ((oks, ds), w) /\
    oks = [true; true; false; true; true; false] /\
    NoDup (map tag (elements ds)) /\
    dcm_dataset_contains ds 0x00080018 = Some sop_instance_uid.
Proof.
  eexists. eexists. eexists.
  split; [vm_compute; reflexivity |]. split; [reflexivity |].
  destruct (@dataset_life_unique_tags
              [op_insert patient_name; op_insert sop_instance_uid;
               op_insert patient_name; op_remove 0x00100010; op_lock;
               op_insert patient_name]
              world0 world0 _ (mkDataSet [] false) _ _
              ltac:(vm_compute; reflexivity)
              ltac:(vm_compute; reflexivity)) as (Hnd & Hfind).
  split; [exact Hnd |].
  apply (Hfind sop_instance_uid). left. reflexivity.
Defined.



(** X5.  A lookup with [dcm_dataset_get] that finds nothing returns NULL and
    reports INVALID; one that returns an element returns an element of the
    set that carries the requested tag, the same one [dcm_dataset_contains]
    returns, and leaves the error slot alone. *)
Theorem dcm_dataset_get_spec (ds : DcmDataSet) (key : Z) (w : World) :
  exists r w',
    dcm_dataset_get ds key w = Some (r, w') /\
    r = dcm_dataset_contains ds key /\
    (r = None -> ~ In key (map tag (elements ds)) /\ invalid_error w') /\
    (forall e, r = Some e ->
               In e (elements ds) /\ tag e = key /\ w' = w).
Proof.
  unfold dcm_dataset_get, dcm_dataset_contains.
  destruct (HASH_FIND_INT (elements ds) key) as [e |] eqn:Hf.
  - exists (Some e), w. split; [reflexivity |]. split; [reflexivity |].
    split; [discriminate |]. intros e0 He0. inversion He0; subst.
    destruct (HASH_FIND_INT_In _ _ Hf) as (Hin & Ht). auto.
  - eexists. eexists. split; [reflexivity |]. split; [reflexivity |].
    split; [| discriminate]. intros _.
    split; [apply HASH_FIND_INT_None; exact Hf |].
    unfold invalid_error. cbn. eauto.
Qed.

(** X6.  [dcm_dataset_copy_tags] on an array of at least [n] cells returns
    with the error slot untouched; the cells from [n] on are as they were,
    and the first [n] cells are a rearrangement of the tags of the first
    elements in insertion order (all of them when the set has [n] or fewer)
    followed, when the set has fewer than [n] elements, by what the array
    held in the cells the loop did not reach: no tag is lost or invented. *)
Theorem dcm_dataset_copy_tags_permutes (ds : DcmDataSet) (tags : list Z)
        (n : Z) (w : World) :
  0 <= n <= Z.of_nat (List.length tags) ->
  exists out,
    dcm_dataset_copy_tags ds tags n w = Some (out, w) /\
    List.length out = List.length tags /\
    skipn (Z.to_nat n) out = skipn (Z.to_nat n) tags /\
    Permutation
      (firstn (Z.to_nat n) out)
      (map tag (firstn (Z.to_nat n) (elements ds))
       ++ firstn (Z.to_nat n - List.length (elements ds))
                 (skipn (List.length (elements ds)) tags)).
Proof.
  intros Hn.
  set (k := Nat.min (List.length (elements ds)) (Z.to_nat n)).
  set (copied := map tag (firstn k (elements ds))).
  assert (Hk : List.length copied = k).
  { subst copied. rewrite length_map, length_firstn. lia. }
  assert (Hrun : copy_tags_loop (elements ds) tags 0 n w
                 = Some (copied ++ skipn k tags, w)).
  { pose proof (@copy_tags_loop_run w (elements ds) [] tags n) as H.
    cbn [List.length app Z.of_nat] in H. rewrite Z.sub_0_r in H.
    apply H. lia. }
  set (first := copied ++ firstn (Z.to_nat n - k) (skipn k tags)).
  assert (Hsplit : copied ++ skipn k tags
                   = first ++ skipn (Z.to_nat n) tags).
  { subst first. rewrite <- app_assoc. f_equal.
    rewrite <- (firstn_skipn (Z.to_nat n - k) (skipn k tags)) at 1.
    f_equal. rewrite skipn_skipn. f_equal. lia. }
  assert (Hfirst : List.length first = Z.to_nat n).
  { subst first. rewrite length_app, Hk, length_firstn, length_skipn. lia. }
  exists (qsort_all compare_tags first ++ skipn (Z.to_nat n) tags).
  assert (Hsorted_len : List.length (qsort_all compare_tags first)
                        = Z.to_nat n).
  { rewrite <- Hfirst. symmetry. apply Permutation_length.
    apply qsort_all_perm. }
  split; [| split; [| split]].
  - unfold dcm_dataset_copy_tags, bind. rewrite Hrun, Hsplit.
    unfold qsort.
    destruct (Z.ltb_spec
                (Z.of_nat (List.length (first ++ skipn (Z.to_nat n) tags)))
                n) as [Hlt | _].
    { rewrite length_app, length_skipn in Hlt. lia. }
    unfold ret.
    rewrite (firstn_length_app first _ (eq_sym Hfirst)).
    rewrite (skipn_length_app first _ (eq_sym Hfirst)). reflexivity.
  - rewrite length_app, Hsorted_len, length_skipn. lia.
  - apply skipn_length_app. symmetry. exact Hsorted_len.
  - rewrite (firstn_length_app _ _ (eq_sym Hsorted_len)).
    apply Permutation_sym. eapply perm_trans; [| apply qsort_all_perm].
    subst first copied.
    replace (firstn k (elements ds))
      with (firstn (Z.to_nat n) (elements ds)).
    + destruct (Nat.le_gt_cases (List.length (elements ds)) (Z.to_nat n))
        as [Hle | Hgt].
      * replace k with (List.length (elements ds)) by lia.
        apply Permutation_refl.
      * replace (Z.to_nat n - k)%nat with 0%nat by lia.
        replace (Z.to_nat n - List.length (elements ds))%nat with 0%nat
          by lia.
        apply Permutation_refl.
    + subst k.
      destruct (Nat.le_gt_cases (List.length (elements ds)) (Z.to_nat n))
        as [Hle | Hgt].
      * rewrite Nat.min_l by lia. rewrite !firstn_all2 by lia. reflexivity.
      * rewrite Nat.min_r by lia. reflexivity.
Qed.

Lemma dcm_dataset_copy_tags_permutes_witness :
  exists out,
    dcm_dataset_copy_tags (mkDataSet [sop_instance_uid] false)
                          [7; 5; 9] 2 world0
    = Some (out, world0) /\
    skipn 2 out = [9] /\
    Permutation (firstn 2 out) [0x00080018; 5].
Proof.
  destruct (@dcm_dataset_copy_tags_permutes
              (mkDataSet [sop_instance_uid] false) [7; 5; 9] 2 world0)
    as (out & Hrun & _ & Hskip & Hperm).
  - cbn. lia.
  - exists out. split; [exact Hrun |]. split; [exact Hskip | exact Hperm].
Defined.

Lemma NoDup_firstn {A} (l : list A) (n : nat) :
  NoDup l -> NoDup (firstn n l).
Proof.
  intros H. rewrite <- (firstn_skipn n l) in H.
  eapply NoDup_app_remove_r. exact H.
Qed.

Lemma Forall_firstn {A} (P : A -> Prop) (l : list A) (n : nat) :
  Forall P l -> Forall P (firstn n l).
Proof.
  intros H. rewrite <- (firstn_skipn n l) in H.
  apply Forall_app in H. apply H.
Qed.

(** X7.  On a set with one element per tag whose tags are all below
    [2^31], copying [n] tags, [n] not above the count, leaves in the first
    [n] cells exactly the tags of the first [n] elements in strictly
    ascending order, each of which [dcm_dataset_get] then finds in the set
    (the order [dcm_dataset_print] walks). *)
Theorem dcm_dataset_copy_tags_ascending (ds : DcmDataSet) (tags : list Z)
        (n : Z) (w : World) :
  NoDup (map tag (elements ds)) ->
  Forall low_tag (map tag (elements ds)) ->
  0 <= n <= Z.of_nat (List.length (elements ds)) ->
  n <= Z.of_nat (List.length tags) ->
  exists sorted,
    dcm_dataset_copy_tags ds tags n w
    = Some (sorted ++ skipn (Z.to_nat n) tags, w) /\
    Sorted Z.lt sorted /\
    (forall t, In t sorted <->
               In t (map tag (firstn (Z.to_nat n) (elements ds)))) /\
    (forall t w0, In t sorted ->
                  exists e, dcm_dataset_get ds t w0 = Some (Some e, w0) /\
                            tag e = t).
Proof.
  intros Hnd Hlow Hn Ht.
  destruct (@dcm_dataset_copy_tags_low ds tags n w Hn Ht)
    as (sorted & Hrun & Hs & Hp).
  - rewrite <- firstn_map. apply Forall_firstn. exact Hlow.
  - rewrite <- firstn_map. apply NoDup_firstn. exact Hnd.
  - exists sorted. split; [exact Hrun |]. split; [exact Hs |]. split.
    + intros t. split; intros H.
      * eapply Permutation_in; [apply Permutation_sym; exact Hp | exact H].
      * eapply Permutation_in; [exact Hp | exact H].
    + intros t w0 Hin.
      assert (Hin' : In t (map tag (elements ds))).
      { eapply Permutation_in in Hin; [| apply Permutation_sym; exact Hp].
        rewrite <- firstn_map in Hin.
        rewrite <- (firstn_skipn (Z.to_nat n) (map tag (elements ds))).
        apply in_or_app. left. exact Hin. }
      unfold dcm_dataset_get, dcm_dataset_contains.
      destruct (HASH_FIND_INT (elements ds) t) as [e |] eqn:Hf.
      * exists e. split; [reflexivity |].
        apply (HASH_FIND_INT_In _ _ Hf).
      * apply HASH_FIND_INT_None in Hf. contradiction.
Qed.

Lemma dcm_dataset_copy_tags_ascending_witness :
  exists sorted,
    dcm_dataset_copy_tags (mkDataSet [patient_name; sop_instance_uid] false)
                          [0; 0] 2 world0
    = Some (sorted ++ [], world0) /\
    Sorted Z.lt sorted /\
    (In 0x00100010 sorted <->
     In 0x00100010
        (map tag (firstn 2 [patient_name; sop_instance_uid]))).
Proof.
  destruct (@dcm_dataset_copy_tags_ascending
              (mkDataSet [patient_name; sop_instance_uid] false)
              [0; 0] 2 world0)
    as (sorted & Hrun & Hs & Hiff & _).
  - cbn. repeat constructor; cbn; intuition discriminate.
  - cbn. repeat constructor; cbn; lia.
  - cbn. lia.
  - cbn. lia.
  - exists sorted. split; [exact Hrun |]. split; [exact Hs |].
    apply Hiff.
Defined.

(** ** Sequences: append, get, remove and iteration *)

Lemma utarray_len_small (cells : list DcmDataSet) :
  Z.of_nat (List.length cells) < 2 ^ 32 ->
  utarray_len cells = Z.of_nat (List.length cells).
Proof. intros H. unfold utarray_len, wrap32. apply Z.mod_small. lia. Qed.

Lemma list_update_same {A} (l : list A) (i : nat) (x : A) :
  nth_error l i = Some x -> list_update l i x = l.
Proof.
  revert i. induction l as [| y l IH]; intros [| i] H; cbn in *;
    try discriminate.
  - inversion H. reflexivity.
  - f_equal. apply IH. exact H.
Qed.

Lemma dcm_dataset_lock_idempotent (d : DcmDataSet) :
  dcm_dataset_lock (dcm_dataset_lock d) = dcm_dataset_lock d.
Proof. reflexivity. Qed.

(** X8.  After a successful append (unlocked sequence, memory for the item
    handle, room in the [uint32_t] count) the count is one larger, the items
    that were there are untouched, and [dcm_sequence_get] at the old count
    returns the appended data set, locked and with the elements it had,
    without changing the sequence any further. *)
Theorem dcm_sequence_append_then_get (seq : DcmSequence) (item : DcmDataSet)
        (w : World) :
  dcm_sequence_is_locked seq = false ->
  hd true (allocs w) = true ->
  Z.of_nat (List.length (items seq)) < 2 ^ 32 - 1 ->
  exists seq1 w1,
    dcm_sequence_append seq item w = Some ((true, seq1), w1) /\
    error w1 = error w /\
    dcm_sequence_count seq1 = dcm_sequence_count seq + 1 /\
    (forall i, (i < List.length (items seq))%nat ->
               nth_error (items seq1) i = nth_error (items seq) i) /\
    dcm_sequence_get seq1 (dcm_sequence_count seq) w1
    = Some ((Some (dcm_dataset_lock item), seq1), w1) /\
    elements (dcm_dataset_lock item) = elements item /\
    dcm_dataset_is_locked (dcm_dataset_lock item) = true.
Proof.
  intros Hl Hmem Hlen.
  unfold dcm_sequence_is_locked in Hl.
  assert (Happ : dcm_sequence_append seq item w
                 = Some ((true,
                          mkSequence (items seq ++ [dcm_dataset_lock item])
                                     false),
                         mkWorld (error w) (tl (allocs w)) (destroyed w))).
  { unfold dcm_sequence_append. rewrite Hl.
    unfold bind, create_sequence_item, bind.
    rewrite (dcm_alloc_succeeds w Hmem). reflexivity. }
  rewrite Happ. eexists. eexists. split; [reflexivity |].
  cbn [error]. split; [reflexivity |].
  unfold dcm_sequence_count. cbn [items].
  rewrite !utarray_len_small by (try rewrite length_app; cbn; lia).
  rewrite length_app. cbn [List.length].
  split; [lia |]. split.
  - intros i Hi. apply nth_error_app1. exact Hi.
  - split; [| split; reflexivity].
    unfold dcm_sequence_get. cbn [items seq_is_locked].
    rewrite utarray_len_small by (rewrite length_app; cbn; lia).
    rewrite length_app. cbn [List.length].
    destruct (Z.leb_spec (Z.of_nat (List.length (items seq) + 1))
                         (Z.of_nat (List.length (items seq)))); [lia |].
    rewrite Nat2Z.id.
    assert (Hnth : nth_error (items seq ++ [dcm_dataset_lock item])
                             (List.length (items seq))
                   = Some (dcm_dataset_lock item)).
    { rewrite nth_error_app2 by lia. rewrite Nat.sub_diag. reflexivity. }
    rewrite Hnth. rewrite dcm_dataset_lock_idempotent.
    rewrite (list_update_same _ _ Hnth). reflexivity.
Qed.

Lemma dcm_sequence_append_then_get_witness :
  exists seq1 w1,
    dcm_sequence_append two_items (mkDataSet [sop_instance_uid] false) world0
    = Some ((true, seq1), w1) /\
    dcm_sequence_count seq1 = 3 /\
    dcm_sequence_get seq1 2 w1
    = Some ((Some (mkDataSet [sop_instance_uid] true), seq1), w1).
Proof.
  destruct (@dcm_sequence_append_then_get
              two_items (mkDataSet [sop_instance_uid] false) world0)
    as (seq1 & w1 & Happ & _ & Hc & _ & Hget & _).
  - reflexivity.
  - reflexivity.
  - cbn. lia.
  - exists seq1, w1. split; [exact Happ |]. split.
    + rewrite Hc. reflexivity.
    + exact Hget.
Defined.


Lemma map_elements_list_update_lock (l : list DcmDataSet) (i : nat)
      (d : DcmDataSet) :
  nth_error l i = Some d ->
  map elements (list_update l i (dcm_dataset_lock d)) = map elements l.
Proof.
  revert i. induction l as [| y l IH]; intros [| i] H; cbn in *;
    try discriminate.
  - inversion H; subst. reflexivity.
  - f_equal. apply IH. exact H.
Qed.




Lemma Forall_list_update {A} (P : A -> Prop) (l : list A) (i : nat) (x : A) :
  Forall P l -> P x -> Forall P (list_update l i x).
Proof.
  intros Hl Hx. revert i. induction Hl as [| y l Hy Hl IH]; intros [| i];
    cbn; constructor; auto.
Qed.

Lemma Forall_list_erase {A} (P : A -> Prop) (l : list A) (i : nat) :
  Forall P l -> Forall P (list_erase l i).
Proof.
  intros Hl. revert i. induction Hl as [| y l Hy Hl IH]; intros [| i];
    cbn; auto.
Qed.

Lemma sequence_op_keeps_items_locked (op : SequenceOp) (seq seq' : DcmSequence)
      (w w' : World) :
  Forall (fun d => is_locked d = true) (items seq) ->
  match op with
  | op_append item => r <- dcm_sequence_append seq item ;; ret (snd r)
  | op_get index => r <- dcm_sequence_get seq index ;; ret (snd r)
  | op_erase index => dcm_sequence_remove seq index
  | op_lock_sequence => ret (dcm_sequence_lock seq)
  end w = Some (seq', w') ->
  Forall (fun d => is_locked d = true) (items seq').
Proof.
  intros Hall. destruct op as [item | index | index |].
  - intros H. apply bind_Some in H. destruct H as ([ok s1] & w1 & Happ & H).
    inversion H; subst. cbn [snd]. clear H.
    unfold dcm_sequence_append in Happ. destruct (seq_is_locked seq).
    + inversion Happ; subst. exact Hall.
    + apply bind_Some in Happ. destruct Happ as (h & w2 & Hh & Happ).
      apply bind_Some in Happ. destruct Happ as (cells & w3 & Hpush & Happ).
      inversion Happ; subst. cbn [items].
      unfold utarray_push_back, copy_sequence_item_icd in Hpush.
      destruct h as [h |]; [| discriminate].
      inversion Hpush; subst. apply Forall_app. split; [exact Hall |].
      constructor; [reflexivity | constructor].
  - intros H. apply bind_Some in H. destruct H as ([r s1] & w1 & Hget & H).
    inversion H; subst. cbn [snd]. clear H.
    unfold dcm_sequence_get in Hget.
    destruct (utarray_len (items seq) <=? index).
    + inversion Hget; subst. exact Hall.
    + destruct (nth_error (items seq) (Z.to_nat index)).
      * inversion Hget; subst. cbn [items].
        apply Forall_list_update; [exact Hall | reflexivity].
      * inversion Hget; subst. exact Hall.
  - unfold dcm_sequence_remove. destruct (seq_is_locked seq).
    + intros H. inversion H; subst. exact Hall.
    + destruct (utarray_len (items seq) <=? index).
      * intros H. inversion H; subst. exact Hall.
      * destruct (nth_error (items seq) (Z.to_nat index)); [| discriminate].
        intros H. inversion H; subst. cbn [items].
        apply Forall_list_erase. exact Hall.
  - intros H. inversion H; subst. exact Hall.
Qed.

(** X10.  Every item of a sequence that comes from [dcm_sequence_create]
    and goes through any succession of appends, gets, removals and locks is
    a locked data set: no path stores an item without locking it and none
    unlocks one. *)
Theorem sequence_life_items_locked (l : list SequenceOp) (w0 w1 w2 : World)
        (seq0 seq : DcmSequence) :
  dcm_sequence_create w0 = Some (Some seq0, w1) ->
  run_sequence_ops l seq0 w1 = Some (seq, w2) ->
  Forall (fun d => dcm_dataset_is_locked d = true) (items seq).
Proof.
  intros Hc Hr. unfold dcm_dataset_is_locked.
  assert (H0 : Forall (fun d => is_locked d = true) (items seq0)).
  { unfold dcm_sequence_create in Hc. apply bind_Some in Hc.
    destruct Hc as (ok & w' & _ & Hc).
    destruct ok; cbn [negb] in Hc; [| discriminate].
    apply bind_Some in Hc. destruct Hc as (got & w'' & _ & Hc).
    destruct got; cbn [negb] in Hc; inversion Hc; subst. constructor. }
  clear Hc. revert seq0 w1 H0 Hr.
  induction l as [| op l IH]; intros seq0 w1 H0 Hr;
    cbn [run_sequence_ops] in Hr.
  - inversion Hr; subst. exact H0.
  - apply bind_Some in Hr. destruct Hr as (seq1 & w1' & Hop & Hr).
    eapply IH; [| exact Hr].
    eapply sequence_op_keeps_items_locked; [exact H0 | exact Hop].
Qed.

Lemma sequence_life_items_locked_witness :
  exists seq w,
    run_sequence_ops
      [op_append one_name; op_append (mkDataSet [] false); op_erase 0;
       op_append one_name; op_get 1]
      (mkSequence [] false) world0
    = Some (seq, w) /\
    dcm_sequence_count seq = 2 /\
    Forall (fun d => dcm_dataset_is_locked d = true) (items seq).
Proof.
  eexists. eexists. split; [vm_compute; reflexivity |].
  split; [reflexivity |].
  apply (@sequence_life_items_locked
           [op_append one_name; op_append (mkDataSet [] false); op_erase 0;
            op_append one_name; op_get 1]
           world0 world0 _ (mkSequence [] false) _
           ltac:(vm_compute; reflexivity)
           ltac:(vm_compute; reflexivity)).
Defined.






(** The loop of the iteration, started at an index with [n] items left. *)
Lemma sequence_foreach_loop_run (fn : DcmDataSet -> M unit) (n : nat) :
  forall (i : nat) (seq seq' : DcmSequence) (w w' : World),
    sequence_foreach_loop n (Z.of_nat i) seq fn w = Some (seq', w') ->
    seq_is_locked seq' = seq_is_locked seq /\
    map elements (items seq') = map elements (items seq) /\
    (forall j d, (i <= j < i + n)%nat -> nth_error (items seq') j = Some d ->
                 is_locked d = true) /\
    (forall j, (j < i \/ i + n <= j)%nat ->
               nth_error (items seq') j = nth_error (items seq) j).
Proof.
  induction n as [| n IH]; intros i seq seq' w w' H;
    cbn [sequence_foreach_loop] in H.
  - inversion H; subst. repeat split; auto. intros j d Hj. lia.
  - rewrite Nat2Z.id in H.
    destruct (nth_error (items seq) i) as [item |] eqn:E; [| discriminate].
    apply bind_Some in H. destruct H as (u & w1 & _ & H).
    replace (Z.of_nat i + 1) with (Z.of_nat (S i)) in H by lia.
    apply IH in H. cbn [items seq_is_locked] in H.
    destruct H as (Hl & Hel & Hin & Hout).
    split; [exact Hl |].
    split; [rewrite Hel; apply map_elements_list_update_lock; exact E |].
    assert (Hi : (i < List.length (items seq))%nat)
      by (apply nth_error_Some; congruence).
    split.
    + intros j d Hj Hd. destruct (Nat.eq_dec j i) as [-> | Hne].
      * rewrite Hout in Hd by lia.
        rewrite nth_error_list_update in Hd by exact Hi.
        inversion Hd; subst. reflexivity.
      * eapply Hin; [| exact Hd]. lia.
    + intros j Hj. rewrite Hout by lia.
      apply nth_error_list_update_other. lia.
Qed.

(** X12.  Iterating over a sequence with [dcm_sequence_foreach] writes it:
    when the call returns, whatever the callback did to the world, every
    item of the sequence is locked; the items keep their number, order and
    elements and the lock of the sequence itself is as before. *)
Theorem dcm_sequence_foreach_locks_items (seq seq' : DcmSequence)
        (fn : DcmDataSet -> M unit) (w w' : World) :
  Z.of_nat (List.length (items seq)) < 2 ^ 32 ->
  dcm_sequence_foreach seq fn w = Some (seq', w') ->
  Forall (fun d => dcm_dataset_is_locked d = true) (items seq') /\
  map elements (items seq') = map elements (items seq) /\
  dcm_sequence_is_locked seq' = dcm_sequence_is_locked seq.
Proof.
  intros Hlen H. unfold dcm_sequence_foreach in H.
  rewrite (utarray_len_small _ Hlen), Nat2Z.id in H.
  apply (sequence_foreach_loop_run fn _ 0%nat) in H.
  destruct H as (Hl & Hel & Hin & _).
  split; [| split; [exact Hel | exact Hl]].
  apply Forall_forall. intros d Hd. apply In_nth_error in Hd.
  destruct Hd as (j & Hj).
  apply (Hin j d); [| exact Hj].
  assert (j < List.length (items seq'))%nat
    by (apply nth_error_Some; congruence).
  assert (List.length (items seq') = List.length (items seq)).
  { rewrite <- (length_map elements (items seq')), Hel. apply length_map. }
  lia.
Qed.

Lemma dcm_sequence_foreach_locks_items_witness :
  exists seq' w',
    dcm_sequence_foreach two_items (fun _ => ret tt) world0
    = Some (seq', w') /\
    Forall (fun d => dcm_dataset_is_locked d = false) (items two_items) /\
    Forall (fun d => dcm_dataset_is_locked d = true) (items seq').
Proof.
  destruct (dcm_sequence_foreach two_items (fun _ => ret tt) world0)
    as [[seq' w'] |] eqn:Hrun; [| vm_compute in Hrun; discriminate].
  destruct (@dcm_sequence_foreach_locks_items two_items seq'
              (fun _ => ret tt) world0 w') as (Hall & _).
  - cbn. lia.
  - exact Hrun.
  - exists seq', w'. split; [reflexivity |]. split; [| exact Hall].
    repeat constructor.
Defined.

(** ** Elements: creation, the setters and the getters *)

Section ElementExtras.

Context {dict : Dictionary} {fconv : FloatConversions} {freads : FloatReads}.

(** X13.  [dcm_element_create] always returns.  It returns NULL exactly
    when the allocation fails or the dictionary does not know the tag; an
    allocation failure reports NOMEM.  An element it returns carries the tag
    and the dictionary's VR for it, is unassigned with no value and [vm] 0,
    and has the provisional length rounded up to even in [uint32_t] (so
    [UINT32_MAX] becomes 0); the error slot is then untouched. *)
Theorem dcm_element_create_outcomes (tag_arg length_arg : Z) (w : World) :
  exists r w',
    dcm_element_create tag_arg length_arg w = Some (r, w') /\
    (r = None <->
     (hd true (allocs w) = false \/
      dcm_dict_lookup_vr tag_arg = DCM_VR_uk)) /\
    (hd true (allocs w) = false ->
     exists summary message,
       error w' = Some (mkError DCM_ERROR_CODE_NOMEM summary message)) /\
    (forall e, r = Some e ->
       tag e = tag_arg /\ vr e = dcm_dict_lookup_vr tag_arg /\
       vm e = 0 /\ assigned e = false /\ value e = value_zero /\
       length e = even_length32 length_arg /\
       Z.even (length e) = true /\
       (wrap32 length_arg = 2 ^ 32 - 1 -> length e = 0) /\
       error w' = error w).
Proof.
  destruct (hd true (allocs w)) eqn:Hmem.
  - destruct (DcmVR_eq_dec (dcm_dict_lookup_vr tag_arg) DCM_VR_uk)
      as [Hu | Hk].
    + unfold dcm_element_create, bind.
      rewrite (dcm_alloc_succeeds w Hmem). cbn [negb].
      fold (fresh_element tag_arg (dcm_dict_lookup_vr tag_arg) 0).
      rewrite element_set_length_fresh. cbn [vr fresh_element].
      rewrite Hu. cbn. eexists. eexists. split; [reflexivity |].
      split; [split; auto |]. split; discriminate.
    + rewrite (@dcm_element_create_known_tag dict tag_arg length_arg w Hk Hmem).
      eexists. eexists. split; [reflexivity |].
      split; [split; [discriminate | intros [H | H]; congruence] |].
      split; [discriminate |].
      intros e He. inversion He; subst. cbn.
      repeat split; try reflexivity.
      * apply even_length32_even.
      * intros Hmax. unfold even_length32. rewrite Hmax. reflexivity.
  - unfold dcm_element_create, bind, dcm_alloc.
    destruct w as [err al ds]. cbn in Hmem.
    destruct al as [| [|] al]; cbn in Hmem; try discriminate.
    cbn. eexists. eexists. split; [reflexivity |].
    split; [split; auto |].
    split; [intros _; cbn; do 2 eexists; reflexivity | discriminate].
Qed.

(** X14.  The group and the element number of an element with a 32-bit tag
    are 16-bit numbers that make up the tag again: the group is the high
    half, the element number the low half. *)
Theorem group_and_element_number_make_the_tag (e : DcmElement) :
  0 <= tag e < 2 ^ 32 ->
  0 <= dcm_element_get_group_number e < 2 ^ 16 /\
  0 <= dcm_element_get_element_number e < 2 ^ 16 /\
  dcm_element_get_tag e
  = dcm_element_get_group_number e * 2 ^ 16
    + dcm_element_get_element_number e /\
  dcm_element_get_tag e
  = Z.lor (Z.shiftl (dcm_element_get_group_number e) 16)
          (dcm_element_get_element_number e).
Proof.
  intros Ht.
  unfold dcm_element_get_group_number, dcm_element_get_element_number,
    dcm_element_get_tag, wrap16.
  rewrite Z.shiftr_div_pow2 by lia.
  assert (Hq : 0 <= tag e / 2 ^ 16 < 2 ^ 16).
  { split; [apply Z.div_pos; lia |].
    apply Z.div_lt_upper_bound; lia. }
  rewrite (Z.mod_small (tag e / 2 ^ 16)) by exact Hq.
  assert (Hr : 0 <= tag e mod 2 ^ 16 < 2 ^ 16)
    by (apply Z.mod_pos_bound; lia).
  assert (Hsum : tag e = tag e / 2 ^ 16 * 2 ^ 16 + tag e mod 2 ^ 16).
  { rewrite Z.mul_comm. apply Z.div_mod. lia. }
  split; [exact Hq |]. split; [exact Hr |]. split; [exact Hsum |].
  rewrite Z.shiftl_mul_pow2 by lia.
  assert (Hland : Z.land (tag e / 2 ^ 16 * 2 ^ 16) (tag e mod 2 ^ 16) = 0).
  { apply Z.bits_inj'. intros n Hn. rewrite Z.land_spec, Z.bits_0.
    destruct (Z_lt_le_dec n 16) as [Hlt | Hge].
    - rewrite Z.mul_pow2_bits_low by lia. reflexivity.
    - rewrite (Z.mod_pow2_bits_high (tag e) 16 n) by lia.
      apply andb_false_r. }
  rewrite <- (Z.lxor_lor _ _ Hland), <- (Z.add_nocarry_lxor _ _ Hland).
  exact Hsum.
Qed.

Lemma group_and_element_number_make_the_tag_witness :
  dcm_element_get_group_number patient_name = 0x0010 /\
  dcm_element_get_element_number patient_name = 0x0010 /\
  dcm_element_get_tag patient_name
  = dcm_element_get_group_number patient_name * 2 ^ 16
    + dcm_element_get_element_number patient_name.
Proof.
  destruct (@group_and_element_number_make_the_tag patient_name)
    as (_ & _ & H & _).
  - cbn. lia.
  - split; [reflexivity |]. split; [reflexivity | exact H].
Defined.

(** *** The shape of a setter call *)

Lemma flags_only_refl (e : DcmElement) : flags_only e e.
Proof. repeat split. Qed.

Lemma flags_only_trans (e e1 e2 : DcmElement) :
  flags_only e e1 -> flags_only e1 e2 -> flags_only e e2.
Proof.
  intros (A & B & C & D & E & F) (A' & B' & C' & D' & E' & F').
  repeat split; congruence.
Qed.

Lemma flags_only_value_pointer (e : DcmElement) (b : bool) :
  flags_only e (set_value_pointer e b).
Proof. destruct e; repeat split. Qed.

Lemma flags_only_value_pointer_array (e : DcmElement) (b : bool) :
  flags_only e (set_value_pointer_array e b).
Proof. destruct e; repeat split. Qed.

Lemma flags_only_sequence_pointer (e : DcmElement) (b : bool) :
  flags_only e (set_sequence_pointer e b).
Proof. destruct e; repeat split. Qed.

Lemma setter_shape_untouched (e : DcmElement) : setter_shape e false e.
Proof. exists e. split; [constructor | reflexivity]. Qed.

Lemma setter_shape_flag (e : DcmElement) (ok : bool) (e1 e2 : DcmElement) :
  setter_shape e ok e1 -> ok = true -> flags_only e1 e2 ->
  setter_shape e ok e2.
Proof.
  intros (x & Hw & H) -> Hf. exists x. split; [exact Hw |].
  destruct H as (Hv & Hf1). split; [exact Hv |].
  eapply flags_only_trans; eassumption.
Qed.

Lemma validate_shape (e e1 : DcmElement) (w w' : World) (ok : bool)
      (e' : DcmElement) :
  data_writes e e1 ->
  dcm_element_validate e1 w = Some ((ok, e'), w') ->
  setter_shape e ok e'.
Proof.
  intros Hw H. pose proof H as H0.
  apply dcm_element_validate_run in H.
  destruct H as [(-> & _ & _ & _ & -> & ->) | (-> & -> & _)].
  - exists e1. split; [exact Hw |]. split; [eauto | apply flags_only_refl].
  - exists e1. split; [exact Hw | reflexivity].
Qed.

Lemma validate_steal_shape (e e1 : DcmElement)
      (flag : DcmElement -> DcmElement) (steal : bool)
      (w w' : World) (ok : bool) (e' : DcmElement) :
  data_writes e e1 ->
  (forall x, flags_only x (flag x)) ->
  (v <- dcm_element_validate e1 ;;
   let '(ok, element) := v in
   if negb ok then ret (false, element)
   else if steal then ret (true, flag element)
   else ret (true, element)) w = Some ((ok, e'), w') ->
  setter_shape e ok e'.
Proof.
  intros Hw Hflag H.
  apply bind_Some in H. destruct H as ([b e2] & w1 & Hv & H).
  pose proof (@validate_shape _ _ _ _ _ _ Hw Hv) as Hs.
  destruct b; cbn [negb] in H.
  - destruct steal; inversion H; subst; [| exact Hs].
    eapply setter_shape_flag; [exact Hs | reflexivity | apply Hflag].
  - inversion H; subst. exact Hs.
Qed.

Ltac enter_setter C w :=
  let w' := fresh "w" in
  let Hrun := fresh "Hrun" in
  let Htrue := fresh "Htrue" in
  let Hc := fresh "Hc" in
  destruct (check_is_inv w C) as (w' & Hrun & Htrue & _);
  unfold bind at 1; rewrite Hrun; clear Hrun;
  match goal with
  | |- context [negb ?c] =>
      destruct c eqn:Hc; cbn [negb];
      [ rewrite (Htrue eq_refl); clear Htrue
      | let H := fresh "H" in
        intros H; inversion H; subst; apply setter_shape_untouched ]
  end.

Create HintDb shape.

#[local] Hint Constructors data_writes : shape.

Lemma run_setter_shape (s : Setter) (e : DcmElement) (w w' : World)
      (ok : bool) (e' : DcmElement) :
  run_setter s e w = Some ((ok, e'), w') -> setter_shape e ok e'.
Proof.
  assert (Hmulti :
            forall values vm_arg steal e w w' ok e',
              dcm_element_set_value_string_multi e values vm_arg steal w
              = Some ((ok, e'), w') -> setter_shape e ok e').
  { clear. intros values vm_arg steal e w w' ok e'.
    unfold dcm_element_set_value_string_multi.
    enter_setter (and_then_is (element_check_not_assigned_is e)
                              (element_check_string_is e)) w.
    intros H. apply bind_Some in H. destruct H as (r & w1 & Hr & H).
    assert (Hid : match r with
                  | Some e1 => data_writes e e1
                  | None => True
                  end).
    { destruct (vm_arg =? 1).
      - destruct (nth_error values 0); [| discriminate].
        inversion Hr; subst. auto with shape.
      - destruct (class_eqb (dcm_dict_vr_class (vr e))
                            DCM_CLASS_STRING_MULTI);
          cbn in Hr; inversion Hr; subst; [auto with shape | exact I]. }
    destruct r as [e1 |].
    - apply bind_Some in H. destruct H as (len & w2 & _ & H).
      eapply validate_steal_shape; [| | exact H].
      + auto with shape.
      + intros y. apply flags_only_value_pointer_array.
    - inversion H; subst. apply setter_shape_untouched. }
  assert (Hstring :
            forall value_arg steal e w w' ok e',
              element_set_value_string e value_arg steal w
              = Some ((ok, e'), w') -> setter_shape e ok e').
  { clear - Hmulti. intros value_arg steal e w w' ok e'.
    unfold element_set_value_string.
    enter_setter (and_then_is (element_check_not_assigned_is e)
                              (element_check_string_is e)) w.
    intros H. apply bind_Some in H. destruct H as ([b e1] & w1 & Hr & H).
    assert (Hp : setter_shape e b e1).
    { destruct (class_eqb _ DCM_CLASS_STRING_MULTI).
      - apply bind_Some in Hr. destruct Hr as (p & w2 & _ & Hr).
        destruct p as [[values vm_parsed] |].
        + apply bind_Some in Hr. destruct Hr as ([b2 e2] & w3 & Hm & Hr).
          apply Hmulti in Hm.
          destruct b2; cbn [negb] in Hr.
          * inversion Hr; subst. exact Hm.
          * apply bind_Some in Hr. destruct Hr as (u & w4 & _ & Hr).
            inversion Hr; subst. exact Hm.
        + inversion Hr; subst. apply setter_shape_untouched.
      - eapply validate_shape; [| exact Hr]. auto with shape. }
    destruct b; cbn [negb] in H.
    - destruct steal; inversion H; subst; auto.
      eapply setter_shape_flag;
        [exact Hp | reflexivity | apply flags_only_value_pointer].
    - inversion H; subst. exact Hp. }
  destruct s; cbn [run_setter].
  - apply Hstring.
  - apply Hstring.
  - apply Hmulti.
  - unfold dcm_element_set_value_integer.
    enter_setter (and_then_is (element_check_not_assigned_is e)
                    (and_then_is (element_check_numeric_is e)
                                 (element_check_integer_is e))) w.
    intros H. eapply validate_shape; [| exact H]. auto with shape.
  - unfold dcm_element_set_value_numeric_multi.
    enter_setter (and_then_is (element_check_not_assigned_is e)
                              (element_check_numeric_is e)) w.
    intros H. apply bind_Some in H. destruct H as (x & w1 & _ & H).
    eapply validate_steal_shape; [| | exact H].
    + auto with shape.
    + intros y. apply flags_only_value_pointer.
  - unfold dcm_element_set_value_double.
    enter_setter (and_then_is (element_check_not_assigned_is e)
                    (and_then_is (element_check_numeric_is e)
                                 (element_check_float_is e))) w.
    intros H. eapply validate_shape; [| exact H]. auto with shape.
  - unfold dcm_element_set_value_binary.
    enter_setter (and_then_is (element_check_not_assigned_is e)
                              (element_check_binary_is e)) w.
    intros H. eapply validate_steal_shape; [| | exact H].
    + auto with shape.
    + intros y. apply flags_only_value_pointer.
  - intros H. apply bind_Some in H.
    destruct H as ([[b e1] s1] & w1 & Hr & H).
    inversion H; subst. cbn [fst snd]. clear H. revert Hr.
    unfold dcm_element_set_value_sequence.
    enter_setter (and_then_is (element_check_not_assigned_is e)
                              (element_check_sequence_is e)) w.
    destruct seq as [value_seq |]; [| discriminate].
    intros H. apply bind_Some in H.
    destruct H as ([len value_seq'] & w2 & _ & H).
    destruct len as [len |].
    + apply bind_Some in H. destruct H as ([b2 e2] & w3 & Hv & H).
      eapply validate_shape in Hv; [| shelve].
      destruct b2; cbn [negb] in H; inversion H; subst.
      * eapply setter_shape_flag;
          [exact Hv | reflexivity | apply flags_only_sequence_pointer].
      * exact Hv.
    + inversion H; subst. apply setter_shape_untouched.
  Unshelve. auto with shape.
Qed.

(** *** What an accepted element satisfies *)

Lemma dcm_element_get_value_string_reads (e : DcmElement) (index : nat)
      (v : string) (w w' : World) :
  dcm_element_get_value_string e (Z.of_nat index) w = Some (Some v, w') ->
  assigned e = true /\
  is_string_class (dcm_dict_vr_class (vr e)) = true /\
  Z.of_nat index < vm e /\
  stored_string e index = Some v /\ w' = w.
Proof.
  unfold dcm_element_get_value_string.
  pose proof (and_then_is (element_check_assigned_is e)
                (and_then_is (element_check_string_is e)
                   (element_check_index_is e (Z.of_nat index)))) as C.
  destruct (check_is_inv w C) as (w1 & Hrun & Htrue & _).
  unfold bind at 1. rewrite Hrun. clear Hrun.
  destruct (assigned e); cbn [andb negb] in *; [| discriminate].
  destruct (is_string_class (dcm_dict_vr_class (vr e)));
    cbn [andb negb] in *; [| discriminate].
  destruct (Z.ltb_spec (Z.of_nat index) (vm e));
    cbn [andb negb] in *; [| discriminate].
  rewrite (Htrue eq_refl).
  unfold stored_string, bind, read_single_str, read_multi_str.
  rewrite Nat2Z.id.
  destruct (vm e =? 1); destruct (value e); try discriminate.
  - intros Hx. inversion Hx. auto.
  - destruct (nth_error _ index); [| discriminate].
    intros Hx. inversion Hx. auto.
Qed.

Lemma check_capacity_loop_accepts (e : DcmElement) (capacity : Z) :
  forall (n i : nat) (w w' : World),
    check_capacity_loop e capacity n (Z.of_nat i) w = Some (true, w') ->
    forall j, (i <= j < i + n)%nat ->
              exists v, stored_string e j = Some v /\ strlen v <= capacity.
Proof.
  induction n as [| n IH]; intros i w w' H j Hj; [lia |].
  cbn [check_capacity_loop] in H. apply bind_Some in H.
  destruct H as (r & w1 & Hg & H).
  destruct r as [v |]; [| discriminate].
  apply dcm_element_get_value_string_reads in Hg.
  destruct Hg as (_ & _ & _ & Hst & ->).
  destruct (Z.ltb_spec capacity (strlen v)); [discriminate |].
  destruct (Nat.eq_dec j i) as [-> | Hne].
  - exists v. auto.
  - replace (Z.of_nat i + 1) with (Z.of_nat (S i)) in H by lia.
    eapply IH; [exact H | lia].
Qed.

Lemma validate_accepts (e : DcmElement) (w w' : World) (e' : DcmElement) :
  dcm_element_validate e w = Some ((true, e'), w') ->
  e' = set_assigned e true /\ validated e'.
Proof.
  intros H. pose proof H as Hrun. apply dcm_element_validate_run in Hrun.
  destruct Hrun as [(_ & Ha & Hvr & Hcls & -> & ->) | (Hf & _)];
    [| discriminate].
  split; [reflexivity |].
  assert (Hfields : tag (set_assigned e true) = tag e /\
                    vm (set_assigned e true) = vm e /\
                    vr (set_assigned e true) = vr e /\
                    length (set_assigned e true) = length e /\
                    assigned (set_assigned e true) = true /\
                    forall j, stored_string (set_assigned e true) j
                              = stored_string e j).
  { destruct e; cbn. repeat split; reflexivity. }
  destruct Hfields as (Ht & Hm & Hr & Hl & Has & Hst).
  unfold validated. rewrite Ht, Hm, Hr, Hl.
  split; [exact Has |]. split; [exact Hvr |]. split; [exact Hcls |].
  revert H. unfold dcm_element_validate.
  destruct (check_is_inv w (element_check_not_assigned_is e))
    as (w1 & Hrun & Htrue & _).
  unfold bind at 1. rewrite Hrun. clear Hrun. rewrite Ha in *.
  cbn [negb] in *. rewrite (Htrue eq_refl). clear Htrue.
  destruct (negb (vr_eqb (vr e) (dcm_dict_lookup_vr (tag e)))
            || class_eqb (dcm_dict_vr_class (vr e)) DCM_CLASS_ERROR);
    [discriminate |].
  destruct (class_eqb (dcm_dict_vr_class (vr e)) DCM_CLASS_NUMERIC) eqn:Hn;
    cbn [andb].
  - destruct (Z.eqb_spec (length e)
                (wrap64 (vm e * dcm_dict_vr_size (vr e)))) as [Hlen | Hlen];
      cbn [negb]; [| discriminate].
    intros _. split; [intros _; exact Hlen |].
    intros Hs. apply class_eqb_eq in Hn. rewrite Hn in Hs. discriminate.
  - intros H2. split.
    { intros Hc. rewrite Hc in Hn. discriminate. }
    intros Hs j Hj. rewrite Hs in H2.
    apply bind_Some in H2. destruct H2 as ([b e1] & w2 & Hcap & H2).
    destruct b; cbn [negb] in H2; [| discriminate].
    unfold element_check_capacity in Hcap.
    apply bind_Some in Hcap. destruct Hcap as (b & w3 & Hloop & Hcap).
    inversion Hcap; subst b.
    eapply (@check_capacity_loop_accepts _ _ _ 0%nat); [exact Hloop |].
    rewrite Hm. lia.
Qed.

Lemma data_writes_identity (e e1 : DcmElement) :
  data_writes e e1 ->
  tag e1 = tag e /\ vr e1 = vr e /\ assigned e1 = assigned e /\
  (length e <> 0 -> length e1 = length e).
Proof.
  induction 1 as [| e1 m _ IH | e1 x _ IH | e1 l _ IH].
  - auto.
  - destruct IH as (A & B & C & D). destruct e1; cbn in *. auto.
  - destruct IH as (A & B & C & D). destruct e1; cbn in *. auto.
  - destruct IH as (A & B & C & D).
    destruct (element_set_length_fields e1 l) as (A' & B' & _ & C' & _).
    rewrite A', B', C'. repeat split; auto.
    intros Hne. rewrite element_set_length_length.
    destruct (Z.eqb_spec (length e1) 0) as [Hz | Hz]; [| auto].
    rewrite (D Hne) in Hz. contradiction.
Qed.

Lemma setter_shape_validated (e : DcmElement) (e' : DcmElement) :
  setter_shape e true e' -> validated e'.
Proof.
  intros (e1 & Hw & (w1 & Hv) & Hf).
  apply validate_accepts in Hv. destruct Hv as (_ & Hv).
  destruct Hf as (A & B & C & D & E & F).
  unfold validated, stored_string in *. rewrite A, B, C, D, E, F.
  exact Hv.
Qed.

(** X15. A length that is not zero is never replaced: whatever setter is
    called on an element whose length is not zero, with whatever
    arguments, and whether the call succeeds or fails, the element keeps
    its length, its tag and its VR. *)
Theorem setters_keep_nonzero_length (s : Setter) (e : DcmElement)
        (w w' : World) (ok : bool) (e' : DcmElement) :
  length e <> 0 ->
  run_setter s e w = Some ((ok, e'), w') ->
  length e' = length e /\ tag e' = tag e /\ vr e' = vr e.
Proof.
  intros Hne H. apply run_setter_shape in H.
  destruct H as (e1 & Hw & H).
  apply data_writes_identity in Hw. destruct Hw as (A & B & C & D).
  destruct ok.
  - destruct H as (_ & (A' & B' & C' & _)).
    assert (Hs : tag (set_assigned e1 true) = tag e1 /\
                 vr (set_assigned e1 true) = vr e1 /\
                 length (set_assigned e1 true) = length e1)
      by (destruct e1; cbn; auto).
    destruct Hs as (A2 & B2 & C2).
    rewrite A', B', C', A2, B2, C2, A, B, (D Hne). auto.
  - subst e'. rewrite A, B, (D Hne). auto.
Qed.

(** X16. Whatever setter succeeds on an element of a NUMERIC VR, the
    element it leaves has a length of exactly its number of values times
    the size of one value of the VR (as a 64-bit product), is assigned and
    carries the VR the dictionary gives for its tag. *)
Theorem successful_setter_numeric_length (s : Setter) (e : DcmElement)
        (w w' : World) (e' : DcmElement) :
  dcm_dict_vr_class (vr e) = DCM_CLASS_NUMERIC ->
  run_setter s e w = Some ((true, e'), w') ->
  length e' = wrap64 (vm e' * dcm_dict_vr_size (vr e')) /\
  assigned e' = true /\
  vr e' = vr e /\ vr e' = dcm_dict_lookup_vr (tag e').
Proof.
  intros Hc H. apply run_setter_shape in H.
  pose proof (setter_shape_validated H) as (Ha & Hvr & _ & Hn & _).
  destruct H as (e1 & Hw & _ & (_ & B' & _)).
  apply data_writes_identity in Hw. destruct Hw as (_ & B & _).
  assert (Hs : vr (set_assigned e1 true) = vr e1) by (destruct e1; auto).
  assert (Hsame : vr e' = vr e) by (rewrite B', Hs, B; reflexivity).
  repeat split; auto. apply Hn. rewrite Hsame. exact Hc.
Qed.

(** X17. Whatever setter succeeds on an element of a string VR, every one
    of the [vm] values the element then holds can be read back with
    [dcm_element_get_value_string], and none is longer than the capacity
    of the VR. *)
Theorem successful_setter_strings_within_capacity (s : Setter)
        (e : DcmElement) (w w' : World) (e' : DcmElement) :
  is_string_class (dcm_dict_vr_class (vr e)) = true ->
  run_setter s e w = Some ((true, e'), w') ->
  forall (j : nat) (w1 : World),
    Z.of_nat j < vm e' ->
    exists v,
      dcm_element_get_value_string e' (Z.of_nat j) w1 = Some (Some v, w1) /\
      strlen v <= wrap32 (dcm_dict_vr_capacity (vr e')).
Proof.
  intros Hc H j w1 Hj. apply run_setter_shape in H.
  pose proof (setter_shape_validated H) as (Ha & Hvr & _ & _ & Hstr).
  destruct H as (e1 & Hw & _ & (_ & B' & _)).
  apply data_writes_identity in Hw. destruct Hw as (_ & B & _).
  assert (Hs : vr (set_assigned e1 true) = vr e1) by (destruct e1; auto).
  assert (Hsame : vr e' = vr e) by (rewrite B', Hs, B; reflexivity).
  assert (Hc' : is_string_class (dcm_dict_vr_class (vr e')) = true)
    by (rewrite Hsame; exact Hc).
  destruct (Hstr Hc' j Hj) as (v & Hst & Hcap).
  exists v. split; [| exact Hcap].
  apply dcm_element_get_value_string_stored; assumption.
Qed.

(** *** Setting a value and reading it back *)

Lemma element_set_length_cases (e : DcmElement) (l : Z) :
  exists l', element_set_length e l = set_length e l'.
Proof.
  unfold element_set_length. destruct (length e =? 0); eauto.
  exists (length e). destruct e; reflexivity.
Qed.

Lemma validate_true (e1 : DcmElement) (w w' : World) (e' : DcmElement) :
  dcm_element_validate e1 w = Some ((true, e'), w') ->
  e' = set_assigned e1 true /\ w' = w /\ assigned e1 = false /\
  validated (set_assigned e1 true).
Proof.
  intros H. pose proof H as Hrun. apply dcm_element_validate_run in Hrun.
  destruct Hrun as [(_ & Ha & _ & _ & -> & ->) | (Hf & _)];
    [| discriminate].
  apply validate_accepts in H. destruct H as (_ & H). auto.
Qed.

Lemma validate_steal_true (e1 : DcmElement)
      (flag : DcmElement -> DcmElement) (steal : bool)
      (w w' : World) (e' : DcmElement) :
  (v <- dcm_element_validate e1 ;;
   let '(ok, element) := v in
   if negb ok then ret (false, element)
   else if steal then ret (true, flag element)
   else ret (true, element)) w = Some ((true, e'), w') ->
  e' = (if steal then flag (set_assigned e1 true) else set_assigned e1 true)
  /\ w' = w /\ assigned e1 = false /\ validated (set_assigned e1 true).
Proof.
  intros H. apply bind_Some in H. destruct H as ([b e2] & w1 & Hv & H).
  destruct b; cbn [negb] in H; [| discriminate].
  apply validate_true in Hv. destruct Hv as (-> & -> & Ha & Hv).
  destruct steal; inversion H; subst; auto.
Qed.

Ltac enter_ok C w :=
  let w' := fresh "w" in
  let Hrun := fresh "Hrun" in
  let Htrue := fresh "Htrue" in
  let Hc := fresh "Hc" in
  destruct (check_is_inv w C) as (w' & Hrun & Htrue & _);
  unfold bind at 1; rewrite Hrun; clear Hrun;
  match goal with
  | |- context [negb ?c] =>
      destruct c eqn:Hc; cbn [negb];
      [ rewrite (Htrue eq_refl); clear Htrue | discriminate ]
  end.

Lemma dcm_element_get_value_integer_reads (e : DcmElement) (index x : Z)
      (w : World) :
  assigned e = true ->
  dcm_dict_vr_class (vr e) = DCM_CLASS_NUMERIC ->
  integer_vr_range (vr e) <> None ->
  0 <= index < vm e ->
  stored_number e index = Some x ->
  dcm_element_get_value_integer e index w = Some (Some (to_signed 64 x), w).
Proof.
  intros Ha Hc Hr Hi Hst. unfold dcm_element_get_value_integer.
  pose proof (and_then_is (element_check_assigned_is e)
                (and_then_is (element_check_numeric_is e)
                   (and_then_is (element_check_integer_is e)
                      (element_check_index_is e index)))) as C.
  destruct (check_is_inv w C) as (w1 & Hrun & Htrue & _).
  unfold bind at 1. rewrite Hrun. clear Hrun.
  rewrite Ha, Hc in *.
  destruct (Z.ltb_spec index (vm e)); [| lia].
  assert (Hint : vr_eqb (vr e) DCM_VR_FL || vr_eqb (vr e) DCM_VR_FD = false).
  { destruct (vr_eqb (vr e) DCM_VR_FL) eqn:E1;
      [apply vr_eqb_eq in E1; rewrite E1 in Hr; cbn in Hr; congruence |].
    destruct (vr_eqb (vr e) DCM_VR_FD) eqn:E2;
      [apply vr_eqb_eq in E2; rewrite E2 in Hr; cbn in Hr; congruence |].
    reflexivity. }
  rewrite Hint in *. cbn [andb negb class_eqb] in *.
  assert (Hcls : class_eqb DCM_CLASS_NUMERIC DCM_CLASS_NUMERIC = true)
    by (apply class_eqb_eq; reflexivity).
  rewrite Hcls in *. cbn [andb negb] in *. rewrite (Htrue eq_refl).
  unfold stored_number in Hst.
  unfold bind, read_single_num, read_multi_num.
  destruct (vm e =? 1); destruct (value e); try discriminate;
    try (rewrite Hst); inversion Hst; subst;
    revert Hr; clear; destruct (vr e); cbn; try congruence;
    intros _; reflexivity.
Qed.

Lemma dcm_element_get_value_double_reads (e : DcmElement) (index x : Z)
      (w : World) :
  assigned e = true ->
  dcm_dict_vr_class (vr e) = DCM_CLASS_NUMERIC ->
  vr e = DCM_VR_FL \/ vr e = DCM_VR_FD ->
  0 <= index < vm e ->
  stored_number e index = Some x ->
  dcm_element_get_value_double e index w
  = Some (Some (if vr_eqb (vr e) DCM_VR_FL then float_to_double x else x),
          w).
Proof.
  intros Ha Hc Hr Hi Hst. unfold dcm_element_get_value_double.
  pose proof (and_then_is (element_check_assigned_is e)
                (and_then_is (element_check_numeric_is e)
                   (and_then_is (element_check_float_is e)
                      (element_check_index_is e index)))) as C.
  destruct (check_is_inv w C) as (w1 & Hrun & Htrue & _).
  unfold bind at 1. rewrite Hrun. clear Hrun.
  rewrite Ha, Hc in *.
  destruct (Z.ltb_spec index (vm e)); [| lia].
  assert (Hfl : vr_eqb (vr e) DCM_VR_FL || vr_eqb (vr e) DCM_VR_FD = true).
  { destruct Hr as [E | E]; rewrite E.
    - replace (vr_eqb DCM_VR_FL DCM_VR_FL) with true
        by (symmetry; apply vr_eqb_eq; reflexivity).
      reflexivity.
    - replace (vr_eqb DCM_VR_FD DCM_VR_FD) with true
        by (symmetry; apply vr_eqb_eq; reflexivity).
      apply orb_true_r. }
  rewrite Hfl in *.
  assert (Hcls : class_eqb DCM_CLASS_NUMERIC DCM_CLASS_NUMERIC = true)
    by (apply class_eqb_eq; reflexivity).
  rewrite Hcls in *. cbn [andb negb] in *. rewrite (Htrue eq_refl).
  unfold stored_number in Hst.
  unfold bind, read_single_num, read_multi_num.
  destruct (vm e =? 1); destruct (value e); try discriminate;
    try (rewrite Hst); inversion Hst; subst;
    destruct Hr as [-> | ->]; reflexivity.
Qed.

Lemma to_signed_in_range (b x : Z) :
  0 < b -> - 2 ^ (b - 1) <= x < 2 ^ (b - 1) -> to_signed b x = x.
Proof.
  intros Hb Hx. unfold to_signed.
  assert (Hp : 2 ^ b = 2 * 2 ^ (b - 1)).
  { replace b with (Z.succ (b - 1)) at 1 by lia. apply Z.pow_succ_r. lia. }
  assert (Hpos : 0 < 2 ^ (b - 1)) by (apply Z.pow_pos_nonneg; lia).
  destruct (Z_lt_le_dec x 0) as [Hneg | Hnn].
  - assert (Hm : x mod 2 ^ b = x + 2 ^ b).
    { rewrite <- (Z.mod_add x 1 (2 ^ b)) by lia.
      rewrite Z.mul_1_l. apply Z.mod_small. lia. }
    rewrite Hm. destruct (Z.ltb_spec (x + 2 ^ b) (2 ^ (b - 1))); lia.
  - rewrite Z.mod_small by lia.
    destruct (Z.ltb_spec x (2 ^ (b - 1))); lia.
Qed.

Lemma to_signed_wrap (b x : Z) :
  0 < b -> to_signed b (x mod 2 ^ b) = to_signed b x.
Proof.
  intros Hb. unfold to_signed. rewrite Z.mod_mod; [reflexivity |].
  apply Z.pow_nonzero; lia.
Qed.

(** What [int64_to_value] stores for an integer VR, read back as
    [int64_t]: the argument itself when the C type of the VR can hold
    it. *)
Lemma integer_in_range (v : DcmVR) (lo hi x : Z) :
  integer_vr_range v = Some (lo, hi) ->
  exists y,
    (forall old, int64_to_value v old x = single_num y) /\
    (lo <= x < hi -> - 2 ^ 63 <= x < 2 ^ 63 -> to_signed 64 y = x).
Proof.
  intros Hr.
  destruct v; cbn in Hr; inversion Hr; subst; clear Hr;
    cbn [int64_to_value]; eexists; (split; [reflexivity |]);
    intros Hx H64; unfold wrap16, wrap32, wrap64.
  all: try (rewrite to_signed_wrap by lia; apply to_signed_in_range; lia).
  all: try (rewrite Z.mod_small by lia; apply to_signed_in_range; lia).
  all: try (rewrite (to_signed_in_range (b := 16)) by lia;
            apply to_signed_in_range; lia).
  all: try (rewrite (to_signed_in_range (b := 32)) by lia;
            apply to_signed_in_range; lia).
  all: try (rewrite (to_signed_in_range (b := 64)) by lia;
            apply to_signed_in_range; lia).
  rewrite !(to_signed_in_range (b := 64) (x := x)) by lia. reflexivity.
Qed.

Ltac split_checks Hc :=
  repeat match type of Hc with
         | (_ && _) = true =>
             let Ha := fresh "Hchk" in
             apply andb_prop in Hc; destruct Hc as (Ha & Hc)
         end.

(** X18. An integer stored with [dcm_element_set_value_integer] is read
    back by [dcm_element_get_value_integer] at index 0; it is the integer
    that was given whenever the C type of the VR can hold it. *)
Theorem dcm_element_set_then_get_integer (e : DcmElement) (v lo hi : Z)
        (w w' : World) (e' : DcmElement) :
  integer_vr_range (vr e) = Some (lo, hi) ->
  dcm_element_set_value_integer e v w = Some ((true, e'), w') ->
  vm e' = 1 /\
  exists r,
    (forall w1,
        dcm_element_get_value_integer e' 0 w1 = Some (Some r, w1)) /\
    (lo <= v < hi -> - 2 ^ 63 <= v < 2 ^ 63 -> r = v).
Proof.
  intros Hr. unfold dcm_element_set_value_integer.
  enter_ok (and_then_is (element_check_not_assigned_is e)
              (and_then_is (element_check_numeric_is e)
                           (element_check_integer_is e))) w.
  split_checks Hc. apply class_eqb_eq in Hchk0.
  cbn zeta. intros H. apply validate_true in H.
  destruct H as (-> & -> & _ & _).
  destruct (@integer_in_range (vr e) lo hi v Hr) as (y & Hy & Hback).
  rewrite Hy.
  match goal with
  | |- context [element_set_length ?a ?b] =>
      destruct (element_set_length_cases a b) as (l' & ->)
  end.
  split; [destruct e; reflexivity |].
  exists (to_signed 64 y). split; [| exact Hback].
  intros w1. apply dcm_element_get_value_integer_reads;
    destruct e; cbn in *; auto; try lia; congruence.
Qed.

Lemma numeric_multi_stored (vr0 : DcmVR) (old : DcmValue) (buffer : list Z)
      (vm_arg : Z) (w w1 : World) (x0 : DcmValue) :
  is_switch_numeric vr0 = true ->
  (if vm_arg =? 1 then value_to_value vr0 old buffer
   else ret (multi_num buffer)) w = Some (x0, w1) ->
  forall i x,
    0 <= i < vm_arg -> nth_error buffer (Z.to_nat i) = Some x ->
    (if vm_arg =? 1 then
       match x0 with
       | single_num y => Some y
       | value_zero => Some 0
       | _ => None
       end
     else
       match x0 with
       | multi_num xs => nth_error xs (Z.to_nat i)
       | _ => None
       end) = Some x.
Proof.
  intros Hs H i x Hi Hx. destruct (Z.eqb_spec vm_arg 1) as [-> | Hne].
  - unfold value_to_value in H. rewrite Hs in H.
    assert (i = 0) by lia. subst i.
    destruct buffer as [| b rest]; [discriminate |].
    inversion H; subst. cbn in Hx. exact Hx.
  - inversion H; subst. exact Hx.
Qed.

(** X19. The scalars stored with [dcm_element_set_value_numeric_multi]
    are read back index by index: [dcm_element_get_value_integer] returns
    cell [i] of the buffer for an integer VR, and
    [dcm_element_get_value_double] returns it for [FD] and its conversion
    to [double] for [FL]; the element has as many values as the call was
    given. *)
Theorem dcm_element_set_numeric_multi_then_get (e : DcmElement)
        (buffer : list Z) (vm_arg : Z) (steal : bool)
        (w w' : World) (e' : DcmElement) :
  dcm_element_set_value_numeric_multi e buffer vm_arg steal w
  = Some ((true, e'), w') ->
  vm e' = vm_arg /\
  forall i x w1,
    0 <= i < vm_arg -> nth_error buffer (Z.to_nat i) = Some x ->
    (integer_vr_range (vr e) <> None ->
     dcm_element_get_value_integer e' i w1
     = Some (Some (to_signed 64 x), w1)) /\
    (vr e = DCM_VR_FL \/ vr e = DCM_VR_FD ->
     dcm_element_get_value_double e' i w1
     = Some (Some (if vr_eqb (vr e) DCM_VR_FL then float_to_double x
                   else x), w1)).
Proof.
  unfold dcm_element_set_value_numeric_multi.
  enter_ok (and_then_is (element_check_not_assigned_is e)
                        (element_check_numeric_is e)) w.
  split_checks Hc. apply class_eqb_eq in Hc.
  intros H. apply bind_Some in H. destruct H as (x0 & w1 & Hx & H).
  cbn zeta in H. apply validate_steal_true in H.
  destruct H as (He' & -> & _ & _).
  match type of He' with
  | context [element_set_length ?a ?b] =>
      destruct (element_set_length_cases a b) as (l' & Hl);
      rewrite Hl in He'; clear Hl
  end.
  assert (Hf : tag e' = tag e /\ vr e' = vr e /\ vm e' = vm_arg /\
               value e' = x0 /\ assigned e' = true)
    by (subst e'; destruct e, steal; cbn; auto).
  clear He'. destruct Hf as (Ht & Hv & Hm & Hval & Ha).
  split; [exact Hm |].
  intros i x w2 Hi Hnth. split.
  - intros Hr. apply dcm_element_get_value_integer_reads;
      rewrite ?Hv, ?Hm; auto.
    unfold stored_number. rewrite Hm, Hval.
    eapply numeric_multi_stored; [| exact Hx | exact Hi | exact Hnth].
    destruct (vr e); cbn in *; congruence.
  - intros Hr. rewrite <- Hv.
    apply dcm_element_get_value_double_reads; rewrite ?Hv, ?Hm; auto.
    unfold stored_number. rewrite Hm, Hval.
    eapply numeric_multi_stored; [| exact Hx | exact Hi | exact Hnth].
    destruct Hr as [-> | ->]; reflexivity.
Qed.

(** X20. A number stored with [dcm_element_set_value_double] is read back
    by [dcm_element_get_value_double] at index 0: the number itself for
    [FD], and for [FL] its conversion to [float] converted back to
    [double]. *)
Theorem dcm_element_set_then_get_double (e : DcmElement) (d : Z)
        (w w' : World) (e' : DcmElement) :
  dcm_element_set_value_double e d w = Some ((true, e'), w') ->
  vm e' = 1 /\
  forall w1,
    dcm_element_get_value_double e' 0 w1
    = Some (Some (if vr_eqb (vr e) DCM_VR_FL
                  then float_to_double (double_to_float d) else d), w1).
Proof.
  unfold dcm_element_set_value_double.
  enter_ok (and_then_is (element_check_not_assigned_is e)
              (and_then_is (element_check_numeric_is e)
                           (element_check_float_is e))) w.
  split_checks Hc. apply class_eqb_eq in Hchk0.
  cbn zeta. intros H. apply validate_true in H.
  destruct H as (He' & -> & _ & _).
  match type of He' with
  | context [element_set_length ?a ?b] =>
      destruct (element_set_length_cases a b) as (l' & Hl);
      rewrite Hl in He'; clear Hl
  end.
  assert (Hfl : vr e = DCM_VR_FL \/ vr e = DCM_VR_FD).
  { apply orb_prop in Hc. destruct Hc as [Hc | Hc];
      apply vr_eqb_eq in Hc; auto. }
  assert (Hf : vr e' = vr e /\ vm e' = 1 /\
               value e' = double_to_value (vr e) (value e) d /\
               assigned e' = true)
    by (subst e'; destruct e; cbn; auto).
  clear He'. destruct Hf as (Hv & Hm & Hval & Ha).
  split; [exact Hm |]. intros w1.
  assert (Hst : stored_number e' 0
                = Some (if vr_eqb (vr e) DCM_VR_FL then double_to_float d
                        else d)).
  { unfold stored_number. rewrite Hm, Hval.
    destruct Hfl as [-> | ->]; reflexivity. }
  rewrite (@dcm_element_get_value_double_reads e' 0 _ w1 Ha
             ltac:(rewrite Hv; exact Hchk0)
             ltac:(rewrite Hv; exact Hfl)
             ltac:(rewrite Hm; lia) Hst).
  rewrite Hv. destruct Hfl as [-> | ->]; reflexivity.
Qed.

(** X21. The buffer stored with [dcm_element_set_value_binary] is the one
    [dcm_element_get_value_binary] returns; the element has one value, and
    its length is the length given, made even, unless it had a length
    before. *)
Theorem dcm_element_set_then_get_binary (e : DcmElement) (bytes : list Z)
        (length_arg : Z) (steal : bool) (w w' : World) (e' : DcmElement) :
  dcm_element_set_value_binary e bytes length_arg steal w
  = Some ((true, e'), w') ->
  vm e' = 1 /\
  length e' = (if length e =? 0 then even_length32 length_arg
               else length e) /\
  forall w1,
    dcm_element_get_value_binary e' w1 = Some (Some bytes, w1).
Proof.
  unfold dcm_element_set_value_binary.
  enter_ok (and_then_is (element_check_not_assigned_is e)
                        (element_check_binary_is e)) w.
  split_checks Hc.
  cbn zeta. intros H. apply validate_steal_true in H.
  destruct H as (He' & -> & _ & _).
  assert (Hlen : length e' = (if length e =? 0 then even_length32 length_arg
                              else length e)).
  { assert (Hl : length e'
                 = length (element_set_length
                             (set_value (set_vm e 1) (single_bytes bytes))
                             length_arg)).
    { subst e'. destruct steal;
        match goal with
        | |- context [element_set_length ?a ?b] =>
            destruct (element_set_length a b); reflexivity
        end. }
    rewrite Hl, element_set_length_length. destruct e; reflexivity. }
  match type of He' with
  | context [element_set_length ?a ?b] =>
      destruct (element_set_length_cases a b) as (l' & Hl);
      rewrite Hl in He'; clear Hl
  end.
  assert (Hf : vr e' = vr e /\ vm e' = 1 /\
               value e' = single_bytes bytes /\ assigned e' = true)
    by (subst e'; destruct e, steal; cbn; auto).
  clear He'. destruct Hf as (Hv & Hm & Hval & Ha).
  split; [exact Hm |]. split; [exact Hlen |]. intros w1.
  unfold dcm_element_get_value_binary.
  destruct (check_is_inv w1 (and_then_is (element_check_assigned_is e')
                               (element_check_binary_is e')))
    as (w2 & Hrun & Htrue & _).
  unfold bind at 1. rewrite Hrun. clear Hrun.
  rewrite Ha, Hv, Hc in *. cbn [andb negb] in *. rewrite (Htrue eq_refl).
  unfold bind, read_single_bytes. rewrite Hval. reflexivity.
Qed.

(** *** A string VR with a single value *)

Lemma validate_single_string (e1 : DcmElement) (s : string) (w : World) :
  assigned e1 = false ->
  vr e1 = dcm_dict_lookup_vr (tag e1) ->
  is_string_class (dcm_dict_vr_class (vr e1)) = true ->
  vm e1 = 1 ->
  value e1 = single_str s ->
  exists w',
    dcm_element_validate e1 w
    = Some ((strlen s <=? wrap32 (dcm_dict_vr_capacity (vr e1)),
             if strlen s <=? wrap32 (dcm_dict_vr_capacity (vr e1))
             then set_assigned e1 true else e1), w') /\
    if strlen s <=? wrap32 (dcm_dict_vr_capacity (vr e1)) then w' = w
    else world_reports_invalid w w'.
Proof.
  intros Ha Hvr Hs Hm Hval.
  assert (Hst : forall e2, vm e2 = 1 -> value e2 = single_str s ->
                           stored_string e2 0 = Some s).
  { intros e2 H1 H2. unfold stored_string. rewrite H1, H2. reflexivity. }
  destruct (Z.leb_spec (strlen s) (wrap32 (dcm_dict_vr_capacity (vr e1))))
    as [Hle | Hgt].
  - exists w. split; [| reflexivity].
    apply dcm_element_validate_strings; auto; [lia |].
    intros j Hj. assert (j = 0%nat) by lia. subst j.
    exists s. split; [apply Hst; assumption | exact Hle].
  - unfold dcm_element_validate.
    destruct (check_is_inv w (element_check_not_assigned_is e1))
      as (w1 & Hrun & Htrue & _).
    unfold bind at 1. rewrite Hrun. clear Hrun. rewrite Ha in *.
    cbn [negb] in *. rewrite (Htrue eq_refl). clear Htrue.
    assert (Hv : vr_eqb (vr e1) (dcm_dict_lookup_vr (tag e1)) = true)
      by (apply vr_eqb_eq; exact Hvr).
    rewrite Hv. cbn [negb orb].
    assert (Hcls : class_eqb (dcm_dict_vr_class (vr e1)) DCM_CLASS_ERROR
                   = false
                   /\ class_eqb (dcm_dict_vr_class (vr e1)) DCM_CLASS_NUMERIC
                      = false).
    { unfold is_string_class in Hs.
      destruct (dcm_dict_vr_class (vr e1)); cbn in *; auto; discriminate. }
    destruct Hcls as (-> & ->). cbn [andb]. rewrite Hs.
    unfold bind, element_check_capacity, bind.
    assert (Hfields : vm (set_assigned e1 true) = 1 /\
                      vr (set_assigned e1 true) = vr e1 /\
                      assigned (set_assigned e1 true) = true /\
                      value (set_assigned e1 true) = single_str s).
    { destruct e1; cbn in *. auto. }
    destruct Hfields as (Hm' & Hr' & Ha' & Hval').
    rewrite Hm'. change (Z.to_nat 1) with 1%nat.
    cbn [check_capacity_loop].
    unfold bind.
    pose proof (@dcm_element_get_value_string_stored _
                  (set_assigned e1 true) 0 s w Ha'
                  ltac:(rewrite Hr'; exact Hs) ltac:(rewrite Hm'; cbn; lia)
                  (Hst _ Hm' Hval')) as Hget.
    cbn [Z.of_nat] in Hget. rewrite Hget.
    destruct (Z.ltb_spec (wrap32 (dcm_dict_vr_capacity (vr e1)))
                         (strlen s)); [| lia].
    cbn. rewrite set_assigned_restore.
    eexists. split; [reflexivity |]. apply error_set_reports.
Qed.

(** X22. On an unassigned element of a VR that holds a single string, the
    string setters store the string as it is, as one value, and succeed
    exactly when the string is within the capacity of the VR; the string is
    then the one [dcm_element_get_value_string] returns at index 0.  When
    the string is too long the call fails with INVALID and the element
    stays unassigned. *)
Theorem element_set_value_string_single (e : DcmElement) (s : string)
        (steal : bool) (w : World) :
  assigned e = false ->
  vr e = dcm_dict_lookup_vr (tag e) ->
  dcm_dict_vr_class (vr e) = DCM_CLASS_STRING_SINGLE ->
  exists ok e' w',
    element_set_value_string e s steal w = Some ((ok, e'), w') /\
    ok = (strlen s <=? wrap32 (dcm_dict_vr_capacity (vr e))) /\
    vm e' = 1 /\ value e' = single_str s /\ assigned e' = ok /\
    (ok = true ->
     w' = w /\
     forall w1,
       dcm_element_get_value_string e' 0 w1 = Some (Some s, w1)) /\
    (ok = false -> invalid_error w').
Proof.
  intros Ha Hvr Hc. unfold element_set_value_string.
  destruct (check_is_inv w (and_then_is (element_check_not_assigned_is e)
                                        (element_check_string_is e)))
    as (w0 & Hrun & Htrue & _).
  unfold bind at 1. rewrite Hrun. clear Hrun.
  assert (Hs : is_string_class (dcm_dict_vr_class (vr e)) = true)
    by (rewrite Hc; reflexivity).
  rewrite Ha, Hs in *. cbn [negb andb] in *. rewrite (Htrue eq_refl).
  clear Htrue. rewrite Hc.
  replace (class_eqb DCM_CLASS_STRING_SINGLE DCM_CLASS_STRING_MULTI)
    with false by reflexivity.
  cbn zeta.
  destruct (element_set_length_cases
              (set_vm (set_value e (single_str s)) 1) (strlen s))
    as (l' & Hl).
  rewrite Hl.
  set (e1 := set_length (set_vm (set_value e (single_str s)) 1) l').
  assert (Hf : assigned e1 = false /\ vr e1 = vr e /\ tag e1 = tag e /\
               vm e1 = 1 /\ value e1 = single_str s).
  { subst e1. destruct e; cbn in *. auto. }
  destruct Hf as (Ha1 & Hv1 & Ht1 & Hm1 & Hval1).
  destruct (@validate_single_string e1 s w Ha1
              ltac:(rewrite Hv1, Ht1; exact Hvr)
              ltac:(rewrite Hv1; exact Hs) Hm1 Hval1) as (w' & Hrun & Hw).
  unfold bind. rewrite Hrun. rewrite Hv1 in *.
  destruct (strlen s <=? wrap32 (dcm_dict_vr_capacity (vr e))); cbn [negb].
  - subst w'.
    assert (Hout : forall e2,
               flags_only (set_assigned e1 true) e2 ->
               vm e2 = 1 /\ value e2 = single_str s /\ assigned e2 = true /\
               (true = true ->
                w = w /\
                forall w1,
                  dcm_element_get_value_string e2 0 w1
                  = Some (Some s, w1)) /\
               (true = false -> invalid_error w)).
    { intros e2 (A & B & C & D & E & F).
      assert (G : vm e2 = 1 /\ value e2 = single_str s /\
                  assigned e2 = true /\ vr e2 = vr e).
      { rewrite D, F, E, B. subst e1. destruct e; cbn in *. auto. }
      destruct G as (G1 & G2 & G3 & G4).
      repeat split; auto; [| discriminate].
      intros w1.
      change 0 with (Z.of_nat 0).
      apply (@dcm_element_get_value_string_stored _ e2 0%nat s w1); auto.
      - rewrite G4. exact Hs.
      - rewrite G1. cbn. lia.
      - unfold stored_string. rewrite G1, G2. reflexivity. }
    destruct steal; do 3 eexists; (split; [reflexivity |]);
      (split; [reflexivity |]); apply Hout.
    + apply flags_only_value_pointer.
    + apply flags_only_refl.
  - do 3 eexists. split; [reflexivity |]. split; [reflexivity |].
    split; [exact Hm1 |]. split; [exact Hval1 |]. split; [exact Ha1 |].
    split; [discriminate |].
    intros _. destruct Hw as (Hw & _). exact Hw.
Qed.

(** *** Calls that are refused *)

Ltac refuse_by C w :=
  let w' := fresh "w" in
  let Hrun := fresh "Hrun" in
  let Hfalse := fresh "Hfalse" in
  let Hcond := fresh "Hcond" in
  match type of C with
  | check_is _ ?c =>
      assert (Hcond : c = false);
      [ | destruct (check_is_inv w C) as (w' & Hrun & _ & Hfalse);
          unfold bind at 1; rewrite Hrun; clear Hrun;
          rewrite Hcond in *; cbn [negb];
          exists w'; split; [reflexivity | apply Hfalse; reflexivity] ]
  end.

(** X23. A getter called on an element that has not been assigned a
    value, or with an index that is not below the number of values of the
    element, returns [false] and reports INVALID; nothing else happens. *)
Theorem getters_refuse (e : DcmElement) (index : Z) (w : World) :
  (assigned e = false \/ vm e <= index ->
   (exists w', dcm_element_get_value_string e index w = Some (None, w') /\
               world_reports_invalid w w') /\
   (exists w', dcm_element_get_value_integer e index w = Some (None, w') /\
               world_reports_invalid w w') /\
   (exists w', dcm_element_get_value_double e index w = Some (None, w') /\
               world_reports_invalid w w')) /\
  (assigned e = false ->
   (exists w', dcm_element_get_value_binary e w = Some (None, w') /\
               world_reports_invalid w w') /\
   (exists w', dcm_element_get_value_sequence e w = Some ((None, e), w') /\
               world_reports_invalid w w')).
Proof.
  split.
  - intros H.
    assert (Hi : forall b c, assigned e && (b && (c && (index <? vm e)))
                             = false).
    { intros b c. destruct H as [-> | H]; [reflexivity |].
      destruct (Z.ltb_spec index (vm e)); [lia |].
      rewrite !andb_false_r. reflexivity. }
    split; [| split].
    + unfold dcm_element_get_value_string.
      pose proof (and_then_is (element_check_assigned_is e)
                    (and_then_is (element_check_string_is e)
                       (element_check_index_is e index))) as C.
      refuse_by C w.
      destruct H as [-> | H]; [reflexivity |].
      destruct (Z.ltb_spec index (vm e)); [lia |].
      rewrite !andb_false_r. reflexivity.
    + unfold dcm_element_get_value_integer.
      pose proof (and_then_is (element_check_assigned_is e)
                    (and_then_is (element_check_numeric_is e)
                       (and_then_is (element_check_integer_is e)
                          (element_check_index_is e index)))) as C.
      refuse_by C w. apply Hi.
    + unfold dcm_element_get_value_double.
      pose proof (and_then_is (element_check_assigned_is e)
                    (and_then_is (element_check_numeric_is e)
                       (and_then_is (element_check_float_is e)
                          (element_check_index_is e index)))) as C.
      refuse_by C w. apply Hi.
  - intros H. split.
    + unfold dcm_element_get_value_binary.
      pose proof (and_then_is (element_check_assigned_is e)
                              (element_check_binary_is e)) as C.
      refuse_by C w. rewrite H. reflexivity.
    + unfold dcm_element_get_value_sequence.
      pose proof (and_then_is (element_check_assigned_is e)
                              (element_check_sequence_is e)) as C.
      refuse_by C w. rewrite H. reflexivity.
Qed.

(** X24. A setter called on an element that is assigned already, or whose
    VR is of another class than the setter is for, returns [false],
    reports INVALID and leaves the whole element as it was: the checks
    come before any write. *)
Theorem setter_refused_writes_nothing (s : Setter) (e : DcmElement)
        (w : World) :
  assigned e = true \/
  setter_accepts s (dcm_dict_vr_class (vr e)) = false ->
  exists w',
    run_setter s e w = Some ((false, e), w') /\
    world_reports_invalid w w'.
Proof.
  intros H.
  assert (Hstr : negb (assigned e)
                 && is_string_class (dcm_dict_vr_class (vr e)) = false
                 -> forall v steal,
                   exists w',
                     element_set_value_string e v steal w
                     = Some ((false, e), w') /\
                     world_reports_invalid w w').
  { intros Hc v steal. unfold element_set_value_string.
    pose proof (and_then_is (element_check_not_assigned_is e)
                            (element_check_string_is e)) as C.
    refuse_by C w. exact Hc. }
  assert (Hany : forall b, setter_accepts s (dcm_dict_vr_class (vr e)) = b
                           -> forall c, negb (assigned e) && (b && c)
                                        = false).
  { intros b Hb c. destruct H as [-> | H]; [reflexivity |].
    rewrite <- Hb, H. apply andb_false_r. }
  assert (Hany2 : forall b, setter_accepts s (dcm_dict_vr_class (vr e)) = b
                            -> negb (assigned e) && b = false).
  { intros b Hb. destruct H as [-> | H]; [reflexivity |].
    rewrite <- Hb, H. apply andb_false_r. }
  destruct s; cbn [run_setter setter_accepts] in *.
  - apply Hstr. apply Hany2. reflexivity.
  - apply Hstr. apply Hany2. reflexivity.
  - unfold dcm_element_set_value_string_multi.
    pose proof (and_then_is (element_check_not_assigned_is e)
                            (element_check_string_is e)) as C.
    refuse_by C w. apply Hany2. reflexivity.
  - unfold dcm_element_set_value_integer.
    pose proof (and_then_is (element_check_not_assigned_is e)
                  (and_then_is (element_check_numeric_is e)
                               (element_check_integer_is e))) as C.
    refuse_by C w. apply Hany. reflexivity.
  - unfold dcm_element_set_value_numeric_multi.
    pose proof (and_then_is (element_check_not_assigned_is e)
                            (element_check_numeric_is e)) as C.
    refuse_by C w. apply Hany2. reflexivity.
  - unfold dcm_element_set_value_double.
    pose proof (and_then_is (element_check_not_assigned_is e)
                  (and_then_is (element_check_numeric_is e)
                               (element_check_float_is e))) as C.
    refuse_by C w. apply Hany. reflexivity.
  - unfold dcm_element_set_value_binary.
    pose proof (and_then_is (element_check_not_assigned_is e)
                            (element_check_binary_is e)) as C.
    refuse_by C w. apply Hany2. reflexivity.
  - unfold dcm_element_set_value_sequence.
    pose proof (and_then_is (element_check_not_assigned_is e)
                            (element_check_sequence_is e)) as C.
    assert (Hcond : negb (assigned e)
                    && class_eqb (dcm_dict_vr_class (vr e))
                                 DCM_CLASS_SEQUENCE = false)
      by (apply Hany2; reflexivity).
    destruct (check_is_inv w C) as (w' & Hrun & _ & Hfalse).
    unfold bind at 1. unfold bind at 1. rewrite Hrun. clear Hrun.
    rewrite Hcond in *. cbn.
    exists w'. split; [reflexivity | apply Hfalse; reflexivity].
Qed.

(** *** Sequence values *)




(** *** Cloning *)

Lemma dcm_element_set_value_sequence_assigns (clone : DcmElement)
      (seq : option DcmSequence) (w w' : World) (c : DcmElement)
      (seq' : option DcmSequence) :
  dcm_element_set_value_sequence clone seq w = Some ((true, c, seq'), w') ->
  assigned c = true.
Proof.
  intros H.
  assert (Hr : run_setter (set_sequence seq) clone w = Some ((true, c), w')).
  { cbn [run_setter]. unfold bind. rewrite H. reflexivity. }
  apply run_setter_shape in Hr.
  destruct Hr as (e1 & _ & _ & (_ & _ & _ & _ & Ha & _)).
  rewrite Ha. destruct e1; reflexivity.
Qed.

Lemma clone_case_sequence_assigns
      (dataset_clone : DcmDataSet -> M (option DcmDataSet * DcmDataSet))
      (e clone : DcmElement) (w w' : World) (c e' : DcmElement) :
  clone_case_sequence dataset_clone e clone w = Some ((Some c, e'), w') ->
  assigned c = true.
Proof.
  unfold clone_case_sequence. intros H.
  apply bind_Some in H. destruct H as ([from_seq e1] & w1 & _ & H).
  destruct from_seq as [from_seq |].
  - apply bind_Some in H. destruct H as (seq & w2 & _ & H).
    apply bind_Some in H.
    destruct H as ([[ok from_seq'] seq'] & w3 & _ & H).
    destruct ok; cbn [negb] in H.
    + apply bind_Some in H.
      destruct H as ([[ok2 clone'] seq2] & w4 & Hs & H).
      destruct ok2; cbn [negb] in H.
      * inversion H; subst.
        eapply dcm_element_set_value_sequence_assigns. exact Hs.
      * apply bind_Some in H. destruct H as (u & w5 & _ & H).
        apply bind_Some in H. destruct H as (u' & w6 & _ & H).
        discriminate.
    + apply bind_Some in H. destruct H as (u & w5 & _ & H). discriminate.
  - apply bind_Some in H. destruct H as (u & w5 & _ & H). discriminate.
Qed.

Lemma element_clone_body_sequence_is_null
      (dataset_clone : DcmDataSet -> M (option DcmDataSet * DcmDataSet))
      (e : DcmElement) (w w' : World) (r : option DcmElement)
      (e' : DcmElement) :
  dcm_dict_vr_class (vr e) = DCM_CLASS_SEQUENCE ->
  element_clone_body dataset_clone e w = Some ((r, e'), w') ->
  r = None.
Proof.
  intros Hc. unfold element_clone_body. intros H.
  apply bind_Some in H. destruct H as (c & w1 & _ & H).
  destruct c as [clone |]; [| inversion H; reflexivity].
  cbv zeta in H. rewrite Hc in H.
  apply bind_Some in H. destruct H as ([cl e1] & w2 & Hcase & H).
  destruct cl as [c |]; [| inversion H; reflexivity].
  apply clone_case_sequence_assigns in Hcase.
  apply bind_Some in H. destruct H as ([ok c'] & w3 & Hv & H).
  apply dcm_element_validate_run in Hv.
  destruct Hv as [(_ & Hna & _) | (-> & -> & _)].
  - rewrite Hcase in Hna. discriminate.
  - cbn [negb] in H. apply bind_Some in H.
    destruct H as (u & w4 & _ & H). inversion H. reflexivity.
Qed.

Lemma dataset_clone_loop_sequence_is_null
      (f : DcmElement -> M (option DcmElement * DcmElement))
      (x : DcmElement) :
  (forall w r e' w', f x w = Some ((r, e'), w') -> r = None) ->
  forall (els : list DcmElement) (cd : DcmDataSet) (w w' : World)
         (r : option DcmDataSet) (els' : list DcmElement),
    In x els ->
    dataset_clone_loop f els cd w = Some ((r, els'), w') ->
    r = None.
Proof.
  intros Hx. induction els as [| y els IH]; intros cd w w' r els' Hin H;
    [destruct Hin |].
  cbn [dataset_clone_loop] in H.
  apply bind_Some in H. destruct H as ([cloned y'] & w1 & Hf & H).
  destruct cloned as [cloned |].
  - destruct Hin as [-> | Hin].
    { apply Hx in Hf. discriminate. }
    apply bind_Some in H. destruct H as ([ok cd'] & w2 & _ & H).
    destruct ok; cbn [negb] in H.
    + apply bind_Some in H. destruct H as ([r' next] & w3 & Hloop & H).
      inversion H; subst. eapply IH; eassumption.
    + apply bind_Some in H. destruct H as (u & w3 & _ & H).
      inversion H. reflexivity.
  - apply bind_Some in H. destruct H as (u & w3 & _ & H).
    inversion H. reflexivity.
Qed.

(** X26. [dcm_element_clone] never returns a clone of an element whose VR
    is of the SEQUENCE class: whenever the call returns, it returns NULL,
    because the clone has been assigned by
    [dcm_element_set_value_sequence] when the closing validation tests
    that it is not.  So [dcm_dataset_clone] returns NULL for every data
    set that holds such an element, and [dcm_dataset_get_clone] returns
    NULL when asked for it. *)
Theorem sequence_elements_are_never_cloned (e : DcmElement) :
  dcm_dict_vr_class (vr e) = DCM_CLASS_SEQUENCE ->
  (forall w r e' w',
      dcm_element_clone e w = Some ((r, e'), w') -> r = None) /\
  (forall d w r d' w',
      In e (elements d) ->
      dcm_dataset_clone d w = Some ((r, d'), w') -> r = None) /\
  (forall d w r d' w',
      dcm_dataset_contains d (tag e) = Some e ->
      dcm_dataset_get_clone d (tag e) w = Some ((r, d'), w') -> r = None).
Proof.
  intros Hc.
  assert (Hel : forall w r e' w',
             dcm_element_clone e w = Some ((r, e'), w') -> r = None).
  { intros w r e' w' H. unfold dcm_element_clone in H.
    cbn [element_clone_fuel] in H.
    eapply element_clone_body_sequence_is_null; eassumption. }
  split; [exact Hel |]. split.
  2:{ intros d w r d' w' Hfind H. unfold dcm_dataset_get_clone in H.
      unfold dcm_dataset_contains in Hfind. rewrite Hfind in H.
      apply bind_Some in H. destruct H as ([cl e1] & w1 & Hcl & H).
      inversion H; subst. eapply Hel. exact Hcl. }
  intros d w r d' w' Hin H. unfold dcm_dataset_clone in H.
  unfold dataset_clone_body in H.
  apply bind_Some in H. destruct H as (c & w1 & _ & H).
  destruct c as [cd |]; [| inversion H; reflexivity].
  apply bind_Some in H. destruct H as ([r' els'] & w2 & Hloop & H).
  inversion H; subst.
  eapply dataset_clone_loop_sequence_is_null; [| exact Hin | exact Hloop].
  intros w0 r0 e0 w0' H0. cbn [element_clone_fuel] in H0.
  eapply element_clone_body_sequence_is_null; eassumption.
Qed.

Lemma skipn_nth_error {A} (l : list A) (i : nat) (x : A) :
  nth_error l i = Some x -> skipn i l = x :: skipn (S i) l.
Proof.
  revert i. induction l as [| y l IH]; intros [| i] H; cbn in *;
    try discriminate.
  - inversion H. reflexivity.
  - apply IH. exact H.
Qed.

Lemma nth_error_firstn_below {A} (l : list A) (n j : nat) :
  (j < n)%nat -> nth_error (firstn n l) j = nth_error l j.
Proof.
  revert n j. induction l as [| y l IH]; intros [| n] [| j] H; cbn;
    try reflexivity; try lia.
  apply IH. lia.
Qed.

Lemma dcm_alloc_available (w : World) :
  allocs w = [] -> dcm_alloc w = Some (true, w).
Proof. intros H. unfold dcm_alloc. rewrite H. reflexivity. Qed.

Lemma strdup_loop_run (ss : list string) (w : World) :
  allocs w = [] ->
  forall (n i : nat) (copied : list string),
    (i + n <= List.length ss)%nat ->
    strdup_loop ss n (Z.of_nat i) copied w
    = Some ((true, copied ++ firstn n (skipn i ss)), w).
Proof.
  intros Hw. induction n as [| n IH]; intros i copied Hlen.
  - cbn. rewrite app_nil_r. reflexivity.
  - cbn [strdup_loop]. rewrite Nat2Z.id.
    destruct (nth_error ss i) as [s |] eqn:E.
    2:{ apply nth_error_None in E. lia. }
    unfold bind. rewrite (dcm_alloc_available w Hw). cbn [negb].
    replace (Z.of_nat i + 1) with (Z.of_nat (S i)) by lia.
    rewrite IH by lia.
    rewrite (skipn_nth_error _ _ E). cbn [firstn].
    rewrite <- app_assoc. reflexivity.
Qed.

(** X27. With memory available, [dcm_element_clone] of an assigned string
    element that satisfies what the validation checks (the VR of its tag,
    [vm] values within the capacity of the VR) and whose length is even,
    as [element_set_length] leaves it, returns a clone and leaves the
    source and the world as they were.  The clone is assigned, has the tag,
    the VR, the length and the number of values of the source, and
    [dcm_element_get_value_string] returns from it the same string as from
    the source at every index. *)
Theorem dcm_element_clone_string (e : DcmElement) (w : World) :
  validated e ->
  is_string_class (dcm_dict_vr_class (vr e)) = true ->
  vr e <> DCM_VR_uk ->
  1 <= vm e ->
  Z.even (length e) = true -> 0 <= length e < 2 ^ 32 ->
  allocs w = [] ->
  exists c,
    dcm_element_clone e w = Some ((Some c, e), w) /\
    tag c = tag e /\ vr c = vr e /\ length c = length e /\
    vm c = vm e /\ assigned c = true /\
    forall (j : nat) (w1 : World),
      Z.of_nat j < vm e ->
      exists v,
        dcm_element_get_value_string e (Z.of_nat j) w1 = Some (Some v, w1) /\
        dcm_element_get_value_string c (Z.of_nat j) w1 = Some (Some v, w1).
Proof.
  intros (Ha & Hvr & Hcls & _ & Hstr) Hs Huk Hvm Heven Hrange Hw.
  specialize (Hstr Hs).
  assert (Hlen : even_length32 (length e) = length e).
  { rewrite even_length32_small.
    - rewrite Heven. reflexivity.
    - destruct (Z.eq_dec (length e) (2 ^ 32 - 1)) as [E | E]; [| lia].
      rewrite E in Heven. discriminate. }
  assert (Hworld : mkWorld (error w) (tl (allocs w)) (destroyed w) = w)
    by (destruct w; cbn in *; subst; reflexivity).
  set (clone := fresh_element (tag e) (dcm_dict_lookup_vr (tag e))
                              (length e)).
  assert (Hfinish :
            forall c0,
              tag c0 = tag e -> vr c0 = vr e -> length c0 = length e ->
              vm c0 = vm e -> assigned c0 = false ->
              (forall j, Z.of_nat j < vm e ->
                         stored_string c0 j = stored_string e j) ->
              clone_case_string e clone w = Some (Some c0, w) ->
              exists c,
                dcm_element_clone e w = Some ((Some c, e), w) /\
                tag c = tag e /\ vr c = vr e /\ length c = length e /\
                vm c = vm e /\ assigned c = true /\
                forall (j : nat) (w1 : World),
                  Z.of_nat j < vm e ->
                  exists v,
                    dcm_element_get_value_string e (Z.of_nat j) w1
                    = Some (Some v, w1) /\
                    dcm_element_get_value_string c (Z.of_nat j) w1
                    = Some (Some v, w1)).
  { intros c0 Ht0 Hv0 Hl0 Hm0 Ha0 Hst0 Hcase.
    exists (set_assigned c0 true).
    assert (Hf : tag (set_assigned c0 true) = tag c0 /\
                 vr (set_assigned c0 true) = vr c0 /\
                 length (set_assigned c0 true) = length c0 /\
                 vm (set_assigned c0 true) = vm c0 /\
                 assigned (set_assigned c0 true) = true /\
                 forall j, stored_string (set_assigned c0 true) j
                           = stored_string c0 j)
      by (destruct c0; cbn; repeat split; reflexivity).
    destruct Hf as (Ft & Fv & Fl & Fm & Fa & Fst).
    split.
    - unfold dcm_element_clone. cbn [element_clone_fuel].
      unfold element_clone_body. unfold bind at 1.
      rewrite (@dcm_element_create_known_tag _ (tag e) (length e) w
                 ltac:(rewrite <- Hvr; exact Huk)
                 ltac:(rewrite Hw; reflexivity)).
      rewrite Hworld, Hlen. fold clone. cbv zeta.
      assert (Hclass : dcm_dict_vr_class (vr e) = DCM_CLASS_STRING_MULTI
                       \/ dcm_dict_vr_class (vr e)
                          = DCM_CLASS_STRING_SINGLE).
      { unfold is_string_class in Hs.
        destruct (dcm_dict_vr_class (vr e)); cbn in Hs; auto;
          discriminate. }
      assert (Hval : dcm_element_validate c0 w
                     = Some ((true, set_assigned c0 true), w)).
      { apply dcm_element_validate_strings; auto.
        - rewrite Hv0, Ht0. exact Hvr.
        - rewrite Hv0. exact Hs.
        - lia.
        - intros j Hj. rewrite Hm0 in Hj. rewrite Hst0, Hv0 by exact Hj.
          apply Hstr. exact Hj. }
      destruct Hclass as [-> | ->]; unfold bind; rewrite Hcase; cbn [ret];
        rewrite Hval; reflexivity.
    - rewrite Ft, Fv, Fl, Fm, Fa, Ht0, Hv0, Hl0, Hm0.
      repeat split; auto.
      intros j w1 Hj. destruct (Hstr j Hj) as (v & Hst & _).
      exists v. split.
      + apply dcm_element_get_value_string_stored; auto.
      + apply dcm_element_get_value_string_stored; auto.
        * rewrite Fv, Hv0. exact Hs.
        * rewrite Fm, Hm0. exact Hj.
        * rewrite Fst, Hst0 by exact Hj. exact Hst. }
  destruct (Hstr 0%nat ltac:(cbn; lia)) as (v0 & Hst0 & _).
  unfold stored_string in Hst0.
  destruct (Z.eqb_spec (vm e) 1) as [Hone | Hmany].
  - destruct (value e) as [| | s | | | |] eqn:Hval; try discriminate.
    eapply (Hfinish (set_vm (set_value_pointer
                               (set_value clone (single_str s)) true) 1));
      try reflexivity; try (symmetry; assumption).
    + intros j Hj. unfold stored_string. rewrite Hone, Hval. reflexivity.
    + unfold clone_case_string. rewrite Hval, Hone.
      change (1 =? 1) with true. cbv iota.
      unfold bind. rewrite (dcm_alloc_available w Hw). reflexivity.
  - destruct (value e) as [| | | | | | ss] eqn:Hval; try discriminate.
    assert (Hss : (Z.to_nat (vm e) <= List.length ss)%nat).
    { destruct (le_lt_dec (Z.to_nat (vm e)) (List.length ss)) as [H | H];
        [exact H |].
      destruct (Hstr (List.length ss) ltac:(lia)) as (v & Hst & _).
      unfold stored_string in Hst. rewrite Hval in Hst.
      destruct (vm e =? 1); [discriminate |].
      assert (Hn : nth_error ss (List.length ss) <> None) by congruence.
      apply nth_error_Some in Hn. lia. }
    eapply (Hfinish (set_vm (set_value_pointer_array
                               (set_value clone
                                  (multi_str (firstn (Z.to_nat (vm e)) ss)))
                               true) (vm e)));
      try reflexivity; try (symmetry; assumption).
    + intros j Hj. unfold stored_string. rewrite Hval. cbn [vm value set_vm
        set_value_pointer_array set_value clone fresh_element].
      destruct (Z.eqb_spec (vm e) 1); [lia |].
      apply nth_error_firstn_below. lia.
    + unfold clone_case_string. rewrite Hval.
      destruct (Z.ltb_spec 1 (vm e)); [| lia].
      unfold bind. rewrite (dcm_alloc_available w Hw). cbn [negb].
      pose proof (@strdup_loop_run ss w Hw (Z.to_nat (vm e)) 0%nat []
                    ltac:(lia)) as Hdup.
      cbn [Z.of_nat skipn app] in Hdup. rewrite Hdup.
      cbn [negb]. reflexivity.
Qed.

End ElementExtras.

(** ** Frames and the Basic Offset Table *)

Ltac frame_refused :=
  do 2 eexists; split; [reflexivity |];
  split;
  [ split;
    [ intros (f & Hf); discriminate
    | intros (H1 & H2 & H3 & H4 & H5 & H6); cbn in H6;
      try discriminate; tauto ]
  | split;
    [ intros f Hf; discriminate
    | intros _; cbn; do 3 eexists; split; [reflexivity | tauto] ] ].

(** X28. [dcm_frame_create] with pixel data always returns.  It returns a
    frame exactly when the length is not 0, the bits allocated and the bits
    stored are each 1 or a multiple of 8, the pixel representation and the
    planar configuration are each 0 or 1, and the three allocations
    succeed; otherwise it returns NULL and an INVALID or NOMEM error is
    set.  The accessors of the frame return the arguments of the call, and
    the high bit is the bits stored minus one in 16 bits. *)
Theorem dcm_frame_create_spec
        (number_arg : Z) (data_arg : list Z)
        (length_arg rows_arg columns_arg samples_per_pixel_arg
         bits_allocated_arg bits_stored_arg pixel_representation_arg
         planar_configuration_arg : Z)
        (photometric_interpretation_arg transfer_syntax_uid_arg : string)
        (w : World) :
  exists r w',
    dcm_frame_create number_arg (Some data_arg) length_arg rows_arg
      columns_arg samples_per_pixel_arg bits_allocated_arg bits_stored_arg
      pixel_representation_arg planar_configuration_arg
      photometric_interpretation_arg transfer_syntax_uid_arg w
    = Some (r, w') /\
    ((exists f, r = Some f) <->
     length_arg <> 0 /\
     (bits_allocated_arg = 1 \/ bits_allocated_arg mod 8 = 0) /\
     (bits_stored_arg = 1 \/ bits_stored_arg mod 8 = 0) /\
     (pixel_representation_arg = 0 \/ pixel_representation_arg = 1) /\
     (planar_configuration_arg = 0 \/ planar_configuration_arg = 1) /\
     forallb (fun b => b) (firstn 3 (allocs w)) = true) /\
    (forall f,
        r = Some f ->
        dcm_frame_get_number f = number_arg /\
        dcm_frame_get_value f = data_arg /\
        dcm_frame_get_length f = length_arg /\
        dcm_frame_get_rows f = rows_arg /\
        dcm_frame_get_columns f = columns_arg /\
        dcm_frame_get_samples_per_pixel f = samples_per_pixel_arg /\
        dcm_frame_get_bits_allocated f = bits_allocated_arg /\
        dcm_frame_get_bits_stored f = bits_stored_arg /\
        dcm_frame_get_high_bit f = wrap16 (bits_stored_arg - 1) /\
        dcm_frame_get_pixel_representation f = pixel_representation_arg /\
        dcm_frame_get_planar_configuration f = planar_configuration_arg /\
        dcm_frame_get_photometric_interpretation f
        = photometric_interpretation_arg /\
        dcm_frame_get_transfer_syntax_uid f = transfer_syntax_uid_arg) /\
    (r = None ->
     exists c summary message,
       error w' = Some (mkError c summary message) /\
       (c = DCM_ERROR_CODE_INVALID \/ c = DCM_ERROR_CODE_NOMEM)).
Proof.
  unfold dcm_frame_create.
  destruct (Z.eqb_spec length_arg 0); [frame_refused |].
  destruct (Z.eqb_spec bits_allocated_arg 1);
    destruct (Z.eqb_spec (bits_allocated_arg mod 8) 0);
    cbn [negb andb]; try frame_refused.
  all: destruct (Z.eqb_spec bits_stored_arg 1);
    destruct (Z.eqb_spec (bits_stored_arg mod 8) 0);
    cbn [negb andb]; try frame_refused.
  all: destruct (Z.eqb_spec pixel_representation_arg 0);
    destruct (Z.eqb_spec pixel_representation_arg 1);
    cbn [negb andb]; try frame_refused.
  all: destruct (Z.eqb_spec planar_configuration_arg 0);
    destruct (Z.eqb_spec planar_configuration_arg 1);
    cbn [negb andb]; try frame_refused.
  all: destruct w as [err al ds]; unfold bind, dcm_alloc;
    cbn [allocs error destroyed];
    destruct al as [| [|] [| [|] [| [|] rest]]]; cbn;
    try frame_refused.
  all: do 2 eexists; (split; [reflexivity |]);
    (split; [split; [intros _; repeat split; auto | intros _; eauto] |]);
    (split; [intros f Hf; inversion Hf; subst; cbn; repeat split
            | intros Hn; discriminate]).
Qed.

(** X29. [dcm_bot_create] always returns.  It returns a table exactly when
    the number of frames is not 0, offsets were given and the allocation
    succeeds; with no frames or no offsets it returns NULL and reports
    INVALID.  From the table it returns, [dcm_bot_get_frame_offset] gives
    for each frame number from 1 to the number of frames the offset stored
    for that frame plus the offset of the first frame; for any other frame
    number its assertion fails. *)
Theorem dcm_bot_create_spec (offsets_arg : option (list Z))
        (num_frames_arg first_frame_offset_arg : Z) (w : World) :
  0 <= num_frames_arg < 2 ^ 32 - 1 ->
  exists r w',
    dcm_bot_create offsets_arg num_frames_arg first_frame_offset_arg w
    = Some (r, w') /\
    ((exists bot, r = Some bot) <->
     num_frames_arg <> 0 /\ offsets_arg <> None /\
     hd true (allocs w) = true) /\
    (num_frames_arg = 0 \/ offsets_arg = None -> invalid_error w') /\
    (forall bot offs,
        r = Some bot -> offsets_arg = Some offs ->
        dcm_bot_get_num_frames bot = num_frames_arg /\
        (forall k, k <= 0 \/ num_frames_arg < k ->
                   dcm_bot_get_frame_offset bot k = None) /\
        (Z.of_nat (List.length offs) = num_frames_arg ->
         forall k, 1 <= k <= num_frames_arg ->
                   exists off,
                     nth_error offs (Z.to_nat (k - 1)) = Some off /\
                     dcm_bot_get_frame_offset bot k
                     = Some (ssize_t_add off first_frame_offset_arg))).
Proof.
  intros Hn. unfold dcm_bot_create.
  destruct (Z.eqb_spec num_frames_arg 0) as [Hz | Hnz].
  { do 2 eexists. split; [reflexivity |].
    split; [split; [intros (b & Hb); discriminate | tauto] |].
    split; [intros _; unfold invalid_error; cbn; eauto |].
    intros bot offs Hb. discriminate. }
  destruct offsets_arg as [offs0 |].
  2:{ do 2 eexists. split; [reflexivity |].
      split; [split; [intros (b & Hb); discriminate | tauto] |].
      split; [intros _; unfold invalid_error; cbn; eauto |].
      intros bot offs Hb. discriminate. }
  destruct w as [err al ds]. unfold bind, dcm_alloc. cbn [allocs].
  destruct al as [| [|] al]; cbn.
  3:{ do 2 eexists. split; [reflexivity |].
      split; [split; [intros (b & Hb); discriminate
                     | intros (_ & _ & H); discriminate] |].
      split; [intros [H | H]; [contradiction | discriminate] |].
      intros bot offs Hb. discriminate. }
  all: do 2 eexists; (split; [reflexivity |]);
    (split; [split; [intros _; repeat split; auto; discriminate
                    | intros _; eauto] |]);
    (split; [intros [H | H]; [contradiction | discriminate] |]);
    intros bot offs Hb Ho; inversion Hb; subst bot; inversion Ho; subst offs;
    (split; [reflexivity |]); split.
  all: try (intros k Hk; unfold dcm_bot_get_frame_offset, wrap32;
            cbn [num_frames];
            rewrite (Z.mod_small (num_frames_arg + 1)) by lia;
            destruct (Z.ltb_spec 0 k); [| reflexivity];
            destruct (Z.ltb_spec k (num_frames_arg + 1)); [lia |];
            reflexivity).
  all: intros Hlen k Hk;
    apply (dcm_bot_get_frame_offset_in_range
             (mkBOT num_frames_arg offs0 first_frame_offset_arg));
    cbn [num_frames offsets]; auto; lia.
Qed.

(** X30. Iteration follows insertion: after a successful
    [dcm_dataset_insert], [dcm_dataset_foreach] on the set calls the
    callback on the elements the set held before, in the order it did
    before the insertion, and then on the new element. *)
Theorem dcm_dataset_foreach_after_insert (d d' : DcmDataSet)
        (e : DcmElement) (fn : DcmElement -> M unit) (w0 w0' w : World) :
  dcm_dataset_insert d e w0 = Some ((true, d'), w0') ->
  dcm_dataset_foreach d' fn w
  = (dcm_dataset_foreach d fn ;;; fn e ;;; ret tt) w.
Proof.
  unfold dcm_dataset_insert.
  destruct (is_locked d); [discriminate |].
  destruct (HASH_FIND_INT (elements d) (tag e)); [discriminate |].
  intros H. inversion H; subst. clear H.
  unfold dcm_dataset_foreach, HASH_ADD_INT. cbn [elements].
  revert w. induction (elements d) as [| x els IH]; intros w.
  - reflexivity.
  - cbn [app dataset_foreach_loop]. unfold bind in *.
    destruct (fn x w) as [[u w1] |]; [apply IH | reflexivity].
Qed.

(** ** The further properties at the objects of the scenarios *)

Lemma setters_keep_nonzero_length_witness :
  exists e' w',
    run_setter (dict := scenario_dict) (fconv := scenario_fconv)
      (set_integer 512) (fresh_element 0x00280010 DCM_VR_US 4) world0
    = Some ((false, e'), w') /\
    length e' = 4.
Proof.
  eexists. eexists. split; [vm_compute; reflexivity |].
  destruct (@setters_keep_nonzero_length scenario_dict scenario_fconv
              (set_integer 512) (fresh_element 0x00280010 DCM_VR_US 4)
              world0 _ _ _
              ltac:(cbn; discriminate) ltac:(vm_compute; reflexivity))
    as (H & _).
  exact H.
Defined.

Lemma successful_setter_numeric_length_witness :
  exists e' w',
    run_setter (dict := scenario_dict) (fconv := scenario_fconv)
      (set_integer 512) (fresh_element 0x00280010 DCM_VR_US 0) world0
    = Some ((true, e'), w') /\
    length e' = 2 /\ assigned e' = true.
Proof.
  eexists. eexists. split; [vm_compute; reflexivity |].
  destruct (@successful_setter_numeric_length scenario_dict scenario_fconv
              (set_integer 512) (fresh_element 0x00280010 DCM_VR_US 0)
              world0 _ _
              ltac:(reflexivity) ltac:(vm_compute; reflexivity))
    as (H1 & H2 & _).
  split; [exact H1 | exact H2].
Defined.

Lemma successful_setter_strings_within_capacity_witness :
  exists e' w',
    run_setter (dict := scenario_dict) (fconv := scenario_fconv)
      (set_string "Doe^John\Smith^Jane")
      (fresh_element 0x00100010 DCM_VR_PN 0) world0
    = Some ((true, e'), w') /\
    exists v,
      dcm_element_get_value_string (dict := scenario_dict) e' 1 world0
      = Some (Some v, world0) /\
      strlen v <= 64.
Proof.
  eexists. eexists. split; [vm_compute; reflexivity |].
  apply (@successful_setter_strings_within_capacity
           scenario_dict scenario_fconv
           (set_string "Doe^John\Smith^Jane")
           (fresh_element 0x00100010 DCM_VR_PN 0) world0 _ _
           ltac:(reflexivity) ltac:(vm_compute; reflexivity)
           1%nat world0 ltac:(vm_compute; reflexivity)).
Defined.

Lemma dcm_element_set_then_get_integer_witness :
  exists e' w',
    dcm_element_set_value_integer (dict := scenario_dict)
      (fconv := scenario_fconv)
      (fresh_element 0x00280010 DCM_VR_US 0) 512 world0
    = Some ((true, e'), w') /\
    dcm_element_get_value_integer (dict := scenario_dict)
      (freads := scenario_freads) e' 0 world0
    = Some (Some 512, world0).
Proof.
  eexists. eexists. split; [vm_compute; reflexivity |].
  destruct (@dcm_element_set_then_get_integer
              scenario_dict scenario_fconv scenario_freads
              (fresh_element 0x00280010 DCM_VR_US 0) 512 0 (2 ^ 16)
              world0 _ _
              ltac:(reflexivity) ltac:(vm_compute; reflexivity))
    as (_ & r & Hget & Hr).
  rewrite (Hget world0). rewrite Hr; [reflexivity | lia | lia].
Defined.

Lemma dcm_element_set_numeric_multi_then_get_witness :
  exists e' w',
    dcm_element_set_value_numeric_multi (dict := scenario_dict)
      (fresh_element 0x00280010 DCM_VR_US 0) [1; 2; 3] 3 false world0
    = Some ((true, e'), w') /\
    dcm_element_get_value_integer (dict := scenario_dict)
      (freads := scenario_freads) e' 2 world0
    = Some (Some 3, world0).
Proof.
  eexists. eexists. split; [vm_compute; reflexivity |].
  destruct (@dcm_element_set_numeric_multi_then_get
              scenario_dict scenario_fconv scenario_freads
              (fresh_element 0x00280010 DCM_VR_US 0) [1; 2; 3] 3 false
              world0 _ _ ltac:(vm_compute; reflexivity))
    as (_ & H).
  destruct (H 2 3 world0 ltac:(lia) ltac:(reflexivity)) as (Hi & _).
  exact (Hi ltac:(cbn; discriminate)).
Defined.

Lemma dcm_element_set_then_get_double_witness :
  exists e' w',
    dcm_element_set_value_double (dict := scenario_dict_fd)
      (fconv := scenario_fconv)
      (fresh_element 0x00189087 DCM_VR_FD 0) 1000 world0
    = Some ((true, e'), w') /\
    dcm_element_get_value_double (dict := scenario_dict_fd)
      (fconv := scenario_fconv) (freads := scenario_freads) e' 0 world0
    = Some (Some 1000, world0).
Proof.
  eexists. eexists. split; [vm_compute; reflexivity |].
  destruct (@dcm_element_set_then_get_double
              scenario_dict_fd scenario_fconv scenario_freads
              (fresh_element 0x00189087 DCM_VR_FD 0) 1000
              world0 _ _ ltac:(vm_compute; reflexivity))
    as (_ & H).
  exact (H world0).
Defined.

Lemma dcm_element_set_then_get_binary_witness :
  exists e' w',
    dcm_element_set_value_binary (dict := scenario_dict)
      (fresh_element 0xFFFCFFFC DCM_VR_OB 0) [1; 2; 3] 3 false world0
    = Some ((true, e'), w') /\
    length e' = 4 /\
    dcm_element_get_value_binary (dict := scenario_dict) e' world0
    = Some (Some [1; 2; 3], world0).
Proof.
  eexists. eexists. split; [vm_compute; reflexivity |].
  destruct (@dcm_element_set_then_get_binary scenario_dict
              (fresh_element 0xFFFCFFFC DCM_VR_OB 0) [1; 2; 3] 3 false
              world0 _ _ ltac:(vm_compute; reflexivity))
    as (_ & Hl & H).
  split; [exact Hl | exact (H world0)].
Defined.

Lemma element_set_value_string_single_witness :
  exists e' w',
    element_set_value_string (dict := scenario_dict)
      (fresh_element 0x00104000 DCM_VR_LT 0) "left\right" true world0
    = Some ((true, e'), w') /\
    vm e' = 1 /\ value e' = single_str "left\right".
Proof.
  destruct (@element_set_value_string_single scenario_dict
              (fresh_element 0x00104000 DCM_VR_LT 0) "left\right" true
              world0 ltac:(reflexivity) ltac:(reflexivity)
              ltac:(reflexivity))
    as (ok & e' & w' & Hrun & Hok & Hm & Hv & _).
  exists e', w'. rewrite Hrun, Hok. auto.
Defined.

Lemma getters_refuse_witness :
  exists w',
    dcm_element_get_value_string (dict := scenario_dict)
      (fresh_element 0x00100010 DCM_VR_PN 0) 0 world0
    = Some (None, w') /\
    world_reports_invalid world0 w'.
Proof.
  destruct (@getters_refuse scenario_dict scenario_fconv scenario_freads
              (fresh_element 0x00100010 DCM_VR_PN 0) 0 world0)
    as (H & _).
  destruct (H (or_introl eq_refl)) as (Hs & _). exact Hs.
Defined.

Lemma setter_refused_writes_nothing_witness :
  exists w',
    run_setter (dict := scenario_dict) (fconv := scenario_fconv)
      (set_integer 5) patient_name world0
    = Some ((false, patient_name), w') /\
    world_reports_invalid world0 w'.
Proof.
  exact (@setter_refused_writes_nothing scenario_dict scenario_fconv
           (set_integer 5) patient_name world0 (or_introl eq_refl)).
Defined.


Lemma sequence_elements_are_never_cloned_witness :
  exists e' w',
    dcm_element_clone (dict := scenario_dict) anatomic_region world0
    = Some ((None, e'), w').
Proof.
  assert (H : exists r e' w',
             dcm_element_clone (dict := scenario_dict) anatomic_region
                               world0
             = Some ((r, e'), w'))
    by (do 3 eexists; vm_compute; reflexivity).
  destruct H as (r & e' & w' & H). exists e', w'. rewrite H.
  destruct (@sequence_elements_are_never_cloned scenario_dict
              scenario_fconv anatomic_region ltac:(reflexivity))
    as (Hnull & _).
  rewrite (Hnull _ _ _ _ H). reflexivity.
Defined.

Lemma dcm_element_clone_string_witness :
  exists c,
    dcm_element_clone (dict := scenario_dict) patient_name world0
    = Some ((Some c, patient_name), world0) /\
    vm c = 2 /\ length c = 20.
Proof.
  assert (Hv : validated (dict := scenario_dict) patient_name).
  { split; [reflexivity |]. split; [reflexivity |].
    split; [cbn; discriminate |].
    split; [cbn; discriminate |].
    intros _ j Hj.
    destruct j as [| [| j]]; [| | cbn in Hj; lia];
      eexists; (split; [reflexivity | cbn; lia]). }
  destruct (@dcm_element_clone_string scenario_dict patient_name world0 Hv
              ltac:(reflexivity) ltac:(cbn; discriminate) ltac:(cbn; lia)
              ltac:(reflexivity) ltac:(cbn; lia) ltac:(reflexivity))
    as (c & Hrun & _ & _ & Hl & Hm & _).
  exists c. split; [exact Hrun |]. split; [exact Hm | exact Hl].
Defined.

Lemma dcm_bot_create_spec_witness :
  exists bot,
    dcm_bot_create (Some [0; 100; 250]) 3 12 world0
    = Some (Some bot, world0) /\
    dcm_bot_get_frame_offset bot 3 = Some 262 /\
    dcm_bot_get_frame_offset bot 4 = None.
Proof.
  destruct (@dcm_bot_create_spec (Some [0; 100; 250]) 3 12 world0
              ltac:(lia))
    as (r & w' & Hrun & _ & _ & H).
  vm_compute in Hrun. inversion Hrun; subst r w'. clear Hrun.
  destruct (H _ [0; 100; 250] eq_refl eq_refl) as (_ & Hout & Hin).
  eexists. split; [reflexivity |]. split.
  - destruct (Hin eq_refl 3 ltac:(lia)) as (off & Hoff & Hget).
    cbn in Hoff. inversion Hoff; subst off. exact Hget.
  - apply Hout. lia.
Defined.

Lemma dcm_dataset_foreach_after_insert_witness :
  dcm_dataset_insert one_name sop_instance_uid world0
  = Some ((true, mkDataSet [patient_name; sop_instance_uid] false), world0)
  /\
  dcm_dataset_foreach (mkDataSet [patient_name; sop_instance_uid] false)
                      dcm_element_destroy world0
  = (dcm_dataset_foreach one_name dcm_element_destroy ;;;
     dcm_element_destroy sop_instance_uid ;;; ret tt) world0.
Proof.
  split; [reflexivity |].
  apply (@dcm_dataset_foreach_after_insert one_name _ sop_instance_uid
           dcm_element_destroy world0 world0 world0 eq_refl).
Defined.
